(** * The generation-strategy engine of Ax, embedded in Rocq

    A shallow embedding of [ax/generation_strategy/generation_strategy.py]:
    the [GenerationStrategy] class, its constructor for node graphs, its
    experiment binding, and the candidate-generation entry points
    ([gen], [gen_for_multiple_trials_with_multiple_models] and the loop
    [_gen_with_multiple_nodes] they share).

    Python objects that are mutated in place are modelled by explicit state:
    the strategy object is a record threaded through a state-and-exception
    monad, the nodes live in the strategy's [_nodes] list and are referred to
    by position, and the pending-observations dictionaries live in a store
    addressed by locations, so that two references to one dictionary alias.

    [GenerationNode], [TransitionCriterion], [Experiment] and the helpers of
    [ax.core.utils] are collaborators whose code is not part of the file
    embedded here; their behaviour is taken as an interface
    ([Collaborators]) over which every definition is parametric. *)

From Stdlib Require Import ZArith String List Bool Lia.
From stdpp Require Import base option list functions gmap strings pretty relations.

Local Open Scope string_scope.
Local Open Scope list_scope.
Local Open Scope Z_scope.

(** ** Exceptions and outcomes *)

Inductive exn : Type :=
| DataRequiredError
| UnsupportedError
| UserInputError
| GenerationStrategyCompleted
| GenerationStrategyMisconfiguredException
| ValueError
| KeyError
| IndexError
| AttributeError
| AssertionError
| OtherError (tag : string).

#[global] Instance exn_eq_dec : EqDecision exn.
Proof. solve_decision. Defined.

(** What running a piece of Python yields: a value, a raised exception, or
    (for the fuelled [while] loop only) exhaustion of the fuel. *)
Inductive outcome (A : Type) : Type :=
| Return (a : A)
| Raise (e : exn)
| OutOfFuel.
Arguments Return {A} a.
Arguments Raise {A} e.
Arguments OutOfFuel {A}.

(** ** Data model *)

Definition Arm := string.
Definition ObservationFeatures := string.
Definition Adapter := string.

Record GeneratorRun : Type := {
  arms : list Arm;
  gr_model_key : string
}.

#[global] Instance GeneratorRun_eq_dec : EqDecision GeneratorRun.
Proof. solve_decision. Defined.

Module Experiment.
Record t : Type := {
  _name : string;
  metrics : list string
}.
#[global] Instance eq_dec : EqDecision t.
Proof. solve_decision. Defined.
End Experiment.

Record TransitionCriterion : Type := {
  criterion_class : string;
  transition_to : option string;
  continue_trial_generation : bool
}.

#[global] Instance TransitionCriterion_eq_dec : EqDecision TransitionCriterion.
Proof. solve_decision. Defined.

Record GeneratorSpec : Type := {
  model_key : string;
  is_FactoryFunctionGeneratorSpec : bool
}.

#[global] Instance GeneratorSpec_eq_dec : EqDecision GeneratorSpec.
Proof. solve_decision. Defined.

(** A node object.  [is_GenerationStep] is [isinstance(n, GenerationStep)]
    ([GenerationStep] is a subclass of [GenerationNode]). *)
Record GenerationNode : Type := {
  node_name : string;
  is_GenerationStep : bool;
  model_specs : list GeneratorSpec;
  transition_criteria : list TransitionCriterion;
  _previous_node_name : option string;
  _should_skip : bool;
  _fitted_model : option Adapter
}.

#[global] Instance GenerationNode_eq_dec : EqDecision GenerationNode.
Proof. solve_decision. Defined.

(** The strategy object.  [_curr] is a reference to one of the objects held
    in [_nodes]; it is modelled by that object's position in the list. *)
Record GenerationStrategy : Type := {
  _nodes : list GenerationNode;
  _curr : nat;
  _uses_registered_models : bool;
  _generator_runs : list GeneratorRun;
  _name : string;
  _experiment : option Experiment.t;
  _model : option Adapter
}.

Definition with_nodes (ns : list GenerationNode) (s : GenerationStrategy) :=
  {| _nodes := ns; _curr := _curr s;
     _uses_registered_models := _uses_registered_models s;
     _generator_runs := _generator_runs s; _name := _name s;
     _experiment := _experiment s; _model := _model s |}.

Definition with_curr (i : nat) (s : GenerationStrategy) :=
  {| _nodes := _nodes s; _curr := i;
     _uses_registered_models := _uses_registered_models s;
     _generator_runs := _generator_runs s; _name := _name s;
     _experiment := _experiment s; _model := _model s |}.

Definition with_generator_runs (grs : list GeneratorRun) (s : GenerationStrategy) :=
  {| _nodes := _nodes s; _curr := _curr s;
     _uses_registered_models := _uses_registered_models s;
     _generator_runs := grs; _name := _name s;
     _experiment := _experiment s; _model := _model s |}.

Definition with_name (nm : string) (s : GenerationStrategy) :=
  {| _nodes := _nodes s; _curr := _curr s;
     _uses_registered_models := _uses_registered_models s;
     _generator_runs := _generator_runs s; _name := nm;
     _experiment := _experiment s; _model := _model s |}.

Definition with_experiment (e : option Experiment.t) (s : GenerationStrategy) :=
  {| _nodes := _nodes s; _curr := _curr s;
     _uses_registered_models := _uses_registered_models s;
     _generator_runs := _generator_runs s; _name := _name s;
     _experiment := e; _model := _model s |}.

Definition with_model (m : option Adapter) (s : GenerationStrategy) :=
  {| _nodes := _nodes s; _curr := _curr s;
     _uses_registered_models := _uses_registered_models s;
     _generator_runs := _generator_runs s; _name := _name s;
     _experiment := _experiment s; _model := m |}.

(** ** The store of pending-observations dictionaries

    A dictionary [dict[str, list[ObservationFeatures]]] is a [gmap]; a
    reference to one is a location of the store. *)

Definition loc := nat.
Abbreviation PendingObservations := (gmap string (list ObservationFeatures)).
Abbreviation Store := (gmap loc PendingObservations).

Record World : Type := {
  gs : GenerationStrategy;
  store : Store
}.

Definition on_gs (f : GenerationStrategy -> GenerationStrategy) (w : World) : World :=
  {| gs := f (gs w); store := store w |}.

Definition on_store (f : Store -> Store) (w : World) : World :=
  {| gs := gs w; store := f (store w) |}.

(** ** The state-and-exception monad

    State changes made before an exception is raised stay: Python mutates
    objects in place and raising does not undo anything. *)

Definition M (A : Type) : Type := World -> outcome A * World.

#[global] Instance M_ret : MRet M := fun A a w => (Return a, w).

#[global] Instance M_bind : MBind M := fun A B f m w =>
  match m w with
  | (Return a, w') => f a w'
  | (Raise e, w') => (Raise e, w')
  | (OutOfFuel, w') => (OutOfFuel, w')
  end.

Definition raise {A : Type} (e : exn) : M A := fun w => (Raise e, w).
Definition out_of_fuel {A : Type} : M A := fun w => (OutOfFuel, w).
Definition get_gs : M GenerationStrategy := fun w => (Return (gs w), w).
Definition modify_gs (f : GenerationStrategy -> GenerationStrategy) : M unit :=
  fun w => (Return tt, on_gs f w).
Definition get_store : M Store := fun w => (Return (store w), w).
Definition modify_store (f : Store -> Store) : M unit :=
  fun w => (Return tt, on_store f w).

(** ** [GenerationStrategy.experiment]: getter and setter *)

(** [experiment] (getter): [ValueError] when no experiment is set. *)
Definition experiment : M Experiment.t :=
  s ← get_gs;
  match _experiment s with
  | None => raise ValueError
  | Some e => mret e
  end.

(** [experiment.setter]. *)
Definition experiment_setter (experiment_ : Experiment.t) : M unit :=
  s ← get_gs;
  match _experiment s with
  | None => modify_gs (with_experiment (Some experiment_))
  | Some _ =>
      cur ← experiment;
      if String.eqb (Experiment._name experiment_) (Experiment._name cur)
      then modify_gs (with_experiment (Some experiment_))
      else raise ValueError
  end.

(** ** Collaborators

    The methods of [GenerationNode] and the helpers of [ax.core.utils] that
    the strategy calls.  A node reaches its strategy (and through it the
    experiment) by a back-pointer; here the strategy is passed explicitly.
    [GenerationNode_gen] returns the node as the call left it (fitted model,
    skip flag) together with what the call returned or raised. *)

Inductive result (A : Type) : Type :=
| Ok (a : A)
| Err (e : exn).
Arguments Ok {A} a.
Arguments Err {A} e.

Definition lift_result {A : Type} (r : result A) : M A := fun w =>
  match r with
  | Ok a => (Return a, w)
  | Err e => (Raise e, w)
  end.

Definition Data := string.

(** The arguments a generation call passes through unchanged. *)
Record GenArgs : Type := {
  data : option Data;
  n : option Z;
  fixed_features : option ObservationFeatures;
  arms_per_node : option (gmap string Z)
}.

Class Collaborators : Type := {
  should_transition_to_next_node :
    GenerationStrategy -> GenerationNode -> bool (* raise_data_required_error *) ->
    result (bool * option string);
  is_completed : GenerationStrategy -> GenerationNode -> bool;
  new_trial_limit :
    GenerationStrategy -> GenerationNode -> bool (* raise_generation_errors *) ->
    result Z;
  GenerationNode_gen :
    GenerationStrategy -> GenerationNode -> Experiment.t -> GenArgs ->
    PendingObservations -> bool (* skip_fit *) ->
    list GeneratorRun (* grs_this_gen *) ->
    GenerationNode * result (option GeneratorRun);
  extract_pending_observations : Experiment.t -> option PendingObservations;
  (** the contents [extend_pending_observations] leaves in the dictionary
      it is given *)
  extend_pending_observations :
    Experiment.t -> PendingObservations -> GeneratorRun -> PendingObservations
}.

(** ** Node references and the node graph *)

(** [nodes_dict]: [{node.node_name: node for node in self._nodes}]; a later
    node of the same name replaces an earlier one.  Values are references
    (positions in [_nodes]). *)
Fixpoint nodes_dict_from (i : nat) (ns : list GenerationNode)
    (d : gmap string nat) : gmap string nat :=
  match ns with
  | [] => d
  | nd :: ns' => nodes_dict_from (S i) ns' (<[node_name nd := i]> d)
  end.

Definition nodes_dict (s : GenerationStrategy) : gmap string nat :=
  nodes_dict_from 0 (_nodes s) ∅.

(** Modelled from the spec: [GenerationNode.transition_edges], which is not
    part of the embedded file.  The criteria of a node grouped by their
    [transition_to] target (all criteria on one node-to-node edge together),
    as a dictionary in insertion order.  In Ax the property builds a
    [defaultdict(list)] anew at every access: subscripting it with a target
    no criterion names gives the empty list and raises nothing. *)
Fixpoint edges_add (k : option string) (tc : TransitionCriterion)
    (edges : list (option string * list TransitionCriterion)) :
    list (option string * list TransitionCriterion) :=
  match edges with
  | [] => [(k, [tc])]
  | (k', tcs) :: rest =>
      if decide (k = k') then (k', tcs ++ [tc]) :: rest
      else (k', tcs) :: edges_add k tc rest
  end.

Definition transition_edges (nd : GenerationNode) :
    list (option string * list TransitionCriterion) :=
  fold_left (fun edges tc => edges_add (transition_to tc) tc edges)
            (transition_criteria nd) [].

Fixpoint edges_lookup (k : option string)
    (edges : list (option string * list TransitionCriterion)) :
    option (list TransitionCriterion) :=
  match edges with
  | [] => None
  | (k', tcs) :: rest => if decide (k = k') then Some tcs else edges_lookup k rest
  end.

(** [transition_edges[k]]. *)
Definition edges_get (k : option string)
    (edges : list (option string * list TransitionCriterion)) :
    list TransitionCriterion :=
  default [] (edges_lookup k edges).

Definition set_previous_node_name (p : option string) (nd : GenerationNode) :=
  {| node_name := node_name nd; is_GenerationStep := is_GenerationStep nd;
     model_specs := model_specs nd; transition_criteria := transition_criteria nd;
     _previous_node_name := p; _should_skip := _should_skip nd;
     _fitted_model := _fitted_model nd |}.

Definition set_should_skip (b : bool) (nd : GenerationNode) :=
  {| node_name := node_name nd; is_GenerationStep := is_GenerationStep nd;
     model_specs := model_specs nd; transition_criteria := transition_criteria nd;
     _previous_node_name := _previous_node_name nd; _should_skip := b;
     _fitted_model := _fitted_model nd |}.

(** In-place update of the node object at position [i]. *)
Definition update_node (i : nat) (f : GenerationNode -> GenerationNode)
    (s : GenerationStrategy) : GenerationStrategy :=
  with_nodes (alter f i (_nodes s)) s.

(** Dereference [self._curr].  The reference always points to a node object;
    a position outside [_nodes] has no counterpart in Python and is reported
    as an [OtherError]. *)
Definition curr_node : M GenerationNode :=
  s ← get_gs;
  match _nodes s !! _curr s with
  | Some nd => mret nd
  | None => raise (OtherError "dangling _curr")
  end.

Section Strategy.
Context `{Collaborators}.

(** [optimization_complete]. *)
Definition optimization_complete (s : GenerationStrategy) : bool :=
  forallb (is_completed s) (_nodes s).

(** [self._nodes.index(self._curr)]: the first position holding an object
    equal to the current node. *)
Definition index_of_curr (s : GenerationStrategy) (cur : GenerationNode) : option nat :=
  fst <$> list_find (fun nd => nd = cur) (_nodes s).

(** The loop [for node in self._nodes: if node.node_name == next_node: ...]
    of [_maybe_transition_to_next_node]. *)
Fixpoint move_to_named (next_node : string) (i : nat) (ns : list GenerationNode)
    (s : GenerationStrategy) : GenerationStrategy :=
  match ns with
  | [] => s
  | nd :: ns' =>
      move_to_named next_node (S i) ns'
        (if String.eqb (node_name nd) next_node
         then with_model None (with_curr i s) else s)
  end.

(** [_maybe_transition_to_next_node]. *)
Definition _maybe_transition_to_next_node (raise_data_required_error : bool) : M bool :=
  cur ← curr_node;
  s ← get_gs;
  '(move_to_next_node, next_node) ←
    lift_result (should_transition_to_next_node s cur raise_data_required_error);
  (if move_to_next_node : bool then
     if optimization_complete s then raise GenerationStrategyCompleted
     else
       next_node ← match next_node with
                   | Some nm => mret nm
                   | None =>
                       match index_of_curr s cur with
                       | None => raise ValueError
                       | Some current_node_index =>
                           match _nodes s !! (current_node_index + 1)%nat with
                           | None => raise IndexError
                           | Some nd => mret (node_name nd)
                           end
                       end
                   end;
       modify_gs (fun s => move_to_named next_node 0 (_nodes s) s)
   else mret tt) ;;
  mret move_to_next_node.

(** [_should_continue_gen_for_trial]. *)
Definition _should_continue_gen_for_trial : M bool :=
  cur ← curr_node;
  s ← get_gs;
  '(should_transition, next_node) ←
    lift_result (should_transition_to_next_node s cur false);
  if negb should_transition then mret false
  else
    match next_node with
    | None => raise AssertionError
    | Some _ =>
        mret (forallb continue_trial_generation
                (edges_get next_node (transition_edges cur)))
    end.

(** [_validate_arms_per_node]. *)
Definition _validate_arms_per_node (arms_per_node_ : option (gmap string Z)) : M unit :=
  s ← get_gs;
  match arms_per_node_ with
  | None => mret tt
  | Some apn =>
      if bool_decide (dom (nodes_dict s) ⊆ dom apn) then mret tt
      else raise UserInputError
  end.

(** ** Candidate generation *)

(** A new dictionary object: a location the store does not hold yet. *)
Definition alloc (d : PendingObservations) : M loc := fun w =>
  let l := fresh (dom (store w)) in
  (Return l, on_store <[l := d]> w).

(** The contents of the dictionary at [l]. *)
Definition deref (st : Store) (l : loc) : PendingObservations :=
  default ∅ (st !! l).

(** How one pass through the body of the [while] loop ends: back to the loop
    test with the flag still true ([LoopAgain], also reached by [continue]),
    or out of the loop ([LoopExit]: by [break], or with the flag false). *)
Inductive loop_ctl : Type :=
| LoopAgain (grs_this_gen : list GeneratorRun)
| LoopExit (grs_this_gen : list GeneratorRun).

(** The part of the loop body before the [try]: the transition check on the
    current node, the bookkeeping on the node to generate from, and the
    transition itself.  Returns [transitioned]. *)
Definition gen_loop_transition : M bool :=
  cur ← curr_node;
  s ← get_gs;
  '(should_transition, node_to_gen_from_name) ←
    lift_result (should_transition_to_next_node s cur false);
  node_to_gen_from ←
    match node_to_gen_from_name ≫= (fun nm => nodes_dict s !! nm) with
    | Some i => mret i
    | None => raise KeyError
    end;
  (if should_transition : bool then
     modify_gs (update_node node_to_gen_from
                  (fun nd => set_should_skip false
                               (set_previous_node_name node_to_gen_from_name nd)))
   else mret tt) ;;
  _maybe_transition_to_next_node true.

(** [self._curr.gen(...)]: the call mutates the current node object and
    returns or raises. *)
Definition call_node_gen (experiment_ : Experiment.t) (args : GenArgs)
    (pending_observations : loc) (skip_fit : bool)
    (grs_this_gen : list GeneratorRun) : M (result (option GeneratorRun)) :=
  cur ← curr_node;
  s ← get_gs;
  st ← get_store;
  let '(cur', r) :=
    GenerationNode_gen s cur experiment_ args (deref st pending_observations)
                       skip_fit grs_this_gen in
  modify_gs (update_node (_curr s) (fun _ => cur')) ;;
  mret r.

(** The part of the loop body after a generator run was produced.
    [extend_pending_observations] is called for its effect, what it returns
    is dropped.  Modelled from the spec: the helper, which is not part of the
    embedded file, extends in place the dictionary it is given. *)
Definition gen_loop_record (experiment_ : Experiment.t)
    (pending_observations : loc) (grs_this_gen : list GeneratorRun)
    (gr : GeneratorRun) : M loop_ctl :=
  modify_gs (fun s => with_generator_runs (_generator_runs s ++ [gr]) s) ;;
  modify_store (fun st =>
    <[pending_observations :=
        extend_pending_observations experiment_ (deref st pending_observations) gr]> st) ;;
  continue_gen_for_trial ← _should_continue_gen_for_trial;
  mret (if continue_gen_for_trial : bool
        then LoopAgain (grs_this_gen ++ [gr])
        else LoopExit (grs_this_gen ++ [gr])).

(** One pass through the body of [while continue_gen_for_trial]. *)
Definition gen_loop_body (experiment_ : Experiment.t) (args : GenArgs)
    (pending_observations : loc) (first_generation_in_multi : bool)
    (grs_this_gen : list GeneratorRun) : M loop_ctl :=
  transitioned ← gen_loop_transition;
  r ← call_node_gen experiment_ args pending_observations
        (negb (first_generation_in_multi || transitioned)) grs_this_gen;
  match r with
  | Ok gr =>
      cur ← curr_node;
      modify_gs (with_model (_fitted_model cur)) ;;
      match gr with
      | None => mret (LoopAgain grs_this_gen)
      | Some gr => gen_loop_record experiment_ pending_observations grs_this_gen gr
      end
  | Err DataRequiredError =>
      if bool_decide (length grs_this_gen = 0%nat) then raise DataRequiredError
      else mret (LoopExit grs_this_gen)
  | Err e => raise e
  end.

(** The [while] loop, with fuel: a node that keeps skipping keeps the loop
    running. *)
Fixpoint gen_loop (fuel : nat) (experiment_ : Experiment.t) (args : GenArgs)
    (pending_observations : loc) (first_generation_in_multi : bool)
    (grs_this_gen : list GeneratorRun) : M (list GeneratorRun) :=
  match fuel with
  | O => out_of_fuel
  | S fuel' =>
      c ← gen_loop_body experiment_ args pending_observations
            first_generation_in_multi grs_this_gen;
      match c with
      | LoopAgain grs => gen_loop fuel' experiment_ args pending_observations
                           first_generation_in_multi grs
      | LoopExit grs => mret grs
      end
  end.

(** The statements of [_gen_with_multiple_nodes] before the [while] loop;
    returns the dictionary the loop works on. *)
Definition gen_setup (experiment_ : Experiment.t) (args : GenArgs)
    (pending_observations : option loc) : M loc :=
  modify_gs (with_experiment (Some experiment_)) ;;
  s ← get_gs;
  if optimization_complete s then raise GenerationStrategyCompleted
  else
    pending_observations ←
      match pending_observations with
      | Some l => mret l
      | None => alloc ∅
      end;
    experiment_setter experiment_ ;;
    _validate_arms_per_node (arms_per_node args) ;;
    mret pending_observations.

(** [_gen_with_multiple_nodes]. *)
Definition _gen_with_multiple_nodes (fuel : nat) (experiment_ : Experiment.t)
    (args : GenArgs) (pending_observations : option loc)
    (first_generation_in_multi : bool) : M (list GeneratorRun) :=
  pending_observations ← gen_setup experiment_ args pending_observations;
  gen_loop fuel experiment_ args pending_observations
           first_generation_in_multi [].

(** The end of [gen]: more than one run is an error, else [gr[0]]. *)
Definition gen_single (gr : list GeneratorRun) : M GeneratorRun :=
  if bool_decide (1 < length gr)%nat then raise UnsupportedError
  else match gr with
       | [] => raise IndexError
       | g :: _ => mret g
       end.

(** [gen].  [_gen_with_multiple_nodes] is called with its default
    [arms_per_node=None] and [first_generation_in_multi=True]. *)
Definition gen (fuel : nat) (experiment_ : Experiment.t) (data_ : option Data)
    (pending_observations : option loc) (n_ : Z)
    (fixed_features_ : option ObservationFeatures) : M GeneratorRun :=
  experiment_setter experiment_ ;;
  gr ← _gen_with_multiple_nodes fuel experiment_
         {| data := data_; n := Some n_; fixed_features := fixed_features_;
            arms_per_node := None |}
         pending_observations true;
  gen_single gr.

(** The number of passes of the [for] loop of
    [gen_for_multiple_trials_with_multiple_models]. *)
Definition clamp_num_trials (num_trials new_trials_limit : Z) : Z :=
  if Z.eqb new_trials_limit (-1) then Z.max num_trials 1
  else Z.max (Z.min num_trials new_trials_limit) 1.

(** [for _i in range(num_trials): grs_for_multiple_trials.append(...)]. *)
Fixpoint gen_trials (passes : nat) (fuel : nat) (experiment_ : Experiment.t)
    (args : GenArgs) (pending_observations : loc)
    (grs_for_multiple_trials : list (list GeneratorRun)) :
    M (list (list GeneratorRun)) :=
  match passes with
  | O => mret grs_for_multiple_trials
  | S passes' =>
      grs ← _gen_with_multiple_nodes fuel experiment_ args
              (Some pending_observations)
              (bool_decide (length grs_for_multiple_trials < 1)%nat);
      gen_trials passes' fuel experiment_ args pending_observations
                 (grs_for_multiple_trials ++ [grs])
  end.

(** [gen_for_multiple_trials_with_multiple_models]. *)
Definition gen_for_multiple_trials_with_multiple_models (fuel : nat)
    (experiment_ : Experiment.t) (args : GenArgs)
    (pending_observations : option loc) (num_trials : Z) :
    M (list (list GeneratorRun)) :=
  experiment_setter experiment_ ;;
  pending_observations ←
    match pending_observations with
    | None => alloc (default ∅ (extract_pending_observations experiment_))
    | Some l => st ← get_store; alloc (deref st l)
    end;
  cur ← curr_node;
  s ← get_gs;
  new_trials_limit ← lift_result (new_trial_limit s cur false);
  gen_trials (Z.to_nat (clamp_num_trials num_trials new_trials_limit)) fuel
             experiment_ args pending_observations [].

End Strategy.

(** ** Construction of a node-based strategy *)

#[global] Instance result_ret : MRet result := fun A a => Ok a.

#[global] Instance result_bind : MBind result := fun A B f r =>
  match r with
  | Ok a => f a
  | Err e => Err e
  end.

(** [is_node_based], on a list whose elements are all node objects. *)
Definition is_node_based (ns : list GenerationNode) : bool :=
  negb (existsb is_GenerationStep ns) && forallb (fun _ => true) ns.

(** Python's [sub in s] on strings. *)
Fixpoint str_contains (sub s : string) : bool :=
  String.prefix sub s ||
  match s with
  | EmptyString => false
  | String _ s' => str_contains sub s'
  end.

(** First loop of [_validate_and_set_node_graph]: node names are unique.
    Returns [node_names]. *)
Fixpoint collect_node_names (ns : list GenerationNode) (node_names : list string) :
    result (list string) :=
  match ns with
  | [] => Ok node_names
  | nd :: ns' =>
      if bool_decide (node_name nd ∈ node_names)
      then Err GenerationStrategyMisconfiguredException
      else collect_node_names ns' (node_names ++ [node_name nd])
  end.

(** [for tc in tcs: if "MaxGenerationParallelism" not in tc.criterion_class: raise]. *)
Fixpoint check_null_target (tcs : list TransitionCriterion) : result unit :=
  match tcs with
  | [] => Ok tt
  | tc :: tcs' =>
      if negb (str_contains "MaxGenerationParallelism" (criterion_class tc))
      then Err GenerationStrategyMisconfiguredException
      else check_null_target tcs'
  end.

(** The body of [for next_node, tcs in node.transition_edges.items()]. *)
Definition validate_edge (node_names : list string)
    (edge : option string * list TransitionCriterion) : result unit :=
  let '(next_node, tcs) := edge in
  match next_node with
  | None => check_null_target tcs
  | Some nm =>
      if negb (bool_decide (nm ∈ node_names))
      then Err GenerationStrategyMisconfiguredException
      else if bool_decide
                (1 < size (list_to_set (continue_trial_generation <$> tcs) : gset bool))%nat
      then Err GenerationStrategyMisconfiguredException
      else Ok tt
  end.

Fixpoint validate_edges (node_names : list string)
    (edges : list (option string * list TransitionCriterion)) : result unit :=
  match edges with
  | [] => Ok tt
  | edge :: edges' =>
      validate_edge node_names edge ;; validate_edges node_names edges'
  end.

(** Second loop of [_validate_and_set_node_graph], over the nodes. *)
Fixpoint validate_nodes (node_names : list string) (ns : list GenerationNode) :
    result unit :=
  match ns with
  | [] => Ok tt
  | nd :: ns' =>
      validate_edges node_names (transition_edges nd) ;;
      validate_nodes node_names ns'
  end.

(** [_validate_and_set_node_graph]; returns the initial [_curr], a reference
    to [nodes[0]].  (The warning logged when no criterion names a target has
    no effect on the result.) *)
Definition _validate_and_set_node_graph (nodes : list GenerationNode) : result nat :=
  node_names ← collect_node_names nodes [];
  validate_nodes node_names nodes ;;
  match nodes with
  | [] => Err IndexError
  | _ :: _ => Ok 0%nat
  end.

(** [_make_default_name] of a node-based strategy. *)
Definition _make_default_name (nodes : list GenerationNode) : result string :=
  match nodes with
  | [] => Err UnsupportedError
  | _ => Ok (String.concat "+" (node_name <$> nodes))
  end.

(** [GenerationStrategy(name=name, nodes=nodes)]: [__init__] with
    [steps=None] and [nodes] a list of node objects. *)
Definition init_with_nodes (name : option string) (nodes : list GenerationNode) :
    result GenerationStrategy :=
  curr ← (if is_node_based nodes then _validate_and_set_node_graph nodes
          else Err GenerationStrategyMisconfiguredException);
  let uses_registered :=
    negb (existsb (fun nd => existsb is_FactoryFunctionGeneratorSpec (model_specs nd))
                  nodes) in
  name ← match name with
         | Some nm => if String.eqb nm "" then _make_default_name nodes else Ok nm
         | None => _make_default_name nodes
         end;
  Ok {| _nodes := nodes; _curr := curr;
        _uses_registered_models := uses_registered;
        _generator_runs := []; _name := name;
        _experiment := None; _model := None |}.

(** ** Attribute assignment on a strategy object

    The class body binds names in order; a later binding of a name replaces
    an earlier one.  [@property] binds a property object with a getter only;
    [@x.setter] takes the property currently bound to [x] and binds a copy
    of it with the setter added. *)

Inductive value : Type :=
| VStr (s : string)
| VExperiment (e : Experiment.t)
| VNone.

Inductive class_attr : Type :=
| Property (fget : M value) (fset : option (value -> M unit))
| ClassVar (v : value).

Inductive class_stmt : Type :=
| def_property (attr : string) (fget : M value)
| def_setter (via attr : string) (fset : value -> M unit)
| def_var (attr : string) (v : value).

Definition exec_class_stmt (ns : gmap string class_attr) (st : class_stmt) :
    gmap string class_attr :=
  match st with
  | def_property attr fget => <[attr := Property fget None]> ns
  | def_setter via attr fset =>
      match ns !! via with
      | Some (Property fget _) => <[attr := Property fget (Some fset)]> ns
      | _ => ns
      end
  | def_var attr v => <[attr := ClassVar v]> ns
  end.

Definition name_getter : M value := s ← get_gs; mret (VStr (_name s)).

(** The typed fields of the model hold values of their annotated type only;
    storing a value of another type is reported as an [OtherError]. *)
Definition name_setter (v : value) : M unit :=
  match v with
  | VStr nm => modify_gs (with_name nm)
  | _ => raise (OtherError "ill-typed")
  end.

Definition experiment_getter : M value := e ← experiment; mret (VExperiment e).

Definition experiment_setter_v (v : value) : M unit :=
  match v with
  | VExperiment e => experiment_setter e
  | _ => raise (OtherError "ill-typed")
  end.

(** The bindings of [name], [experiment] and of the class variables
    [_experiment] and [_model] in the body of [class GenerationStrategy], in
    source order.  The other statements of the body bind other names. *)
Definition GenerationStrategy_body : list class_stmt :=
  [ def_var "_experiment" VNone;
    def_var "_model" VNone;
    def_property "name" name_getter;
    def_setter "name" "name" name_setter;
    def_property "name" name_getter;
    def_property "experiment" experiment_getter;
    def_setter "experiment" "experiment" experiment_setter_v ].

Definition GenerationStrategy_class : gmap string class_attr :=
  fold_left exec_class_stmt GenerationStrategy_body ∅.

(** Instance attributes held in the record. *)
Definition store_attr (attr : string) (v : value) : M unit :=
  if String.eqb attr "_name" then name_setter v
  else if String.eqb attr "_experiment" then
    match v with
    | VExperiment e => modify_gs (with_experiment (Some e))
    | VNone => modify_gs (with_experiment None)
    | _ => raise (OtherError "ill-typed")
    end
  else mret tt.

(** [obj.attr = v]: a property found on the class takes the assignment, and
    one without a setter refuses it; anything else goes to the instance. *)
Definition setattr (attr : string) (v : value) : M unit :=
  match GenerationStrategy_class !! attr with
  | Some (Property _ None) => raise AttributeError
  | Some (Property _ (Some fset)) => fset v
  | _ => store_attr attr v
  end.

(** ** Accessors *)

(** [last_generator_run]. *)
Definition last_generator_run (s : GenerationStrategy) : option GeneratorRun :=
  match _generator_runs s with
  | [] => None
  | _ :: _ => last (_generator_runs s)
  end.

(** The decorator [step_based_gs_only]. *)
Definition step_based_gs_only {A : Type} (f : M A) : M A :=
  s ← get_gs;
  if is_node_based (_nodes s) then raise UnsupportedError else f.

(** [model_transitions]; Python's [DeprecationWarning], raised as an
    exception, is reported as an [OtherError]. *)
Definition model_transitions : M (list Z) :=
  step_based_gs_only (raise (OtherError "DeprecationWarning")).

(** [_steps]. *)
Definition _steps : M (list GenerationNode) :=
  step_based_gs_only (s ← get_gs; mret (_nodes s)).

(** [current_step_index]; a node's [node_name] reads its [_node_name]. *)
Definition current_step_index : M nat :=
  step_based_gs_only
    (cur ← curr_node;
     s ← get_gs;
     let node_names_for_all_steps := node_name <$> _nodes s in
     if bool_decide (node_name cur ∈ node_names_for_all_steps) then
       match list_find (fun nm => nm = node_name cur) node_names_for_all_steps with
       | Some (i, _) => mret i
       | None => raise ValueError
       end
     else raise AssertionError).

(** [current_generator_run_limit].  The second call of [new_trial_limit]
    passes no argument; the default of [raise_generation_errors] is declared
    with [GenerationNode] and is a parameter here. *)
Definition current_generator_run_limit `{Collaborators}
    (raise_generation_errors_default : bool) : M (Z * bool) := fun w =>
  match _maybe_transition_to_next_node false w with
  | (Raise GenerationStrategyCompleted, w') => (Return (0, true), w')
  | (Raise e, w') => (Raise e, w')
  | (OutOfFuel, w') => (OutOfFuel, w')
  | (Return _, w') =>
      (cur ← curr_node;
       s ← get_gs;
       lim ← lift_result (new_trial_limit s cur raise_generation_errors_default);
       mret (lim, false)) w'
  end.

(** [clone_reset] of a node-based strategy (the branch
    [if self.is_node_based]): the constructor is run again on a deep copy of
    the nodes, under the same name. *)
Definition clone_reset_node_based (s : GenerationStrategy) : result GenerationStrategy :=
  init_with_nodes (Some (_name s)) (_nodes s).

(** ** Step sequences

    [_validate_and_set_step_sequence] writes to the step objects of the
    list it is given, and to the criterion objects these hold.  The list is
    the one the caller passed to the constructor, which does not copy it,
    and one object may be held in several places: a step twice in the list,
    a criterion in the [transition_criteria] of two steps or in the
    [transition_criteria] and the [completion_criteria] of one.  So the
    objects live in a heap, and the lists hold references. *)

Definition step_ref : Type := nat.
Definition criterion_ref : Type := nat.

(** A [GenerationStep] with the fields the method reads and writes. *)
Module Step.
Record t : Type := {
  _node_name : string;
  transition_criteria : list criterion_ref;
  num_trials : Z;
  max_parallelism : option Z;
  completion_criteria : list criterion_ref;
  model_name : string;
  index : Z
}.
End Step.

Record StepHeap : Type := {
  step_at : step_ref -> Step.t;
  criterion_at : criterion_ref -> TransitionCriterion
}.

Definition on_steps (f : (step_ref -> Step.t) -> step_ref -> Step.t)
    (h : StepHeap) : StepHeap :=
  {| step_at := f (step_at h); criterion_at := criterion_at h |}.

Definition on_criteria
    (f : (criterion_ref -> TransitionCriterion) -> criterion_ref -> TransitionCriterion)
    (h : StepHeap) : StepHeap :=
  {| step_at := step_at h; criterion_at := f (criterion_at h) |}.

(** [step._node_name = f"GenerationStep_{str(idx)}"; step.index = idx]. *)
Definition name_step (idx : nat) (step : Step.t) : Step.t :=
  {| Step._node_name := "GenerationStep_" +:+ pretty idx;
     Step.transition_criteria := Step.transition_criteria step;
     Step.num_trials := Step.num_trials step;
     Step.max_parallelism := Step.max_parallelism step;
     Step.completion_criteria := Step.completion_criteria step;
     Step.model_name := Step.model_name step;
     Step.index := Z.of_nat idx |}.

(** [transition_criteria._transition_to = f"GenerationStep_{str(idx + 1)}"]
    for a criterion whose class is not [MaxGenerationParallelism]. *)
Definition wire_criterion (idx : nat) (tc : TransitionCriterion) : TransitionCriterion :=
  if negb (String.eqb (criterion_class tc) "MaxGenerationParallelism")
  then {| criterion_class := criterion_class tc;
          transition_to := Some ("GenerationStep_" +:+ pretty (idx + 1)%nat);
          continue_trial_generation := continue_trial_generation tc |}
  else tc.

(** [for transition_criteria in step.transition_criteria: ...], on the
    criterion objects the step refers to. *)
Definition wire_criteria (idx : nat) (cs : list criterion_ref) (h : StepHeap) : StepHeap :=
  fold_left (fun h c => on_criteria (alter (wire_criterion idx) c) h) cs h.

(** The checks at the head of the body of [for idx, step in
    enumerate(steps)]; [n_steps] is [len(self._steps)]. *)
Definition check_step (n_steps idx : nat) (step : Step.t) : result unit :=
  (if bool_decide (Step.num_trials step = -1)
      && bool_decide (length (Step.completion_criteria step) < 1)%nat
   then
     if bool_decide (Z.of_nat idx < Z.of_nat n_steps - 1)
     then Err UserInputError else Ok tt
   else if bool_decide (Step.num_trials step < 1)
           && negb (bool_decide (Step.num_trials step = -1))
   then Err UserInputError
   else Ok tt) ;;
  match Step.max_parallelism step with
  | Some mp => if bool_decide (mp < 1) then Err UserInputError else Ok tt
  | None => Ok tt
  end.

(** One pass through the body of the loop, on the step object [step] refers
    to: the checks, then the writes to the step and to its criteria.  What
    earlier passes wrote stays when a check raises. *)
Definition validate_and_set_step (n_steps idx : nat) (step : step_ref)
    (h : StepHeap) : result unit * StepHeap :=
  match check_step n_steps idx (step_at h step) with
  | Err ex => (Err ex, h)
  | Ok _ =>
      let h := on_steps (alter (name_step idx) step) h in
      let h := if bool_decide (idx < n_steps)%nat
               then wire_criteria idx (Step.transition_criteria (step_at h step)) h
               else h in
      (Ok tt, h)
  end.

Fixpoint validate_and_set_steps (n_steps idx : nat) (steps : list step_ref)
    (h : StepHeap) : result unit * StepHeap :=
  match steps with
  | [] => (Ok tt, h)
  | step :: steps' =>
      match validate_and_set_step n_steps idx step h with
      | (Ok _, h) => validate_and_set_steps n_steps (S idx) steps' h
      | (Err ex, h) => (Err ex, h)
      end
  end.

(** [_validate_and_set_step_sequence], on the list of steps the strategy
    holds.  The decorator refuses a strategy that [is_node_based], which a
    list of steps is exactly when it is empty.  Returns the initial
    [_curr], the reference [steps[0]]. *)
Definition _validate_and_set_step_sequence (steps : list step_ref) (h : StepHeap) :
    result step_ref * StepHeap :=
  match steps with
  | [] => (Err UnsupportedError, h)
  | step0 :: _ =>
      match validate_and_set_steps (length steps) 0 steps h with
      | (Ok _, h) => (Ok step0, h)
      | (Err ex, h) => (Err ex, h)
      end
  end.

(** ** A concrete two-node strategy

    Node [A] hands over to node [B] within the same trial once the strategy
    has produced a run; which nodes lack data, the trial budget and whether
    the nodes report completion are knobs of the scenario. *)

Module Scenario.

Record knobs : Type := {
  needs_data : string -> bool;
  limit : Z;
  completed : bool
}.

Definition tc_A_to_B : TransitionCriterion :=
  {| criterion_class := "MinTrials"; transition_to := Some "B";
     continue_trial_generation := true |}.

Definition node_A : GenerationNode :=
  {| node_name := "A"; is_GenerationStep := false;
     model_specs := [ {| model_key := "Sobol"; is_FactoryFunctionGeneratorSpec := false |} ];
     transition_criteria := [tc_A_to_B];
     _previous_node_name := None; _should_skip := false; _fitted_model := None |}.

Definition node_B : GenerationNode :=
  {| node_name := "B"; is_GenerationStep := false;
     model_specs := [ {| model_key := "BoTorch"; is_FactoryFunctionGeneratorSpec := false |} ];
     transition_criteria := [];
     _previous_node_name := None; _should_skip := false; _fitted_model := None |}.

Definition set_fitted_model (m : option Adapter) (nd : GenerationNode) :=
  {| node_name := node_name nd; is_GenerationStep := is_GenerationStep nd;
     model_specs := model_specs nd; transition_criteria := transition_criteria nd;
     _previous_node_name := _previous_node_name nd; _should_skip := _should_skip nd;
     _fitted_model := m |}.

Definition run_of (nd : GenerationNode) : GeneratorRun :=
  {| arms := [String.append "arm_" (node_name nd)]; gr_model_key := node_name nd |}.

Definition env (k : knobs) : Collaborators :=
  {| should_transition_to_next_node s nd _ :=
       if completed k then Ok (true, None)
       else if String.eqb (node_name nd) "A" && negb (bool_decide (_generator_runs s = []))
       then Ok (true, Some "B")
       else Ok (false, Some (node_name nd));
     is_completed _ _ := completed k;
     new_trial_limit _ _ _ := Ok (limit k);
     GenerationNode_gen _ nd _ _ _ _ _ :=
       if needs_data k (node_name nd) then (nd, Err DataRequiredError)
       else (set_fitted_model (Some (node_name nd)) nd, Ok (Some (run_of nd)));
     extract_pending_observations _ := None;
     extend_pending_observations e pending gr :=
       fold_left (fun d m => <[m := default [] (d !! m) ++ arms gr]> d)
                 (Experiment.metrics e) pending |}.

Definition exp1 : Experiment.t := {| Experiment._name := "exp1"; Experiment.metrics := ["m"] |}.
Definition exp2 : Experiment.t := {| Experiment._name := "exp2"; Experiment.metrics := ["m"] |}.

Definition strategy : GenerationStrategy :=
  {| _nodes := [node_A; node_B]; _curr := 0%nat; _uses_registered_models := true;
     _generator_runs := []; _name := "A+B"; _experiment := None; _model := None |}.

Definition world (st : Store) : World := {| gs := strategy; store := st |}.

Definition no_args : GenArgs :=
  {| data := None; n := Some 1; fixed_features := None; arms_per_node := None |}.

Definition all_data : knobs :=
  {| needs_data := fun _ => false; limit := -1; completed := false |}.
Definition B_needs_data : knobs :=
  {| needs_data := String.eqb "B"; limit := -1; completed := false |}.
Definition no_budget : knobs :=
  {| needs_data := fun _ => false; limit := 0; completed := false |}.
Definition exhausted : knobs :=
  {| needs_data := fun _ => false; limit := -1; completed := true |}.

(** The worlds a call of [_gen_with_multiple_nodes] on [exp1] goes through
    when [B] lacks data: after the setup, after the pass in which [A]
    generates, after the transition to [B], and after [B]'s [gen]. *)
Definition B_setup : World :=
  snd (gen_setup (H := env B_needs_data) exp1 no_args None (world ∅)).
Definition B_pass1 : World :=
  snd (gen_loop_body (H := env B_needs_data) exp1 no_args 0%nat true [] B_setup).
Definition B_transition : World :=
  snd (gen_loop_transition (H := env B_needs_data) B_pass1).
Definition B_gen : World :=
  snd (call_node_gen (H := env B_needs_data) exp1 no_args 0%nat false
         [run_of node_A] B_transition).

End Scenario.

(** ** Variations of the scenario

    The same two nodes with other collaborators: a check that says to move
    without naming a node; a check that, asked to raise, raises
    [DataRequiredError] once the strategy has a run; a check that always
    says to move to one node, [B] lacking data; and nodes that skip. *)

Module Scenario2.

Definition positional : Collaborators :=
  {| should_transition_to_next_node _ _ _ := Ok (true, None);
     is_completed _ _ := false;
     new_trial_limit _ _ _ := Ok (-1);
     GenerationNode_gen :=
       GenerationNode_gen (Collaborators := Scenario.env Scenario.all_data);
     extract_pending_observations _ := None;
     extend_pending_observations :=
       extend_pending_observations (Collaborators := Scenario.env Scenario.all_data) |}.

Definition check_needs_data : Collaborators :=
  {| should_transition_to_next_node s nd raise_data_required_error :=
       if bool_decide (_generator_runs s = []) then Ok (false, Some (node_name nd))
       else if raise_data_required_error then Err DataRequiredError
       else Ok (true, Some "B");
     is_completed _ _ := false;
     new_trial_limit _ _ _ := Ok (-1);
     GenerationNode_gen :=
       GenerationNode_gen (Collaborators := Scenario.env Scenario.all_data);
     extract_pending_observations _ := None;
     extend_pending_observations :=
       extend_pending_observations (Collaborators := Scenario.env Scenario.all_data) |}.

(** A check that always says to move to the node called [target]. *)
Definition towards (target : string) : Collaborators :=
  {| should_transition_to_next_node _ _ _ := Ok (true, Some target);
     is_completed _ _ := false;
     new_trial_limit _ _ _ := Ok (-1);
     GenerationNode_gen :=
       GenerationNode_gen (Collaborators := Scenario.env Scenario.B_needs_data);
     extract_pending_observations _ := None;
     extend_pending_observations :=
       extend_pending_observations (Collaborators := Scenario.env Scenario.all_data) |}.

Definition skipping : Collaborators :=
  {| should_transition_to_next_node _ nd _ := Ok (false, Some (node_name nd));
     is_completed _ _ := false;
     new_trial_limit _ _ _ := Ok (-1);
     GenerationNode_gen _ nd _ _ _ _ _ := (nd, Ok None);
     extract_pending_observations _ := None;
     extend_pending_observations _ pending _ := pending |}.

(** The strategy at its second node. *)
Definition at_B (st : Store) : World :=
  on_gs (with_curr 1%nat) (Scenario.world st).

(** The worlds of a call under [check_needs_data]: after the setup, and
    after the pass in which [A] generates. *)
Definition C_setup : World :=
  snd (gen_setup (H := check_needs_data) Scenario.exp1 Scenario.no_args None
         (Scenario.world ∅)).
Definition C_pass1 : World :=
  snd (gen_loop_body (H := check_needs_data) Scenario.exp1 Scenario.no_args 0%nat true
         [] C_setup).

(** The worlds of a call under [towards "B"]: after the setup, after the
    transition to [B], and after [B]'s [gen]. *)
Definition T_setup : World :=
  snd (gen_setup (H := towards "B") Scenario.exp1 Scenario.no_args None
         (Scenario.world ∅)).
Definition T_transition : World :=
  snd (gen_loop_transition (H := towards "B") T_setup).
Definition T_gen : World :=
  snd (call_node_gen (H := towards "B") Scenario.exp1 Scenario.no_args 0%nat false
         [] T_transition).

(** The world of a call under [skipping] after the setup. *)
Definition S_setup : World :=
  snd (gen_setup (H := skipping) Scenario.exp1 Scenario.no_args None (Scenario.world ∅)).

End Scenario2.

(** ** Vocabulary of the properties *)

(** [preserves R m]: whatever [m] does, and however it ends, the worlds
    before and after are related by [R]. *)
Definition preserves {A : Type} (R : World -> World -> Prop) (m : M A) : Prop :=
  forall w r w', m w = (r, w') -> R w w'.

(** Relations between the world before and after a call. *)
Definition same_store (w w' : World) : Prop := store w' = store w.
Definition same_history (w w' : World) : Prop :=
  _generator_runs (gs w') = _generator_runs (gs w).
(** The store changes at [l] only. *)
Definition same_store_but (l : loc) (w w' : World) : Prop :=
  forall l', l' <> l -> store w' !! l' = store w !! l'.

(** The runs a pass of the loop body hands on. *)
Definition ctl_runs (c : loop_ctl) : list GeneratorRun :=
  match c with
  | LoopAgain grs => grs
  | LoopExit grs => grs
  end.

(** [passes e args l first k grs w grs' w']: starting the loop body in world
    [w] with [grs_this_gen = grs], [k] passes in a row end back at the loop
    test, leaving [grs_this_gen = grs'] and the world [w']. *)
Inductive passes `{Collaborators} (e : Experiment.t) (args : GenArgs) (l : loc)
    (first : bool) : nat -> list GeneratorRun -> World -> list GeneratorRun -> World -> Prop :=
| passes_O (grs : list GeneratorRun) (w : World) :
    passes e args l first 0 grs w grs w
| passes_S (k : nat) (grs grs1 grs2 : list GeneratorRun) (w w1 w2 : World) :
    gen_loop_body e args l first grs w = (Return (LoopAgain grs1), w1) ->
    passes e args l first k grs1 w1 grs2 w2 ->
    passes e args l first (S k) grs w grs2 w2.

(** The number of passes as the specification words it: [num_trials]
    clamped to the current node's remaining trial budget when that budget is
    finite ([-1] meaning unlimited). *)
Definition clamped_to_budget (num_trials new_trials_limit : Z) : Z :=
  if Z.eqb new_trials_limit (-1) then num_trials
  else Z.min num_trials new_trials_limit.

(** A criterion of max-parallelism type, as the validation recognises it. *)
Definition max_parallelism_type (tc : TransitionCriterion) : bool :=
  str_contains "MaxGenerationParallelism" (criterion_class tc).

(** The three ways a node graph is malformed: a criterion names a node that
    is not in the strategy; two criteria on one node-to-node edge disagree
    on [continue_trial_generation]; a criterion that is not of
    max-parallelism type has no target. *)
Inductive malformed_graph (nodes : list GenerationNode) : Prop :=
| unknown_target (nd : GenerationNode) (tc : TransitionCriterion) (t : string) :
    nd ∈ nodes -> tc ∈ transition_criteria nd ->
    transition_to tc = Some t -> t ∉ (node_name <$> nodes) ->
    malformed_graph nodes
| edge_disagrees (nd : GenerationNode) (tc1 tc2 : TransitionCriterion) (t : string) :
    nd ∈ nodes -> tc1 ∈ transition_criteria nd -> tc2 ∈ transition_criteria nd ->
    transition_to tc1 = Some t -> transition_to tc2 = Some t ->
    continue_trial_generation tc1 <> continue_trial_generation tc2 ->
    malformed_graph nodes
| missing_target (nd : GenerationNode) (tc : TransitionCriterion) :
    nd ∈ nodes -> tc ∈ transition_criteria nd ->
    transition_to tc = None -> max_parallelism_type tc = false ->
    malformed_graph nodes.

(** A list of nodes the constructor accepts. *)
Definition well_formed_graph (nodes : list GenerationNode) : Prop :=
  nodes <> [] /\
  (forall nd, nd ∈ nodes -> is_GenerationStep nd = false) /\
  NoDup (node_name <$> nodes) /\
  ~ malformed_graph nodes.

(** The strategy the constructor builds from a name and a list of nodes. *)
Definition fresh_strategy (name : option string) (nodes : list GenerationNode) :
    GenerationStrategy :=
  {| _nodes := nodes; _curr := 0%nat;
     _uses_registered_models :=
       negb (existsb (fun nd => existsb is_FactoryFunctionGeneratorSpec (model_specs nd))
                     nodes);
     _generator_runs := [];
     _name := match name with
              | Some nm => if String.eqb nm "" then String.concat "+" (node_name <$> nodes)
                           else nm
              | None => String.concat "+" (node_name <$> nodes)
              end;
     _experiment := None; _model := None |}.

(** The position of the last node called [nm] among [ns], counted from
    [i]; [o] when there is none. *)
Fixpoint last_named (nm : string) (i : nat) (ns : list GenerationNode)
    (o : option nat) : option nat :=
  match ns with
  | [] => o
  | nd :: ns' =>
      last_named nm (S i) ns' (if String.eqb (node_name nd) nm then Some i else o)
  end.

(** The strategy with its pointer moved to position [o] (if any), its
    [_model] cleared. *)
Definition moved_to (o : option nat) (s : GenerationStrategy) : GenerationStrategy :=
  match o with
  | Some j => with_model None (with_curr j s)
  | None => s
  end.

(** The elementary updates of the strategy object a generation call for
    the experiment [e] is made of. *)
Inductive gs_update (e : Experiment.t) :
    (GenerationStrategy -> GenerationStrategy) -> Prop :=
| upd_experiment : gs_update e (with_experiment (Some e))
| upd_node (i : nat) (f : GenerationNode -> GenerationNode) :
    gs_update e (update_node i f)
| upd_move (nm : string) :
    gs_update e (fun s => move_to_named nm 0 (_nodes s) s)
| upd_model (m : option Adapter) : gs_update e (with_model m)
| upd_append (gr : GeneratorRun) :
    gs_update e (fun s => with_generator_runs (_generator_runs s ++ [gr]) s).

(** One elementary step of a generation call: an update of the strategy or
    a write to the store. *)
Inductive gen_step (e : Experiment.t) : World -> World -> Prop :=
| gen_step_gs (f : GenerationStrategy -> GenerationStrategy) (w : World) :
    gs_update e f -> gen_step e w (on_gs f w)
| gen_step_store (f : Store -> Store) (w : World) :
    gen_step e w (on_store f w).

(** The pointer [_curr] refers to a node of the strategy. *)
Definition curr_in_range (s : GenerationStrategy) : Prop :=
  (_curr s < length (_nodes s))%nat.

(** What [_validate_and_set_step_sequence] demands of the step at
    position [idx] among [n_steps] steps. *)
Definition step_ok (n_steps idx : nat) (step : Step.t) : Prop :=
  (Step.num_trials step = -1 -> Step.completion_criteria step = [] ->
   idx = (n_steps - 1)%nat) /\
  (1 <= Step.num_trials step \/ Step.num_trials step = -1) /\
  (forall mp, Step.max_parallelism step = Some mp -> 1 <= mp).

(** The history of runs after is the history before with runs appended. *)
Definition runs_extended (w w' : World) : Prop :=
  exists new, _generator_runs (gs w') = _generator_runs (gs w) ++ new.

(** The strategy keeps its number of nodes and a pointer within them. *)
Definition nodes_kept (w w' : World) : Prop :=
  length (_nodes (gs w')) = length (_nodes (gs w)) /\
  (curr_in_range (gs w) -> curr_in_range (gs w')).

(** The strategy keeps its name, and the experiment [e] once it is bound. *)
Definition binding_kept (e : Experiment.t) (w w' : World) : Prop :=
  _name (gs w') = _name (gs w) /\
  (_experiment (gs w) = Some e -> _experiment (gs w') = Some e).

(** The fields of the step and criterion objects that
    [_validate_and_set_step_sequence] does not write are the same in both
    heaps. *)
Definition same_shape (h h' : StepHeap) : Prop :=
  (forall r,
     Step.transition_criteria (step_at h' r) = Step.transition_criteria (step_at h r) /\
     Step.num_trials (step_at h' r) = Step.num_trials (step_at h r) /\
     Step.max_parallelism (step_at h' r) = Step.max_parallelism (step_at h r) /\
     Step.completion_criteria (step_at h' r) = Step.completion_criteria (step_at h r) /\
     Step.model_name (step_at h' r) = Step.model_name (step_at h r)) /\
  (forall c,
     criterion_class (criterion_at h' c) = criterion_class (criterion_at h c) /\
     continue_trial_generation (criterion_at h' c)
     = continue_trial_generation (criterion_at h c)).

(** Position [i] is the last one at which the list [steps] holds the step
    object [r]. *)
Definition last_position (steps : list step_ref) (i : nat) (r : step_ref) : Prop :=
  steps !! i = Some r /\ forall j, (i < j)%nat -> steps !! j <> Some r.

(** Position [i] is the last one at which the list [steps] holds a step
    that has the criterion object [c] among its [transition_criteria]. *)
Definition last_holder (h : StepHeap) (steps : list step_ref) (i : nat)
    (c : criterion_ref) : Prop :=
  (exists r, steps !! i = Some r /\ c ∈ Step.transition_criteria (step_at h r)) /\
  forall j r, (i < j)%nat -> steps !! j = Some r ->
              c ∉ Step.transition_criteria (step_at h r).

(** A sequence of steps and criteria: five trials of [Sobol], at most three
    at a time, then [BoTorch] until its completion criterion is met; the
    same sequence with the [Sobol] step in both places, and with a step
    without limit in the middle; and two step nodes as a strategy at its
    second step. *)
Module StepScenario.

Definition min_trials : TransitionCriterion :=
  {| criterion_class := "MinTrials"; transition_to := None;
     continue_trial_generation := false |}.

Definition max_parallelism : TransitionCriterion :=
  {| criterion_class := "MaxGenerationParallelism"; transition_to := None;
     continue_trial_generation := false |}.

Definition completion : TransitionCriterion :=
  {| criterion_class := "MinimumPreferenceOccurances"; transition_to := None;
     continue_trial_generation := false |}.

Definition sobol : Step.t :=
  {| Step._node_name := ""; Step.transition_criteria := [0; 1]%nat;
     Step.num_trials := 5; Step.max_parallelism := Some 3;
     Step.completion_criteria := []; Step.model_name := "Sobol"; Step.index := -1 |}.

Definition botorch : Step.t :=
  {| Step._node_name := ""; Step.transition_criteria := [2]%nat;
     Step.num_trials := -1; Step.max_parallelism := None;
     Step.completion_criteria := [2]%nat; Step.model_name := "BoTorch";
     Step.index := -1 |}.

Definition unlimited : Step.t :=
  {| Step._node_name := ""; Step.transition_criteria := [];
     Step.num_trials := -1; Step.max_parallelism := None;
     Step.completion_criteria := []; Step.model_name := "Thompson";
     Step.index := -1 |}.

(** [Sobol] at reference [0], [BoTorch] at [1], the step without limit at
    the others; the criteria of [Sobol] at [0] and [1], that of [BoTorch]
    at the others. *)
Definition heap : StepHeap :=
  {| step_at := fun r => match r with
                         | O => sobol
                         | 1%nat => botorch
                         | _ => unlimited
                         end;
     criterion_at := fun c => match c with
                              | O => min_trials
                              | 1%nat => max_parallelism
                              | _ => completion
                              end |}.

Definition validated : StepHeap :=
  snd (_validate_and_set_step_sequence [0; 1]%nat heap).

Definition validated_twice : StepHeap :=
  snd (_validate_and_set_step_sequence [0; 0]%nat heap).

Definition step_node (nm : string) : GenerationNode :=
  {| node_name := nm; is_GenerationStep := true; model_specs := [];
     transition_criteria := [];
     _previous_node_name := None; _should_skip := false; _fitted_model := None |}.

Definition at_second_step : World :=
  {| gs := {| _nodes := [step_node "GenerationStep_0"; step_node "GenerationStep_1"];
              _curr := 1%nat; _uses_registered_models := true;
              _generator_runs := []; _name := "Sobol+BoTorch";
              _experiment := None; _model := None |};
     store := ∅ |}.

End StepScenario.

(** * Properties *)

(** ** Reasoning about monadic code *)

Lemma bind_Return {A B : Type} (m : M A) (f : A -> M B) (w w1 : World) (a : A) :
  m w = (Return a, w1) -> (m ≫= f) w = f a w1.
Proof. intros Hm. unfold mbind, M_bind. now rewrite Hm. Qed.

Lemma bind_Raise {A B : Type} (m : M A) (f : A -> M B) (w w1 : World) (e : exn) :
  m w = (Raise e, w1) -> (m ≫= f) w = (Raise e, w1).
Proof. intros Hm. unfold mbind, M_bind. now rewrite Hm. Qed.

(** A bind that returns went through a returning first half. *)
Lemma bind_Return_inv {A B : Type} (m : M A) (f : A -> M B) (w w2 : World) (b : B) :
  (m ≫= f) w = (Return b, w2) ->
  exists a w1, m w = (Return a, w1) /\ f a w1 = (Return b, w2).
Proof.
  unfold mbind, M_bind. destruct (m w) as [[a|e|] w1]; intros Hf; try discriminate.
  now exists a, w1.
Qed.

Section Preserves.
Context (R : World -> World -> Prop) `{!PreOrder R}.

Lemma preserves_bind {A B : Type} (m : M A) (f : A -> M B) :
  preserves R m -> (forall a, preserves R (f a)) -> preserves R (m ≫= f).
Proof.
  intros Hm Hf w r w'. unfold mbind, M_bind.
  destruct (m w) as [[a|e|] w1] eqn:E; intros Hr.
  - transitivity w1; [eapply Hm | eapply Hf]; eauto.
  - injection Hr as <- <-. eapply Hm; eauto.
  - injection Hr as <- <-. eapply Hm; eauto.
Qed.

Lemma preserves_ret {A : Type} (a : A) : preserves R (mret a).
Proof. intros w r w' [= <- <-]. reflexivity. Qed.

Lemma preserves_raise {A : Type} (e : exn) : preserves R (@raise A e).
Proof. intros w r w' [= <- <-]. reflexivity. Qed.

Lemma preserves_out_of_fuel {A : Type} : preserves R (@out_of_fuel A).
Proof. intros w r w' [= <- <-]. reflexivity. Qed.

Lemma preserves_lift_result {A : Type} (x : result A) : preserves R (lift_result x).
Proof. intros w r w'. destruct x; intros [= <- <-]; reflexivity. Qed.

Lemma preserves_get_gs : preserves R get_gs.
Proof. intros w r w' [= <- <-]. reflexivity. Qed.

Lemma preserves_get_store : preserves R get_store.
Proof. intros w r w' [= <- <-]. reflexivity. Qed.

Lemma preserves_curr_node : preserves R curr_node.
Proof.
  apply preserves_bind; [apply preserves_get_gs|].
  intros s. destruct (_nodes s !! _curr s); [apply preserves_ret | apply preserves_raise].
Qed.

Lemma preserves_modify_gs (f : GenerationStrategy -> GenerationStrategy) :
  (forall w, R w (on_gs f w)) -> preserves R (modify_gs f).
Proof. intros Hf w r w' [= <- <-]. apply Hf. Qed.

Lemma preserves_modify_store (f : Store -> Store) :
  (forall w, R w (on_store f w)) -> preserves R (modify_store f).
Proof. intros Hf w r w' [= <- <-]. apply Hf. Qed.

End Preserves.

#[global] Instance same_store_preorder : PreOrder same_store.
Proof. split; [now intros w | intros a b c; unfold same_store; congruence]. Qed.

#[global] Instance same_history_preorder : PreOrder same_history.
Proof. split; [now intros w | intros a b c; unfold same_history; congruence]. Qed.

#[global] Instance same_store_but_preorder (l : loc) : PreOrder (same_store_but l).
Proof.
  split; [now intros w l' | intros a b c Hab Hbc l' Hl].
  now rewrite Hbc, Hab.
Qed.

Lemma same_store_same_store_but (l : loc) (w w' : World) :
  same_store w w' -> same_store_but l w w'.
Proof. intros Hs l' _. now rewrite Hs. Qed.


(** ** Binding the experiment *)

Lemma experiment_setter_unbound (e : Experiment.t) (w : World) :
  _experiment (gs w) = None ->
  experiment_setter e w = (Return tt, on_gs (with_experiment (Some e)) w).
Proof.
  intros Hn. unfold experiment_setter, mbind, M_bind, get_gs. cbn. now rewrite Hn.
Qed.

Lemma experiment_setter_bound (e cur : Experiment.t) (w : World) :
  _experiment (gs w) = Some cur ->
  experiment_setter e w =
    if String.eqb (Experiment._name e) (Experiment._name cur)
    then (Return tt, on_gs (with_experiment (Some e)) w)
    else (Raise ValueError, w).
Proof.
  intros Hb. unfold experiment_setter, experiment, mbind, M_bind, mret, M_ret, get_gs.
  cbn. rewrite !Hb. destruct (String.eqb _ _); reflexivity.
Qed.

(** Once [e] is bound, binding [e] again changes nothing. *)
Lemma experiment_setter_again (e : Experiment.t) (w : World) :
  experiment_setter e (on_gs (with_experiment (Some e)) w)
  = (Return tt, on_gs (with_experiment (Some e)) w).
Proof.
  rewrite (experiment_setter_bound e e) by reflexivity.
  now rewrite String.eqb_refl.
Qed.

Lemma preserves_experiment_setter (R : World -> World -> Prop) `{!PreOrder R}
    (e : Experiment.t) :
  (forall w, R w (on_gs (with_experiment (Some e)) w)) ->
  preserves R (experiment_setter e).
Proof.
  intros HR. unfold experiment_setter.
  apply preserves_bind; [done | apply preserves_get_gs; done |].
  intros s. destruct (_experiment s).
  - apply preserves_bind; [done | |].
    + unfold experiment. apply preserves_bind; [done | apply preserves_get_gs; done |].
      intros s'. destruct (_experiment s');
        [apply preserves_ret | apply preserves_raise]; done.
    + intros cur. destruct (String.eqb _ _);
        [apply preserves_modify_gs | apply preserves_raise]; done.
  - apply preserves_modify_gs; done.
Qed.

(** C7 (as amended): binding an experiment succeeds, and is idempotent, when
    no experiment is bound yet or the bound one has the same name; binding an
    experiment of a different name fails with [ValueError] and leaves the
    strategy as it was. *)
Theorem experiment_setter_rebinding (e : Experiment.t) (w : World) :
  ((_experiment (gs w) = None \/
    exists cur, _experiment (gs w) = Some cur /\
                Experiment._name e = Experiment._name cur) ->
   experiment_setter e w = (Return tt, on_gs (with_experiment (Some e)) w) /\
   (experiment_setter e ;; experiment_setter e) w = experiment_setter e w) /\
  (forall cur, _experiment (gs w) = Some cur ->
               Experiment._name e <> Experiment._name cur ->
               experiment_setter e w = (Raise ValueError, w)).
Proof.
  split.
  - intros Hb.
    assert (Hs : experiment_setter e w = (Return tt, on_gs (with_experiment (Some e)) w)).
    { destruct Hb as [Hn | (cur & Hc & Hname)].
      - now apply experiment_setter_unbound.
      - rewrite (experiment_setter_bound e cur) by assumption.
        now rewrite Hname, String.eqb_refl. }
    split; [exact Hs|].
    rewrite (bind_Return _ _ _ _ _ Hs), Hs. apply experiment_setter_again.
  - intros cur Hc Hname. rewrite (experiment_setter_bound e cur) by assumption.
    apply String.eqb_neq in Hname. now rewrite Hname.
Qed.

(** The strategy of the scenario once bound to [exp1]. *)
Lemma experiment_setter_rebinding_witness :
  experiment_setter Scenario.exp2
    (on_gs (with_experiment (Some Scenario.exp1)) (Scenario.world ∅))
  = (Raise ValueError, on_gs (with_experiment (Some Scenario.exp1)) (Scenario.world ∅)).
Proof.
  apply (proj2 (experiment_setter_rebinding Scenario.exp2
                  (on_gs (with_experiment (Some Scenario.exp1)) (Scenario.world ∅)))
               Scenario.exp1).
  - reflexivity.
  - discriminate.
Defined.

(** C7 (as stated) fails: re-binding to an experiment of another name raises
    [ValueError], which is not [UnsupportedError]. *)
Lemma experiment_setter_not_UnsupportedError :
  let w := on_gs (with_experiment (Some Scenario.exp1)) (Scenario.world ∅) in
  _experiment (gs w) = Some Scenario.exp1 /\
  Experiment._name Scenario.exp2 <> Experiment._name Scenario.exp1 /\
  fst (experiment_setter Scenario.exp2 w) = Raise ValueError /\
  fst (experiment_setter Scenario.exp2 w) <> Raise UnsupportedError.
Proof. cbn. repeat split; discriminate. Qed.

(** ** Assigning to [name] *)

(** Up to the [@name.setter] definition the class holds a property with a
    setter under [name]. *)
Lemma name_has_setter_before_redefinition :
  exists fget,
    fold_left exec_class_stmt (take 4 GenerationStrategy_body) ∅ !! "name"
    = Some (Property fget (Some name_setter)).
Proof. eexists. vm_compute. reflexivity. Qed.

(** The last definition of [name] is the one the class ends up with. *)
Lemma name_has_no_setter :
  exists fget, GenerationStrategy_class !! "name" = Some (Property fget None).
Proof. eexists. vm_compute. reflexivity. Qed.

(** C10: on every strategy and for every string, [obj.name = s] raises
    [AttributeError] (and changes nothing): the property bound to [name] at
    the end of the class body is the re-defined one, which has no setter. *)
Theorem name_assignment_raises (w : World) (nm : string) :
  setattr "name" (VStr nm) w = (Raise AttributeError, w).
Proof.
  unfold setattr. destruct name_has_no_setter as [fget ->]. reflexivity.
Qed.

(** ** What the helpers of the loop leave alone *)

Lemma move_to_named_generator_runs (next_node : string) (ns : list GenerationNode) :
  forall (i : nat) (s : GenerationStrategy),
    _generator_runs (move_to_named next_node i ns s) = _generator_runs s.
Proof.
  induction ns as [|nd ns IH]; intros i s; cbn; [reflexivity|].
  rewrite IH. now destruct (String.eqb _ _).
Qed.

Section Frames.
Context `{Collaborators}.
Context (R : World -> World -> Prop) `{!PreOrder R}.
(** [R] does not look at the strategy beyond its history of runs. *)
Hypothesis R_on_gs :
  forall (f : GenerationStrategy -> GenerationStrategy) (w : World),
    (forall s, _generator_runs (f s) = _generator_runs s) -> R w (on_gs f w).

Lemma preserves_maybe_transition (raise_data_required_error : bool) :
  preserves R (_maybe_transition_to_next_node raise_data_required_error).
Proof.
  unfold _maybe_transition_to_next_node.
  apply preserves_bind; [done | apply preserves_curr_node; done | intros cur].
  apply preserves_bind; [done | apply preserves_get_gs; done | intros s].
  apply preserves_bind; [done | apply preserves_lift_result; done | intros [move next]].
  apply preserves_bind; [done | | intros _; apply preserves_ret; done].
  destruct move; [|apply preserves_ret; done].
  destruct (optimization_complete s); [apply preserves_raise; done|].
  apply preserves_bind; [done | |].
  - destruct next; [apply preserves_ret; done|].
    destruct (index_of_curr s cur); [|apply preserves_raise; done].
    destruct (_nodes s !! _); [apply preserves_ret | apply preserves_raise]; done.
  - intros nm. apply preserves_modify_gs. intros w. apply R_on_gs.
    intros s'. apply move_to_named_generator_runs.
Qed.

Lemma preserves_gen_loop_transition : preserves R gen_loop_transition.
Proof.
  unfold gen_loop_transition.
  apply preserves_bind; [done | apply preserves_curr_node; done | intros cur].
  apply preserves_bind; [done | apply preserves_get_gs; done | intros s].
  apply preserves_bind; [done | apply preserves_lift_result; done | intros [st nm]].
  apply preserves_bind; [done | |].
  { destruct (nm ≫= _); [apply preserves_ret | apply preserves_raise]; done. }
  intros i. apply preserves_bind; [done | | intros _; apply preserves_maybe_transition].
  destruct st; [|apply preserves_ret; done].
  apply preserves_modify_gs. intros w. now apply R_on_gs.
Qed.

Lemma preserves_call_node_gen (e : Experiment.t) (args : GenArgs) (l : loc)
    (skip_fit : bool) (grs : list GeneratorRun) :
  preserves R (call_node_gen e args l skip_fit grs).
Proof.
  unfold call_node_gen.
  apply preserves_bind; [done | apply preserves_curr_node; done | intros cur].
  apply preserves_bind; [done | apply preserves_get_gs; done | intros s].
  apply preserves_bind; [done | apply preserves_get_store; done | intros st].
  destruct (GenerationNode_gen _ _ _ _ _ _ _) as [cur' r].
  apply preserves_bind; [done | | intros _; apply preserves_ret; done].
  apply preserves_modify_gs. intros w. now apply R_on_gs.
Qed.

Lemma preserves_should_continue : preserves R _should_continue_gen_for_trial.
Proof.
  unfold _should_continue_gen_for_trial.
  apply preserves_bind; [done | apply preserves_curr_node; done | intros cur].
  apply preserves_bind; [done | apply preserves_get_gs; done | intros s].
  apply preserves_bind; [done | apply preserves_lift_result; done | intros [st nm]].
  destruct (negb st); [apply preserves_ret; done|].
  destruct nm; [apply preserves_ret | apply preserves_raise]; done.
Qed.

Lemma preserves_validate_arms_per_node (apn : option (gmap string Z)) :
  preserves R (_validate_arms_per_node apn).
Proof.
  unfold _validate_arms_per_node.
  apply preserves_bind; [done | apply preserves_get_gs; done | intros s].
  destruct apn; [|apply preserves_ret; done].
  destruct (bool_decide _); [apply preserves_ret | apply preserves_raise]; done.
Qed.

End Frames.

Lemma same_store_on_gs (f : GenerationStrategy -> GenerationStrategy) (w : World) :
  same_store w (on_gs f w).
Proof. reflexivity. Qed.

Lemma same_history_on_gs (f : GenerationStrategy -> GenerationStrategy) (w : World) :
  (forall s, _generator_runs (f s) = _generator_runs s) -> same_history w (on_gs f w).
Proof. intros Hf. unfold same_history. cbn. apply Hf. Qed.

Lemma same_store_but_on_gs (l : loc) (f : GenerationStrategy -> GenerationStrategy)
    (w : World) :
  same_store_but l w (on_gs f w).
Proof. now intros l' _. Qed.

(** ** One pass through the loop body *)

Ltac bind_inv H :=
  let a := fresh "a" in
  let w := fresh "w" in
  let H1 := fresh "H" in
  apply bind_Return_inv in H as (a & w & H1 & H).

Tactic Notation "bind_split" hyp(H) "as" ident(a) ident(w) ident(H1) :=
  apply bind_Return_inv in H as (a & w & H1 & H).

Section LoopBody.
Context `{Collaborators}.
Context (e : Experiment.t) (args : GenArgs) (l : loc) (first : bool).

Lemma preserves_gen_loop_record (R : World -> World -> Prop) `{!PreOrder R}
    (grs : list GeneratorRun) (gr : GeneratorRun) :
  (forall f w, (forall s, _generator_runs (f s) = _generator_runs s) -> R w (on_gs f w)) ->
  (forall w, R w (on_gs (fun s => with_generator_runs (_generator_runs s ++ [gr]) s) w)) ->
  (forall w d, R w (on_store <[l := d]> w)) ->
  preserves R (gen_loop_record e l grs gr).
Proof.
  intros Hgs Happ Hst. unfold gen_loop_record.
  apply preserves_bind; [done | apply preserves_modify_gs; done | intros _].
  apply preserves_bind; [done | | intros _].
  { apply preserves_modify_store. intros w. apply Hst. }
  apply preserves_bind; [done | apply preserves_should_continue; done | intros b].
  apply preserves_ret; done.
Qed.

Lemma preserves_gen_loop_body (R : World -> World -> Prop) `{!PreOrder R}
    (grs : list GeneratorRun) :
  (forall f w, (forall s, _generator_runs (f s) = _generator_runs s) -> R w (on_gs f w)) ->
  (forall gr w, R w (on_gs (fun s => with_generator_runs (_generator_runs s ++ [gr]) s) w)) ->
  (forall w d, R w (on_store <[l := d]> w)) ->
  preserves R (gen_loop_body e args l first grs).
Proof.
  intros Hgs Happ Hst. unfold gen_loop_body.
  apply preserves_bind; [done | apply preserves_gen_loop_transition; done | intros t].
  apply preserves_bind; [done | apply preserves_call_node_gen; done | intros r].
  destruct r as [[gr|]|ex].
  - apply preserves_bind; [done | apply preserves_curr_node; done | intros cur].
    apply preserves_bind; [done | | intros _; apply preserves_gen_loop_record; done].
    apply preserves_modify_gs. intros w. now apply Hgs.
  - apply preserves_bind; [done | apply preserves_curr_node; done | intros cur].
    apply preserves_bind; [done | | intros _; apply preserves_ret; done].
    apply preserves_modify_gs. intros w. now apply Hgs.
  - destruct ex; try (apply preserves_raise; done).
    destruct (bool_decide _); [apply preserves_raise | apply preserves_ret]; done.
Qed.

(** The loop body writes to the store at [l] only. *)
Lemma gen_loop_body_store (grs : list GeneratorRun) :
  preserves (same_store_but l) (gen_loop_body e args l first grs).
Proof.
  apply preserves_gen_loop_body; [apply _ | | |].
  - intros f w _. apply same_store_but_on_gs.
  - intros gr w. apply same_store_but_on_gs.
  - intros w d l' Hl. cbn. now rewrite lookup_insert_ne.
Qed.

(** A pass that returns has appended at most one run, to [grs_this_gen], to
    the history and (through [extend_pending_observations]) to the pending
    observations at [l]; and it leaves the loop only with a run in hand. *)
Lemma gen_loop_body_Return (grs : list GeneratorRun) (w w' : World) (c : loop_ctl) :
  gen_loop_body e args l first grs w = (Return c, w') ->
  exists new,
    ctl_runs c = grs ++ new /\
    _generator_runs (gs w') = _generator_runs (gs w) ++ new /\
    deref (store w') l
      = fold_left (extend_pending_observations e) new (deref (store w) l) /\
    (forall g, c = LoopExit g -> g <> []).
Proof.
  intros Hb. unfold gen_loop_body in Hb.
  bind_inv Hb. rename a into t, w0 into w1, H0 into Ht.
  bind_inv Hb. rename a into r, w0 into w2, H0 into Hg.
  assert (Hh1 := preserves_gen_loop_transition same_history same_history_on_gs _ _ _ Ht).
  assert (Hs1 := preserves_gen_loop_transition same_store
                   (fun f w _ => same_store_on_gs f w) _ _ _ Ht).
  assert (Hh2 := preserves_call_node_gen same_history same_history_on_gs _ _ _ _ _ _ _ _ Hg).
  assert (Hs2 := preserves_call_node_gen same_store
                   (fun f w _ => same_store_on_gs f w) _ _ _ _ _ _ _ _ Hg).
  unfold same_history, same_store in *.
  destruct r as [[gr|]|ex].
  - bind_inv Hb. rename a into cur, w0 into w3, H0 into Hc.
    assert (w3 = w2) as ->.
    { unfold curr_node, mbind, M_bind, get_gs in Hc.
      destruct (_nodes (gs w2) !! _curr (gs w2)); now inversion Hc. }
    bind_inv Hb. injection H0 as _ <-.
    unfold gen_loop_record in Hb.
    bind_inv Hb. injection H0 as _ <-.
    bind_inv Hb. injection H0 as _ <-.
    bind_inv Hb. rename a2 into b, w0 into w7, H0 into Hsc.
    assert (Hh7 := preserves_should_continue same_history _ _ _ Hsc).
    assert (Hs7 := preserves_should_continue same_store _ _ _ Hsc).
    unfold same_history, same_store in *. cbn in Hh7, Hs7.
    injection Hb as <- <-.
    exists [gr]. repeat split.
    + now destruct b.
    + rewrite Hh7. congruence.
    + unfold deref at 1. rewrite Hs7, lookup_insert_eq. cbn.
      unfold deref. now rewrite Hs2, Hs1.
    + intros g Hg'. destruct b; [discriminate|].
      injection Hg' as <-. now destruct grs.
  - bind_inv Hb. rename a into cur, w0 into w3, H0 into Hc.
    assert (w3 = w2) as ->.
    { unfold curr_node, mbind, M_bind, get_gs in Hc.
      destruct (_nodes (gs w2) !! _curr (gs w2)); now inversion Hc. }
    bind_inv Hb. injection H0 as _ <-. injection Hb as <- <-.
    exists []. rewrite !app_nil_r. cbn. repeat split.
    + congruence.
    + unfold deref. now rewrite Hs2, Hs1.
    + discriminate.
  - destruct ex; try discriminate.
    destruct (bool_decide (length grs = 0%nat)) eqn:Hlen; [discriminate|].
    injection Hb as <- <-.
    exists []. rewrite !app_nil_r. cbn. repeat split.
    + congruence.
    + unfold deref. now rewrite Hs2, Hs1.
    + intros g [= <-]. apply bool_decide_eq_false in Hlen.
      intros ->. now apply Hlen.
Qed.

End LoopBody.

(** ** The loop *)

Section Loop.
Context `{Collaborators}.
Context (e : Experiment.t) (args : GenArgs) (l : loc) (first : bool).

(** The loop writes to the store at [l] only, however it ends. *)
Lemma gen_loop_store (fuel : nat) :
  forall grs, preserves (same_store_but l) (gen_loop fuel e args l first grs).
Proof.
  induction fuel as [|fuel IH]; intros grs; cbn.
  - apply preserves_out_of_fuel; apply _.
  - apply preserves_bind; [apply _ | apply gen_loop_body_store | intros c].
    destruct c; [apply IH | apply preserves_ret; apply _].
Qed.

(** A loop that returns has produced at least one run; the runs it returns
    beyond the ones it started with are the ones it appended to the history
    and to the pending observations at [l]. *)
Lemma gen_loop_Return (fuel : nat) :
  forall (grs grs' : list GeneratorRun) (w w' : World),
    gen_loop fuel e args l first grs w = (Return grs', w') ->
    grs' <> [] /\
    exists new,
      grs' = grs ++ new /\
      _generator_runs (gs w') = _generator_runs (gs w) ++ new /\
      deref (store w') l
        = fold_left (extend_pending_observations e) new (deref (store w) l).
Proof.
  induction fuel as [|fuel IH]; intros grs grs' w w' Hl; cbn in Hl; [discriminate|].
  bind_inv Hl. rename a into c, w0 into w1, H0 into Hb.
  apply gen_loop_body_Return in Hb as (new & Hc & Hh & Hs & Hexit).
  destruct c as [g|g]; cbn in Hc; subst g.
  - apply IH in Hl as (Hne & new' & -> & Hh' & Hs').
    split; [exact Hne|]. exists (new ++ new'). repeat split.
    + now rewrite app_assoc.
    + now rewrite Hh', Hh, app_assoc.
    + now rewrite Hs', Hs, fold_left_app.
  - injection Hl as <- <-. split; [now apply Hexit|]. now exists new.
Qed.

(** Passes that come back to the loop test only use up fuel. *)
Lemma gen_loop_passes (k : nat) (grs grs1 : list GeneratorRun) (w w1 : World) :
  passes e args l first k grs w grs1 w1 ->
  forall fuel,
    gen_loop (k + fuel) e args l first grs w = gen_loop fuel e args l first grs1 w1.
Proof.
  induction 1 as [|k grs grs1 grs2 w w1 w2 Hb _ IH]; intros fuel; [reflexivity|].
  cbn. rewrite (bind_Return _ _ _ _ _ Hb). apply IH.
Qed.

(** After any number of passes, [grs_this_gen] holds exactly the runs added
    to the history since the loop started. *)
Lemma passes_history (k : nat) (grs grs1 : list GeneratorRun) (w w1 : World) :
  passes e args l first k grs w grs1 w1 ->
  exists new,
    grs1 = grs ++ new /\
    _generator_runs (gs w1) = _generator_runs (gs w) ++ new.
Proof.
  induction 1 as [|k grs grs1 grs2 w w1 w2 Hb _ IH].
  - exists []. now rewrite !app_nil_r.
  - apply gen_loop_body_Return in Hb as (new & Hc & Hh & _). cbn in Hc. subst grs1.
    destruct IH as (new' & -> & Hh'). exists (new ++ new').
    now rewrite Hh', Hh, !app_assoc.
Qed.

(** The pass in which the node's [gen] raises [DataRequiredError]. *)
Lemma gen_loop_body_DataRequired (grs : list GeneratorRun) (w w1 w2 : World)
    (t : bool) :
  gen_loop_transition w = (Return t, w1) ->
  call_node_gen e args l (negb (first || t)) grs w1
    = (Return (Err DataRequiredError), w2) ->
  gen_loop_body e args l first grs w =
    if bool_decide (length grs = 0%nat) then (Raise DataRequiredError, w2)
    else (Return (LoopExit grs), w2).
Proof.
  intros Ht Hg. unfold gen_loop_body.
  rewrite (bind_Return _ _ _ _ _ Ht), (bind_Return _ _ _ _ _ Hg).
  now destruct (bool_decide _).
Qed.

End Loop.

(** ** The statements before the loop *)

Section Setup.
Context `{Collaborators}.

Lemma preserves_gen_setup_history (e : Experiment.t) (args : GenArgs) (p : option loc) :
  preserves same_history (gen_setup e args p).
Proof.
  unfold gen_setup.
  apply preserves_bind; [apply _ | | intros _].
  { apply preserves_modify_gs. intros w. now apply same_history_on_gs. }
  apply preserves_bind; [apply _ | apply preserves_get_gs; apply _ | intros s].
  destruct (optimization_complete s); [apply preserves_raise; apply _|].
  apply preserves_bind; [apply _ | | intros l'].
  { destruct p; [apply preserves_ret; apply _|]. now intros w r w' [= <- <-]. }
  apply preserves_bind; [apply _ | | intros _].
  { apply preserves_experiment_setter; [apply _|].
    intros w. now apply same_history_on_gs. }
  apply preserves_bind; [apply _ | | intros _; apply preserves_ret; apply _].
  apply preserves_validate_arms_per_node; apply _.
Qed.

(** Given a dictionary, the setup hands that very dictionary to the loop
    and does not touch the store. *)
Lemma gen_setup_Some (e : Experiment.t) (args : GenArgs) (l : loc) :
  preserves same_store (gen_setup e args (Some l)) /\
  forall w l' w', gen_setup e args (Some l) w = (Return l', w') -> l' = l.
Proof.
  split.
  - unfold gen_setup.
    apply preserves_bind; [apply _ | | intros _].
    { apply preserves_modify_gs. intros w. apply same_store_on_gs. }
    apply preserves_bind; [apply _ | apply preserves_get_gs; apply _ | intros s].
    destruct (optimization_complete s); [apply preserves_raise; apply _|].
    apply preserves_bind; [apply _ | apply preserves_ret; apply _ | intros l'].
    apply preserves_bind; [apply _ | | intros _].
    { apply preserves_experiment_setter; [apply _|]. intros w. apply same_store_on_gs. }
    apply preserves_bind; [apply _ | | intros _; apply preserves_ret; apply _].
    apply preserves_validate_arms_per_node; apply _.
  - intros w l' w' Hs. unfold gen_setup in Hs.
    bind_inv Hs. bind_inv Hs. destruct (optimization_complete a0); [discriminate|].
    bind_inv Hs. injection H2 as <- <-.
    bind_inv Hs. bind_inv Hs. now injection Hs as <- _.
Qed.

(** In an exhausted strategy the setup raises straight away. *)
Lemma gen_setup_completed (e : Experiment.t) (args : GenArgs) (p : option loc)
    (w : World) :
  optimization_complete (with_experiment (Some e) (gs w)) = true ->
  gen_setup e args p w
  = (Raise GenerationStrategyCompleted, on_gs (with_experiment (Some e)) w).
Proof.
  intros Hc. unfold gen_setup.
  rewrite (bind_Return _ _ w (on_gs (with_experiment (Some e)) w) tt) by reflexivity.
  rewrite (bind_Return get_gs _ _ _ _ eq_refl).
  change (gs (on_gs (with_experiment (Some e)) w)) with (with_experiment (Some e) (gs w)).
  now rewrite Hc.
Qed.

End Setup.

(** ** [_gen_with_multiple_nodes] and [gen] *)

Section Generation.
Context `{Collaborators}.

(** A call that returns has produced at least one run, and the runs it
    returns are the ones it appended to the history. *)
Lemma gen_with_multiple_nodes_Return (fuel : nat) (e : Experiment.t) (args : GenArgs)
    (p : option loc) (first : bool) (w w' : World) (grs : list GeneratorRun) :
  _gen_with_multiple_nodes fuel e args p first w = (Return grs, w') ->
  grs <> [] /\ _generator_runs (gs w') = _generator_runs (gs w) ++ grs.
Proof.
  intros Hg. unfold _gen_with_multiple_nodes in Hg.
  bind_split Hg as l w1 Hs.
  apply preserves_gen_setup_history in Hs. unfold same_history in Hs.
  apply gen_loop_Return in Hg as (Hne & new & -> & Hh & _).
  split; [exact Hne|]. now rewrite Hh, Hs.
Qed.

(** Given a dictionary, the call extends it in place with the runs it
    returns, and writes nowhere else in the store. *)
Lemma gen_with_multiple_nodes_pending (fuel : nat) (e : Experiment.t) (args : GenArgs)
    (l : loc) (first : bool) :
  preserves (same_store_but l) (_gen_with_multiple_nodes fuel e args (Some l) first) /\
  forall w w' grs,
    _gen_with_multiple_nodes fuel e args (Some l) first w = (Return grs, w') ->
    deref (store w') l
    = fold_left (extend_pending_observations e) grs (deref (store w) l).
Proof.
  destruct (gen_setup_Some e args l) as [Hst Hl]. split.
  - unfold _gen_with_multiple_nodes. intros w r w'. unfold mbind, M_bind.
    destruct (gen_setup e args (Some l) w) as [[l'|ex|] w1] eqn:Hs; intros Hr.
    + assert (l' = l) as -> by (eapply Hl; eauto).
      transitivity w1.
      * apply same_store_same_store_but. eapply Hst; eauto.
      * eapply gen_loop_store; eauto.
    + injection Hr as <- <-. apply same_store_same_store_but. eapply Hst; eauto.
    + injection Hr as <- <-. apply same_store_same_store_but. eapply Hst; eauto.
  - intros w w' grs Hg. unfold _gen_with_multiple_nodes in Hg.
    bind_split Hg as l' w1 Hs.
    assert (l' = l) as -> by (eapply Hl; eauto).
    apply Hst in Hs. unfold same_store in Hs.
    apply gen_loop_Return in Hg as (_ & new & Hnew & _ & Hd).
    cbn in Hnew. subst new. now rewrite Hd, Hs.
Qed.

(** The call in which, after [k] passes back to the loop test, the node's
    [gen] raises [DataRequiredError]. *)
Lemma gen_with_multiple_nodes_DataRequired (k fuel : nat) (e : Experiment.t)
    (args : GenArgs) (p : option loc) (first : bool) (l : loc)
    (w w0 w1 w2 w3 : World) (grs : list GeneratorRun) (t : bool) :
  gen_setup e args p w = (Return l, w0) ->
  passes e args l first k [] w0 grs w1 ->
  gen_loop_transition w1 = (Return t, w2) ->
  call_node_gen e args l (negb (first || t)) grs w2
    = (Return (Err DataRequiredError), w3) ->
  _generator_runs (gs w3) = _generator_runs (gs w) ++ grs /\
  _gen_with_multiple_nodes (k + S fuel) e args p first w =
    if bool_decide (length grs = 0%nat) then (Raise DataRequiredError, w3)
    else (Return grs, w3).
Proof.
  intros Hs Hp Ht Hg. split.
  - apply preserves_gen_setup_history in Hs.
    apply passes_history in Hp as (new & Hnew & Hh). cbn in Hnew. subst new.
    assert (Hh2 := preserves_gen_loop_transition same_history same_history_on_gs _ _ _ Ht).
    assert (Hh3 := preserves_call_node_gen same_history same_history_on_gs
                     _ _ _ _ _ _ _ _ Hg).
    unfold same_history in *. congruence.
  - unfold _gen_with_multiple_nodes. rewrite (bind_Return _ _ _ _ _ Hs).
    rewrite (gen_loop_passes e args l first k _ _ _ _ Hp). cbn.
    assert (Hb := gen_loop_body_DataRequired e args l first grs _ _ _ _ Ht Hg).
    destruct (bool_decide (length grs = 0%nat)).
    + now rewrite (bind_Raise _ _ _ _ _ Hb).
    + now rewrite (bind_Return _ _ _ _ _ Hb).
Qed.

(** [gen] once the experiment is bound and the loop has returned. *)
Lemma gen_of_loop_result (fuel : nat) (e : Experiment.t) (data_ : option Data)
    (p : option loc) (n_ : Z) (ff : option ObservationFeatures)
    (w w1 w2 : World) (grs : list GeneratorRun) :
  experiment_setter e w = (Return tt, w1) ->
  _gen_with_multiple_nodes fuel e
    {| data := data_; n := Some n_; fixed_features := ff; arms_per_node := None |}
    p true w1 = (Return grs, w2) ->
  gen fuel e data_ p n_ ff w = gen_single grs w2.
Proof.
  intros Hs Hg. unfold gen.
  rewrite (bind_Return _ _ _ _ _ Hs). now rewrite (bind_Return _ _ _ _ _ Hg).
Qed.

Lemma experiment_setter_Return (e : Experiment.t) (w w1 : World) :
  experiment_setter e w = (Return tt, w1) ->
  w1 = on_gs (with_experiment (Some e)) w.
Proof.
  destruct (_experiment (gs w)) as [cur|] eqn:Hc.
  - rewrite (experiment_setter_bound e cur) by assumption.
    destruct (String.eqb _ _); congruence.
  - rewrite experiment_setter_unbound by assumption. congruence.
Qed.

End Generation.

(** ** Errors and results of [_gen_with_multiple_nodes] and [gen] *)

Section GenerationResults.
Context `{Collaborators}.

(** C1: in a call of [_gen_with_multiple_nodes], a [DataRequiredError]
    raised by the node's [gen] is propagated to the caller if and only if no
    run has been produced in the call; otherwise it is swallowed and the
    runs produced so far are returned.  ([grs] is [grs_this_gen] when the
    node raises: exactly the runs the call has added to the history.) *)
Theorem DataRequiredError_propagation (k fuel : nat) (e : Experiment.t)
    (args : GenArgs) (p : option loc) (first : bool) (l : loc)
    (w w0 w1 w2 w3 : World) (grs : list GeneratorRun) (t : bool) :
  gen_setup e args p w = (Return l, w0) ->
  passes e args l first k [] w0 grs w1 ->
  gen_loop_transition w1 = (Return t, w2) ->
  call_node_gen e args l (negb (first || t)) grs w2
    = (Return (Err DataRequiredError), w3) ->
  let call := _gen_with_multiple_nodes (k + S fuel) e args p first w in
  _generator_runs (gs w3) = _generator_runs (gs w) ++ grs /\
  (fst call = Raise DataRequiredError <-> grs = []) /\
  (grs = [] -> call = (Raise DataRequiredError, w3)) /\
  (grs <> [] -> call = (Return grs, w3)).
Proof.
  intros Hs Hp Ht Hg call.
  destruct (gen_with_multiple_nodes_DataRequired k fuel e args p first l
              w w0 w1 w2 w3 grs t Hs Hp Ht Hg) as [Hh Hc].
  fold call in Hc. split; [exact Hh|].
  destruct grs as [|g grs']; cbn in Hc; rewrite Hc; cbn.
  - split; [split; reflexivity | split].
    + reflexivity.
    + intros Hne. now contradiction Hne.
  - split; [split; discriminate | split].
    + discriminate.
    + reflexivity.
Qed.

(** C2: when the loop produces more than one run for the trial, [gen] raises
    [UnsupportedError]; when it produces exactly one, [gen] returns it. *)
Theorem gen_one_run_or_UnsupportedError (fuel : nat) (e : Experiment.t)
    (data_ : option Data) (p : option loc) (n_ : Z)
    (ff : option ObservationFeatures) (w w1 w2 : World) (grs : list GeneratorRun) :
  experiment_setter e w = (Return tt, w1) ->
  _gen_with_multiple_nodes fuel e
    {| data := data_; n := Some n_; fixed_features := ff; arms_per_node := None |}
    p true w1 = (Return grs, w2) ->
  ((1 < length grs)%nat -> gen fuel e data_ p n_ ff w = (Raise UnsupportedError, w2)) /\
  (forall g, grs = [g] -> gen fuel e data_ p n_ ff w = (Return g, w2)).
Proof.
  intros Hs Hg. rewrite (gen_of_loop_result fuel e data_ p n_ ff w w1 w2 grs Hs Hg).
  split.
  - intros Hlen. unfold gen_single. now rewrite bool_decide_eq_true_2.
  - intros g ->. reflexivity.
Qed.

(** C9: when [_gen_with_multiple_nodes] returns, the list it returns is not
    empty, so taking [gr[0]] in [gen] does not raise [IndexError]. *)
Theorem gen_with_multiple_nodes_nonempty (fuel : nat) (e : Experiment.t)
    (args : GenArgs) (p : option loc) (first : bool) (w w' : World)
    (grs : list GeneratorRun) :
  _gen_with_multiple_nodes fuel e args p first w = (Return grs, w') ->
  grs <> [] /\ fst (gen_single grs w') <> Raise IndexError.
Proof.
  intros Hg. apply gen_with_multiple_nodes_Return in Hg as [Hne _].
  split; [exact Hne|]. unfold gen_single.
  destruct (bool_decide _); [discriminate|].
  destruct grs; [now contradiction Hne | discriminate].
Qed.

(** The node's [gen] leaves the pointer and [_model] where they are. *)
Lemma call_node_gen_pointer (e : Experiment.t) (args : GenArgs) (l : loc)
    (skip_fit : bool) (grs : list GeneratorRun) (w w' : World)
    (r : outcome (result (option GeneratorRun))) :
  call_node_gen e args l skip_fit grs w = (r, w') ->
  _curr (gs w') = _curr (gs w) /\ _model (gs w') = _model (gs w).
Proof.
  unfold call_node_gen, curr_node, mbind, M_bind, get_gs, get_store.
  destruct (_nodes (gs w) !! _curr (gs w)) as [cur|]; cbn; [|now intros [= <- <-]].
  destruct (GenerationNode_gen _ _ _ _ _ _ _) as [cur' r']. cbn.
  now intros [= <- <-].
Qed.

(** C6 (as amended): the mutations of a generation call are made in place
    and stay when an exception propagates.  When [gen] raises
    [UnsupportedError] for several runs, the strategy is in the state the
    loop left it in, which is not the state before the call: every run
    produced is appended to the history.  When the [DataRequiredError] of a
    node propagates with no run produced, the strategy is in the state the
    node's [gen] left it in, [_curr] and [_model] being where the transition
    step before it left them, and the history is as it was before the
    call. *)
Theorem mutations_stay_on_exception :
  (forall (fuel : nat) (e : Experiment.t) (data_ : option Data) (p : option loc)
          (n_ : Z) (ff : option ObservationFeatures) (w w1 w2 : World)
          (grs : list GeneratorRun),
      experiment_setter e w = (Return tt, w1) ->
      _gen_with_multiple_nodes fuel e
        {| data := data_; n := Some n_; fixed_features := ff; arms_per_node := None |}
        p true w1 = (Return grs, w2) ->
      (1 < length grs)%nat ->
      gen fuel e data_ p n_ ff w = (Raise UnsupportedError, w2) /\
      _generator_runs (gs w2) = _generator_runs (gs w) ++ grs /\
      gs w2 <> gs w) /\
  (forall (k fuel : nat) (e : Experiment.t) (args : GenArgs) (p : option loc)
          (first : bool) (l : loc) (w w0 w1 w2 w3 : World) (t : bool),
      gen_setup e args p w = (Return l, w0) ->
      passes e args l first k [] w0 [] w1 ->
      gen_loop_transition w1 = (Return t, w2) ->
      call_node_gen e args l (negb (first || t)) [] w2
        = (Return (Err DataRequiredError), w3) ->
      _gen_with_multiple_nodes (k + S fuel) e args p first w
        = (Raise DataRequiredError, w3) /\
      _generator_runs (gs w3) = _generator_runs (gs w) /\
      _curr (gs w3) = _curr (gs w2) /\
      _model (gs w3) = _model (gs w2)).
Proof.
  split.
  - intros fuel e data_ p n_ ff w w1 w2 grs Hs Hg Hlen.
    rewrite (gen_of_loop_result fuel e data_ p n_ ff w w1 w2 grs Hs Hg).
    assert (Hh : _generator_runs (gs w2) = _generator_runs (gs w) ++ grs).
    { apply gen_with_multiple_nodes_Return in Hg as [_ Hh].
      apply experiment_setter_Return in Hs. subst w1. exact Hh. }
    split; [|split; [exact Hh|]].
    + unfold gen_single. now rewrite bool_decide_eq_true_2.
    + intros Heq. rewrite Heq in Hh.
      rewrite <- (app_nil_r (_generator_runs (gs w))) in Hh at 1.
      apply app_inv_head in Hh. subst grs. cbn in Hlen. lia.
  - intros k fuel e args p first l w w0 w1 w2 w3 t Hs Hp Ht Hg.
    destruct (gen_with_multiple_nodes_DataRequired k fuel e args p first l
                w w0 w1 w2 w3 [] t Hs Hp Ht Hg) as [Hh Hc].
    split; [exact Hc|]. split; [now rewrite app_nil_r in Hh|].
    exact (call_node_gen_pointer _ _ _ _ _ _ _ _ Hg).
Qed.

End GenerationResults.

(** ** The two-node scenario *)

Section ScenarioRuns.
Import Scenario.

(** Node [A] generates, node [B] lacks data: one run, no exception. *)
Lemma DataRequiredError_propagation_witness :
  _gen_with_multiple_nodes (H := env B_needs_data) 3 exp1 no_args None true (world ∅)
  = (Return [run_of node_A], B_gen).
Proof.
  refine (proj2 (proj2 (proj2
    (DataRequiredError_propagation (H := env B_needs_data) 1 1 exp1 no_args None true
       0%nat (world ∅) B_setup B_pass1 B_transition B_gen [run_of node_A] true
       _ _ _ _))) _).
  - vm_compute. reflexivity.
  - eapply passes_S; [vm_compute; reflexivity | apply passes_O].
  - vm_compute. reflexivity.
  - vm_compute. reflexivity.
  - discriminate.
Defined.

(** Both nodes generate for one trial: [gen] raises [UnsupportedError]. *)
Lemma gen_one_run_or_UnsupportedError_witness :
  fst (gen (H := env all_data) 3 exp1 None None 1 None (world ∅))
  = Raise UnsupportedError.
Proof.
  set (w1 := on_gs (with_experiment (Some exp1)) (world ∅)).
  set (r := _gen_with_multiple_nodes (H := env all_data) 3 exp1 no_args None true w1).
  rewrite (proj1 (gen_one_run_or_UnsupportedError (H := env all_data) 3 exp1 None None
                    1 None (world ∅) w1 (snd r) [run_of node_A; run_of node_B]
                    ltac:(reflexivity) ltac:(vm_compute; reflexivity))
                 ltac:(cbn; lia)).
  reflexivity.
Defined.

Lemma gen_with_multiple_nodes_nonempty_witness :
  [run_of node_A] <> [] /\
  fst (gen_single [run_of node_A] B_gen) <> Raise IndexError.
Proof.
  apply (gen_with_multiple_nodes_nonempty (H := env B_needs_data) 3 exp1 no_args None
           true (world ∅) B_gen [run_of node_A]).
  vm_compute. reflexivity.
Defined.

(** Node [A] hands over to [B] at once and [B] lacks data: the error
    propagates, the history is untouched, and the pointer stays on [B]. *)
Lemma mutations_stay_on_exception_witness :
  _gen_with_multiple_nodes (H := Scenario2.towards "B") 1 exp1 no_args None true (world ∅)
    = (Raise DataRequiredError, Scenario2.T_gen) /\
  _generator_runs (gs Scenario2.T_gen) = _generator_runs (gs (world ∅)) /\
  _curr (gs Scenario2.T_gen) = _curr (gs Scenario2.T_transition) /\
  _model (gs Scenario2.T_gen) = _model (gs Scenario2.T_transition).
Proof.
  apply (proj2 (mutations_stay_on_exception (H := Scenario2.towards "B"))
           0%nat 0%nat exp1 no_args None true 0%nat (world ∅)
           Scenario2.T_setup Scenario2.T_setup Scenario2.T_transition
           Scenario2.T_gen true).
  - vm_compute. reflexivity.
  - apply passes_O.
  - vm_compute. reflexivity.
  - vm_compute. reflexivity.
Defined.

(** C6 (as stated) fails, for both exceptions it names.  When [gen] raises
    [UnsupportedError] because both nodes generated, the two runs are in the
    history and [_curr] has moved to [B].  When [gen] raises the
    [DataRequiredError] of [B] with no run produced, after [A] has handed
    over to [B], [_curr] has moved to [B] and [B] carries the flags set on
    the way.  In neither case is the strategy as it was before the call. *)
Lemma state_changed_on_exception :
  let r := gen (H := env all_data) 3 exp1 None None 1 None (world ∅) in
  let r' := gen (H := Scenario2.towards "B") 3 exp1 None None 1 None (world ∅) in
  (fst r = Raise UnsupportedError /\
   _generator_runs (gs (world ∅)) = [] /\
   _generator_runs (gs (snd r)) = [run_of node_A; run_of node_B] /\
   _curr (gs (world ∅)) = 0%nat /\
   _curr (gs (snd r)) = 1%nat /\
   gs (snd r) <> gs (world ∅)) /\
  (fst r' = Raise DataRequiredError /\
   _generator_runs (gs (snd r')) = [] /\
   _curr (gs (world ∅)) = 0%nat /\
   _curr (gs (snd r')) = 1%nat /\
   _nodes (gs (world ∅)) !! 1%nat = Some node_B /\
   _nodes (gs (snd r')) !! 1%nat = Some (set_previous_node_name (Some "B") node_B) /\
   gs (snd r') <> gs (world ∅)).
Proof.
  vm_compute. repeat split; discriminate.
Qed.

End ScenarioRuns.

(** ** Exhaustion *)

Section Exhaustion.
Context `{Collaborators}.

Lemma curr_node_Return (w : World) (cur : GenerationNode) :
  _nodes (gs w) !! _curr (gs w) = Some cur -> curr_node w = (Return cur, w).
Proof.
  intros Hc. unfold curr_node, mbind, M_bind, get_gs. now rewrite Hc.
Qed.

Lemma clamp_num_trials_pos (num_trials lim : Z) : 1 <= clamp_num_trials num_trials lim.
Proof. unfold clamp_num_trials. destruct (Z.eqb _ _); lia. Qed.

(** C3: [optimization_complete] holds exactly when every node of the
    strategy reports itself completed; and in that state an attempt to
    transition (the current node's transition check says to move) raises
    [GenerationStrategyCompleted], as does an attempt to generate: through
    [_gen_with_multiple_nodes], through [gen], and through
    [gen_for_multiple_trials_with_multiple_models]. *)
Theorem optimization_complete_raises (w : World) :
  (optimization_complete (gs w) = true <->
   forall nd, nd ∈ _nodes (gs w) -> is_completed (gs w) nd = true) /\
  (optimization_complete (gs w) = true ->
   forall (cur : GenerationNode) (flag : bool) (next : option string),
     _nodes (gs w) !! _curr (gs w) = Some cur ->
     should_transition_to_next_node (gs w) cur flag = Ok (true, next) ->
     _maybe_transition_to_next_node flag w = (Raise GenerationStrategyCompleted, w)) /\
  (forall (e : Experiment.t),
     optimization_complete (with_experiment (Some e) (gs w)) = true ->
     (forall fuel args p first,
        _gen_with_multiple_nodes fuel e args p first w
        = (Raise GenerationStrategyCompleted, on_gs (with_experiment (Some e)) w)) /\
     (forall fuel data_ p n_ ff,
        fst (experiment_setter e w) = Return tt ->
        gen fuel e data_ p n_ ff w
        = (Raise GenerationStrategyCompleted, on_gs (with_experiment (Some e)) w)) /\
     (forall fuel args p num_trials cur lim,
        fst (experiment_setter e w) = Return tt ->
        _nodes (gs w) !! _curr (gs w) = Some cur ->
        new_trial_limit (with_experiment (Some e) (gs w)) cur false = Ok lim ->
        exists w',
          gen_for_multiple_trials_with_multiple_models fuel e args p num_trials w
          = (Raise GenerationStrategyCompleted, w') /\
          gs w' = with_experiment (Some e) (gs w))).
Proof.
  split; [|split].
  - unfold optimization_complete. rewrite forallb_forall.
    split; intros Hall nd Hin; apply Hall; now apply list_elem_of_In.
  - intros Hc cur flag next Hcur Hst. unfold _maybe_transition_to_next_node.
    rewrite (bind_Return _ _ _ _ _ (curr_node_Return w cur Hcur)).
    rewrite (bind_Return get_gs _ _ _ _ eq_refl).
    rewrite Hst. cbn. now rewrite Hc.
  - intros e Hc.
    assert (Hloop : forall fuel args p first,
               _gen_with_multiple_nodes fuel e args p first w
               = (Raise GenerationStrategyCompleted, on_gs (with_experiment (Some e)) w)).
    { intros fuel args p first. unfold _gen_with_multiple_nodes.
      now rewrite (bind_Raise _ _ _ _ _ (gen_setup_completed e args p w Hc)). }
    assert (Hset : fst (experiment_setter e w) = Return tt ->
                   experiment_setter e w
                   = (Return tt, on_gs (with_experiment (Some e)) w)).
    { intros Hr. destruct (experiment_setter e w) as [r w1] eqn:Hs. cbn in Hr.
      subst r. now rewrite (experiment_setter_Return e w w1 Hs). }
    split; [exact Hloop | split].
    + intros fuel data_ p n_ ff Hr. unfold gen.
      rewrite (bind_Return _ _ _ _ _ (Hset Hr)).
      set (w1 := on_gs (with_experiment (Some e)) w).
      assert (Hloop1 : forall args p first,
                 _gen_with_multiple_nodes fuel e args p first w1
                 = (Raise GenerationStrategyCompleted, w1)).
      { intros args p' first. unfold _gen_with_multiple_nodes.
        now rewrite (bind_Raise _ _ _ _ _ (gen_setup_completed e args p' w1 Hc)). }
      now rewrite (bind_Raise _ _ _ _ _ (Hloop1 _ _ _)).
    + intros fuel args p num_trials cur lim Hr Hcur Hlim.
      unfold gen_for_multiple_trials_with_multiple_models.
      rewrite (bind_Return _ _ _ _ _ (Hset Hr)).
      set (w1 := on_gs (with_experiment (Some e)) w).
      set (copy := match p with
                   | Some l' => st ← get_store; alloc (deref st l')
                   | None => alloc (default ∅ (extract_pending_observations e))
                   end).
      assert (Hcopy : exists l2 w2, copy w1 = (Return l2, w2) /\ gs w2 = gs w1).
      { subst copy. destruct p; eexists _, _; split; reflexivity. }
      destruct Hcopy as (l2 & w2 & Hcopy & Hgs).
      rewrite (bind_Return _ _ _ _ _ Hcopy).
      assert (Hcur2 : _nodes (gs w2) !! _curr (gs w2) = Some cur) by now rewrite Hgs.
      rewrite (bind_Return _ _ _ _ _ (curr_node_Return w2 cur Hcur2)).
      rewrite (bind_Return get_gs _ _ _ _ eq_refl).
      rewrite Hgs. subst w1. cbn [gs on_gs]. rewrite Hlim. cbn [lift_result].
      rewrite (bind_Return _ _ w2 w2 lim) by reflexivity.
      assert (Hpos := clamp_num_trials_pos num_trials lim).
      destruct (Z.to_nat (clamp_num_trials num_trials lim)) as [|passes'] eqn:Hn; [lia|].
      cbn [gen_trials].
      assert (Hc2 : optimization_complete (with_experiment (Some e) (gs w2)) = true).
      { rewrite Hgs. exact Hc. }
      exists (on_gs (with_experiment (Some e)) w2). split.
      * unfold _gen_with_multiple_nodes.
        rewrite (bind_Raise _ _ _ _ _
                   (bind_Raise _ _ _ _ _ (gen_setup_completed e args (Some l2) w2 Hc2))).
        reflexivity.
      * cbn. now rewrite Hgs.
Qed.

End Exhaustion.

Lemma optimization_complete_raises_witness :
  _maybe_transition_to_next_node (H := Scenario.env Scenario.exhausted) true
    (Scenario.world ∅)
  = (Raise GenerationStrategyCompleted, Scenario.world ∅).
Proof.
  apply (proj1 (proj2 (optimization_complete_raises
                         (H := Scenario.env Scenario.exhausted) (Scenario.world ∅)))
               ltac:(reflexivity) Scenario.node_A true None).
  - reflexivity.
  - reflexivity.
Defined.

(** ** Several trials in one call *)

Section MultipleTrials.
Context `{Collaborators}.

(** The [for] loop adds one list of runs per pass, extends the one
    dictionary it works on with every run produced, and writes nowhere else
    in the store. *)
Lemma gen_trials_Return (fuel : nat) (e : Experiment.t) (args : GenArgs) (l : loc)
    (passes_ : nat) :
  forall (acc grss : list (list GeneratorRun)) (w w' : World),
    gen_trials passes_ fuel e args l acc w = (Return grss, w') ->
    exists new,
      grss = acc ++ new /\ length new = passes_ /\
      deref (store w') l
      = fold_left (extend_pending_observations e) (concat new) (deref (store w) l).
Proof.
  induction passes_ as [|k IH]; intros acc grss w w' Hg; cbn in Hg.
  - injection Hg as <- <-. exists []. now rewrite app_nil_r.
  - bind_split Hg as grs w1 Hone.
    apply gen_with_multiple_nodes_pending in Hone.
    apply IH in Hg as (new & -> & Hlen & Hd).
    exists (grs :: new). repeat split.
    + now rewrite <- app_assoc.
    + cbn. now rewrite Hlen.
    + cbn. now rewrite fold_left_app, Hd, Hone.
Qed.

Lemma gen_trials_store (fuel : nat) (e : Experiment.t) (args : GenArgs) (l : loc)
    (passes_ : nat) :
  forall acc, preserves (same_store_but l) (gen_trials passes_ fuel e args l acc).
Proof.
  induction passes_ as [|k IH]; intros acc; cbn.
  - apply preserves_ret; apply _.
  - apply preserves_bind; [apply _ | apply gen_with_multiple_nodes_pending | intros grs].
    apply IH.
Qed.

(** The entry point up to the [for] loop.  Either it stops before the loop
    without returning, or the experiment is bound, the working dictionary
    [l2] is a new object holding the contents of the caller's (or the
    experiment's pending observations), and the loop makes
    [Z.to_nat (clamp_num_trials num_trials lim)] passes on [l2]. *)
Lemma gen_for_multiple_trials_unfold (fuel : nat) (e : Experiment.t) (args : GenArgs)
    (p : option loc) (num_trials : Z) (w : World) (r : outcome (list (list GeneratorRun)))
    (w' : World) :
  gen_for_multiple_trials_with_multiple_models fuel e args p num_trials w = (r, w') ->
  let l2 := fresh (dom (store w)) in
  let d := match p with
           | Some l => deref (store w) l
           | None => default ∅ (extract_pending_observations e)
           end in
  let w2 := on_store <[l2 := d]> (on_gs (with_experiment (Some e)) w) in
  ((forall grss, r <> Return grss) /\ (store w' = store w \/ store w' = store w2)) \/
  exists cur lim,
    _nodes (gs w2) !! _curr (gs w2) = Some cur /\
    new_trial_limit (gs w2) cur false = Ok lim /\
    gen_trials (Z.to_nat (clamp_num_trials num_trials lim)) fuel e args l2 [] w2
    = (r, w').
Proof.
  intros Hm l2 d w2. unfold gen_for_multiple_trials_with_multiple_models in Hm.
  unfold mbind at 1, M_bind at 1 in Hm.
  destruct (experiment_setter e w) as [[[]|ex|] w1] eqn:Hs.
  2,3: injection Hm as <- <-; left; split; [discriminate | left];
       now apply (preserves_experiment_setter same_store e
                    (fun w => same_store_on_gs _ w)) in Hs.
  apply experiment_setter_Return in Hs. subst w1.
  assert (Hcopy : match p with
                  | Some l => st ← get_store; alloc (deref st l)
                  | None => alloc (default ∅ (extract_pending_observations e))
                  end (on_gs (with_experiment (Some e)) w) = (Return l2, w2)).
  { subst d w2 l2. destruct p; reflexivity. }
  rewrite (bind_Return _ _ _ _ _ Hcopy) in Hm.
  unfold mbind at 1, M_bind at 1 in Hm.
  destruct (curr_node w2) as [[cur|ex|] w3] eqn:Hc.
  2,3: injection Hm as <- <-; left; split; [discriminate | right];
       now apply (preserves_curr_node same_store) in Hc.
  assert (w3 = w2 /\ _nodes (gs w2) !! _curr (gs w2) = Some cur) as [-> Hcur].
  { unfold curr_node, mbind, M_bind, get_gs in Hc.
    destruct (_nodes (gs w2) !! _curr (gs w2)); [|discriminate].
    now injection Hc as -> ->. }
  rewrite (bind_Return get_gs _ _ _ _ eq_refl) in Hm.
  destruct (new_trial_limit (gs w2) cur false) as [lim|ex] eqn:Hlim.
  - right. exists cur, lim. split; [exact Hcur | split; [exact Hlim | exact Hm]].
  - left. rewrite (bind_Raise _ _ w2 w2 ex) in Hm by reflexivity.
    injection Hm as <- <-. split; [discriminate | now right].
Qed.

(** C4 (as amended): when the entry point returns, the number of
    single-trial passes it made is [num_trials] clamped to the current
    node's trial budget when that budget is finite, but never less than one;
    for a request and a budget of at least one this is the clamped request
    itself. *)
Theorem multiple_trials_count (fuel : nat) (e : Experiment.t) (args : GenArgs)
    (p : option loc) (num_trials : Z) (w w' : World) (cur : GenerationNode) (lim : Z)
    (grss : list (list GeneratorRun)) :
  _nodes (gs w) !! _curr (gs w) = Some cur ->
  new_trial_limit (with_experiment (Some e) (gs w)) cur false = Ok lim ->
  gen_for_multiple_trials_with_multiple_models fuel e args p num_trials w
    = (Return grss, w') ->
  length grss = Z.to_nat (Z.max (clamped_to_budget num_trials lim) 1) /\
  (1 <= num_trials -> (lim = -1 \/ 1 <= lim) ->
   length grss = Z.to_nat (clamped_to_budget num_trials lim)).
Proof.
  intros Hcur Hlim Hm.
  apply gen_for_multiple_trials_unfold in Hm
    as [[Hno _] | (cur' & lim' & Hcur' & Hlim' & Hg)]; [now contradiction (Hno grss)|].
  cbn [gs on_store on_gs] in Hcur', Hlim'. cbn [_nodes _curr with_experiment] in Hcur'.
  rewrite Hcur in Hcur'. injection Hcur' as <-.
  rewrite Hlim in Hlim'. injection Hlim' as <-.
  apply gen_trials_Return in Hg as (new & -> & Hn & _). cbn [app].
  rewrite Hn. unfold clamp_num_trials, clamped_to_budget.
  split.
  - now destruct (Z.eqb lim (-1)).
  - intros Hnt Hl. destruct (Z.eqb lim (-1)) eqn:E; f_equal; lia.
Qed.

(** X25: who writes to the caller's dictionary.  The multi-trial entry point
    leaves it as it was and works on a copy, which every trial of the call
    extends in place with the runs it produces; [gen], which does not copy,
    hands the caller's own dictionary to the loop, which extends it in
    place. *)
Theorem pending_observations_aliasing (fuel : nat) (e : Experiment.t) (l : loc)
    (w w' : World) :
  (l ∈ dom (store w)) ->
  (forall args num_trials r,
     gen_for_multiple_trials_with_multiple_models fuel e args (Some l) num_trials w
       = (r, w') ->
     store w' !! l = store w !! l /\
     forall grss, r = Return grss ->
       exists l2, (l2 ∉ dom (store w)) /\
         deref (store w') l2
         = fold_left (extend_pending_observations e) (concat grss) (deref (store w) l)) /\
  (forall data_ n_ ff g,
     gen fuel e data_ (Some l) n_ ff w = (Return g, w') ->
     deref (store w') l = extend_pending_observations e (deref (store w) l) g).
Proof.
  intros Hl.
  assert (Hne : l <> fresh (dom (store w))).
  { intros ->. now apply (is_fresh (dom (store w))). }
  split.
  - intros args num_trials r Hm.
    apply gen_for_multiple_trials_unfold in Hm
      as [[Hno [Hst | Hst]] | (cur & lim & _ & _ & Hg)].
    + rewrite Hst. split; [reflexivity|]. intros grss ->. now contradiction (Hno grss).
    + rewrite Hst. cbn. rewrite lookup_insert_ne by congruence.
      split; [reflexivity|]. intros grss ->. now contradiction (Hno grss).
    + split.
      * apply gen_trials_store in Hg as Hfr. rewrite (Hfr l Hne). cbn.
        now rewrite lookup_insert_ne by congruence.
      * intros grss ->. exists (fresh (dom (store w))). split; [apply is_fresh|].
        apply gen_trials_Return in Hg as (new & Hnew & _ & Hd). cbn in Hnew. subst new.
        rewrite Hd. f_equal. unfold deref at 1. cbn. now rewrite lookup_insert_eq.
  - intros data_ n_ ff g Hg. unfold gen in Hg.
    bind_split Hg as u w1 Hs. bind_split Hg as grs w2 Hloop.
    apply (preserves_experiment_setter same_store e (fun w => same_store_on_gs _ w)) in Hs.
    unfold same_store in Hs.
    apply gen_with_multiple_nodes_pending in Hloop. rewrite Hs in Hloop.
    unfold gen_single in Hg. destruct (bool_decide (1 < length grs)%nat) eqn:Hlen;
      [discriminate|].
    apply bool_decide_eq_false in Hlen.
    destruct grs as [|g' [|g'' rest]]; [discriminate | | cbn in Hlen; lia].
    injection Hg as <- <-. exact Hloop.
Qed.

End MultipleTrials.

Section ScenarioTrials.
Import Scenario.

Lemma multiple_trials_count_witness :
  let grss := [[run_of node_A; run_of node_B]; [run_of node_B]] in
  length grss = Z.to_nat (Z.max (clamped_to_budget 2 (-1)) 1) /\
  (1 <= 2 -> (-1 = -1 \/ 1 <= -1) ->
   length grss = Z.to_nat (clamped_to_budget 2 (-1))).
Proof.
  apply (multiple_trials_count (H := env all_data) 3 exp1 no_args None 2 (world ∅)
           (snd (gen_for_multiple_trials_with_multiple_models (H := env all_data)
                   3 exp1 no_args None 2 (world ∅)))
           node_A (-1)).
  - reflexivity.
  - reflexivity.
  - vm_compute. reflexivity.
Defined.

(** C4 (as stated) fails: with a budget of [0] and three trials requested,
    one single-trial pass is made, not [min 3 0 = 0]. *)
Lemma passes_not_clamped_to_budget :
  let r := gen_for_multiple_trials_with_multiple_models (H := env no_budget)
             3 exp1 no_args None 3 (world ∅) in
  new_trial_limit (Collaborators := env no_budget)
    (with_experiment (Some exp1) strategy) node_A false = Ok 0 /\
  fst r = Return [[run_of node_A; run_of node_B]] /\
  clamped_to_budget 3 0 = 0 /\
  length [[run_of node_A; run_of node_B]] <> Z.to_nat (clamped_to_budget 3 0).
Proof.
  vm_compute. repeat split; discriminate.
Qed.

(** The caller's dictionary, at location [0], is left alone by the
    multi-trial entry point. *)
Lemma pending_observations_aliasing_witness :
  let w := world {[ 0%nat := ∅ ]} in
  let r := gen_for_multiple_trials_with_multiple_models (H := env all_data)
             3 exp1 no_args (Some 0%nat) 2 w in
  store (snd r) !! 0%nat = store w !! 0%nat.
Proof.
  intros w r.
  apply (proj1 (pending_observations_aliasing (H := env all_data) 3 exp1 0%nat w (snd r)
                  ltac:(vm_compute; reflexivity))
               no_args 2 (fst r)).
  vm_compute. reflexivity.
Defined.

(** C5: the caller's dictionary is not left alone by [gen].  Called with
    the empty dictionary at location [0], [gen] returns the run of [A] and
    leaves that run's arm in the caller's dictionary, under the experiment's
    metric. *)
Lemma gen_extends_callers_pending_observations :
  let w := world {[ 0%nat := ∅ ]} in
  let r := gen (H := env B_needs_data) 3 exp1 None (Some 0%nat) 1 None w in
  fst r = Return (run_of node_A) /\
  store w !! 0%nat = Some ∅ /\
  store (snd r) !! 0%nat = Some {[ "m" := ["arm_A"] ]} /\
  store (snd r) !! 0%nat <> store w !! 0%nat.
Proof.
  vm_compute. repeat split; discriminate.
Qed.

End ScenarioTrials.

(** ** Validation of the node graph *)

Lemma collect_node_names_result (ns : list GenerationNode) :
  forall acc,
    collect_node_names ns acc = Err GenerationStrategyMisconfiguredException \/
    collect_node_names ns acc = Ok (acc ++ (node_name <$> ns)).
Proof.
  induction ns as [|nd ns IH]; intros acc; cbn.
  - right. now rewrite app_nil_r.
  - destruct (bool_decide _); [now left|].
    destruct (IH (acc ++ [node_name nd])) as [-> | ->]; [now left | right].
    now rewrite <- app_assoc.
Qed.

Lemma edges_lookup_add (k k1 : option string) (tc : TransitionCriterion)
    (edges : list (option string * list TransitionCriterion)) :
  edges_lookup k (edges_add k1 tc edges) =
    if decide (k1 = k) then Some (default [] (edges_lookup k edges) ++ [tc])
    else edges_lookup k edges.
Proof.
  induction edges as [|[k' tcs] rest IH]; cbn.
  - destruct (decide (k = k1)), (decide (k1 = k)); cbn; congruence.
  - destruct (decide (k1 = k')) as [->|Hne]; cbn.
    + destruct (decide (k = k')), (decide (k' = k)); cbn; congruence.
    + destruct (decide (k = k')) as [->|Hne'].
      * destruct (decide (k1 = k')); cbn; congruence.
      * exact IH.
Qed.

(** The edge a key leads to holds exactly the criteria with that target. *)
Lemma edges_lookup_fold (k : option string) (l : list TransitionCriterion) :
  forall acc,
    is_Some (edges_lookup k acc) \/ (exists tc, tc ∈ l /\ transition_to tc = k) ->
    edges_lookup k (fold_left (fun edges tc => edges_add (transition_to tc) tc edges) l acc)
    = Some (default [] (edges_lookup k acc)
            ++ filter (fun tc => transition_to tc = k) l).
Proof.
  induction l as [|a l IH]; intros acc Hk; cbn [fold_left].
  - destruct Hk as [[t0 ->] | (tc & Hin & _)]; [cbn; now rewrite app_nil_r|].
    now apply elem_of_nil in Hin.
  - rewrite IH; rewrite edges_lookup_add.
    + rewrite filter_cons. destruct (decide (transition_to a = k)); [|reflexivity].
      cbn. now rewrite <- app_assoc.
    + destruct (decide (transition_to a = k)) as [Ha|Ha]; [left; eauto|].
      destruct Hk as [Hs | (tc & Hin & Htc)]; [now left | right].
      exists tc. split; [|exact Htc].
      apply elem_of_cons in Hin as [-> | Hin]; [contradiction | exact Hin].
Qed.

Lemma transition_edges_lookup (nd : GenerationNode) (tc : TransitionCriterion) :
  tc ∈ transition_criteria nd ->
  edges_lookup (transition_to tc) (transition_edges nd)
  = Some (filter (fun tc' => transition_to tc' = transition_to tc)
                 (transition_criteria nd)).
Proof.
  intros Hin. unfold transition_edges. rewrite edges_lookup_fold; [reflexivity|].
  right. now exists tc.
Qed.

Lemma edges_lookup_elem_of (k : option string) (tcs : list TransitionCriterion)
    (edges : list (option string * list TransitionCriterion)) :
  edges_lookup k edges = Some tcs -> (k, tcs) ∈ edges.
Proof.
  induction edges as [|[k' tcs'] rest IH]; cbn; [discriminate|].
  destruct (decide (k = k')) as [->|Hne].
  - intros [= ->]. apply list_elem_of_here.
  - intros Hl. apply list_elem_of_further, IH, Hl.
Qed.

Lemma check_null_target_result (tcs : list TransitionCriterion) :
  check_null_target tcs = Err GenerationStrategyMisconfiguredException \/
  (check_null_target tcs = Ok tt /\
   forall tc, tc ∈ tcs -> max_parallelism_type tc = true).
Proof.
  induction tcs as [|tc tcs IH]; cbn.
  - right. split; [reflexivity|]. intros tc Hin. now apply elem_of_nil in Hin.
  - destruct (str_contains _ (criterion_class tc)) eqn:Hc; cbn; [|now left].
    destruct IH as [-> | [-> Hall]]; [now left | right].
    split; [reflexivity|]. intros tc' Hin.
    apply elem_of_cons in Hin as [-> | Hin]; [exact Hc | now apply Hall].
Qed.

(** Two criteria that disagree make a set of two flags. *)
Lemma flags_disagree (tcs : list TransitionCriterion) (tc1 tc2 : TransitionCriterion) :
  tc1 ∈ tcs -> tc2 ∈ tcs ->
  continue_trial_generation tc1 <> continue_trial_generation tc2 ->
  (1 < size (list_to_set (continue_trial_generation <$> tcs) : gset bool))%nat.
Proof.
  intros H1 H2 Hne.
  set (X := list_to_set (continue_trial_generation <$> tcs) : gset bool).
  assert (Hsub : ({[continue_trial_generation tc1]} ∪ {[continue_trial_generation tc2]}
                   : gset bool) ⊆ X).
  { subst X. intros b Hb. apply elem_of_list_to_set, list_elem_of_fmap.
    apply elem_of_union in Hb as [Hb | Hb]; apply elem_of_singleton in Hb; subst b; eauto. }
  apply subseteq_size in Hsub.
  rewrite size_union in Hsub by set_solver.
  rewrite !size_singleton in Hsub. lia.
Qed.

Lemma validate_edge_result (node_names : list string)
    (edge : option string * list TransitionCriterion) :
  validate_edge node_names edge = Err GenerationStrategyMisconfiguredException \/
  validate_edge node_names edge = Ok tt.
Proof.
  destruct edge as [[t|] tcs]; cbn.
  - destruct (bool_decide (t ∈ node_names)); cbn; [|now left].
    destruct (bool_decide _); [now left | now right].
  - destruct (check_null_target_result tcs) as [-> | [-> _]]; [now left | now right].
Qed.

Lemma validate_edges_result (node_names : list string)
    (edges : list (option string * list TransitionCriterion)) :
  validate_edges node_names edges = Err GenerationStrategyMisconfiguredException \/
  (validate_edges node_names edges = Ok tt /\
   forall edge, edge ∈ edges -> validate_edge node_names edge = Ok tt).
Proof.
  induction edges as [|edge edges IH]; cbn.
  - right. split; [reflexivity|]. intros edge Hin. now apply elem_of_nil in Hin.
  - unfold mbind, result_bind.
    destruct (validate_edge_result node_names edge) as [-> | Hedge]; [now left|].
    rewrite Hedge. destruct IH as [-> | [-> Hall]]; [now left | right].
    split; [reflexivity|]. intros edge' Hin.
    apply elem_of_cons in Hin as [-> | Hin]; [exact Hedge | now apply Hall].
Qed.

Lemma validate_nodes_result (node_names : list string) (ns : list GenerationNode) :
  validate_nodes node_names ns = Err GenerationStrategyMisconfiguredException \/
  (validate_nodes node_names ns = Ok tt /\
   forall nd edge, nd ∈ ns -> edge ∈ transition_edges nd ->
                   validate_edge node_names edge = Ok tt).
Proof.
  induction ns as [|nd ns IH]; cbn.
  - right. split; [reflexivity|]. intros nd edge Hin. now apply elem_of_nil in Hin.
  - unfold mbind, result_bind.
    destruct (validate_edges_result node_names (transition_edges nd))
      as [-> | [-> Hedges]]; [now left|].
    destruct IH as [-> | [-> Hall]]; [now left | right].
    split; [reflexivity|]. intros nd' edge Hin Hedge.
    apply elem_of_cons in Hin as [-> | Hin];
      [now apply Hedges | exact (Hall nd' edge Hin Hedge)].
Qed.

(** A malformed graph has an edge the validation refuses. *)
Lemma malformed_graph_edge (nodes : list GenerationNode) :
  malformed_graph nodes ->
  exists nd edge,
    nd ∈ nodes /\ edge ∈ transition_edges nd /\
    validate_edge (node_name <$> nodes) edge <> Ok tt.
Proof.
  intros [nd tc t Hnd Htc Ht Hnot | nd tc1 tc2 t Hnd H1 H2 Ht1 Ht2 Hne
          | nd tc Hnd Htc Ht Hmp].
  - exists nd, (transition_to tc,
                filter (fun tc' => transition_to tc' = transition_to tc)
                       (transition_criteria nd)).
    split; [exact Hnd | split].
    + now apply edges_lookup_elem_of, transition_edges_lookup.
    + generalize (filter (fun tc' => transition_to tc' = transition_to tc)
                         (transition_criteria nd)).
      intros F. rewrite Ht. cbn. now rewrite bool_decide_eq_false_2.
  - exists nd, (transition_to tc1,
                filter (fun tc' => transition_to tc' = transition_to tc1)
                       (transition_criteria nd)).
    split; [exact Hnd | split].
    + now apply edges_lookup_elem_of, transition_edges_lookup.
    + assert (Hin1 : tc1 ∈ filter (fun tc' => transition_to tc' = transition_to tc1)
                                  (transition_criteria nd))
        by (apply list_elem_of_filter; now split).
      assert (Hin2 : tc2 ∈ filter (fun tc' => transition_to tc' = transition_to tc1)
                                  (transition_criteria nd))
        by (apply list_elem_of_filter; split; [congruence | exact H2]).
      revert Hin1 Hin2.
      generalize (filter (fun tc' => transition_to tc' = transition_to tc1)
                         (transition_criteria nd)).
      intros F Hin1 Hin2. rewrite Ht1. cbn.
      destruct (bool_decide (t ∈ node_name <$> nodes)); cbn; [|discriminate].
      rewrite bool_decide_eq_true_2; [discriminate|].
      now apply (flags_disagree _ tc1 tc2).
  - exists nd, (transition_to tc,
                filter (fun tc' => transition_to tc' = transition_to tc)
                       (transition_criteria nd)).
    split; [exact Hnd | split].
    + now apply edges_lookup_elem_of, transition_edges_lookup.
    + assert (Hin : tc ∈ filter (fun tc' => transition_to tc' = transition_to tc)
                                (transition_criteria nd))
        by (apply list_elem_of_filter; now split).
      revert Hin.
      generalize (filter (fun tc' => transition_to tc' = transition_to tc)
                         (transition_criteria nd)).
      intros F Hin. rewrite Ht. cbn.
      destruct (check_null_target_result F) as [-> | [_ Hall]]; [discriminate|].
      rewrite (Hall tc Hin) in Hmp. discriminate.
Qed.

(** C8: constructing a node-based strategy fails with
    [GenerationStrategyMisconfiguredException] whenever a criterion's
    [transition_to] names a node that is not in the strategy, or two
    criteria on one node-to-node edge disagree on
    [continue_trial_generation], or a criterion that is not of
    max-parallelism type has no [transition_to]. *)
Theorem malformed_graph_rejected (name : option string) (nodes : list GenerationNode) :
  malformed_graph nodes ->
  init_with_nodes name nodes = Err GenerationStrategyMisconfiguredException.
Proof.
  intros Hbad. apply malformed_graph_edge in Hbad as (nd & edge & Hnd & Hedge & Hv).
  unfold init_with_nodes. destruct (is_node_based nodes); [|reflexivity].
  unfold _validate_and_set_node_graph, mbind, result_bind.
  destruct (collect_node_names_result nodes []) as [-> | ->]; [reflexivity|].
  cbn [app].
  destruct (validate_nodes_result (node_name <$> nodes) nodes) as [-> | [_ Hall]];
    [reflexivity|].
  contradiction Hv. now apply (Hall nd).
Qed.

Lemma malformed_graph_rejected_witness :
  init_with_nodes None
    [ Scenario.node_A;
      {| node_name := "C"; is_GenerationStep := false; model_specs := [];
         transition_criteria := [ {| criterion_class := "MinTrials";
                                     transition_to := Some "D";
                                     continue_trial_generation := false |} ];
         _previous_node_name := None; _should_skip := false;
         _fitted_model := None |} ]
  = Err GenerationStrategyMisconfiguredException.
Proof.
  apply malformed_graph_rejected.
  eapply (unknown_target _ Scenario.node_A Scenario.tc_A_to_B "B").
  - apply list_elem_of_here.
  - apply list_elem_of_here.
  - reflexivity.
  - cbn. intros Hin. repeat (apply elem_of_cons in Hin as [Hin | Hin]; [discriminate|]).
    now apply elem_of_nil in Hin.
Defined.

(** * Further properties *)

(** ** The constructor accepts exactly the well-formed graphs *)

Lemma collect_node_names_Ok (ns : list GenerationNode) :
  forall acc l,
    collect_node_names ns acc = Ok l <->
    l = acc ++ (node_name <$> ns) /\
    NoDup (node_name <$> ns) /\
    (forall x, x ∈ (node_name <$> ns) -> x ∉ acc).
Proof.
  induction ns as [|nd ns IH]; intros acc l; cbn.
  - rewrite app_nil_r. split.
    + intros [= <-]. split; [reflexivity|]. split; [constructor|].
      intros x Hx. now apply elem_of_nil in Hx.
    + now intros [-> _].
  - destruct (bool_decide (node_name nd ∈ acc)) eqn:Hin.
    + apply bool_decide_eq_true in Hin. split; [discriminate|].
      intros (_ & _ & Hacc). exfalso. apply (Hacc (node_name nd)); [|exact Hin].
      apply list_elem_of_here.
    + apply bool_decide_eq_false in Hin. rewrite IH, <- app_assoc. cbn.
      split.
      * intros (-> & Hnd & Hacc). split; [reflexivity|]. split.
        -- constructor; [|exact Hnd]. intros Hx. apply (Hacc _ Hx).
           apply elem_of_app. right. apply list_elem_of_here.
        -- intros x Hx Hxacc. apply elem_of_cons in Hx as [-> | Hx]; [contradiction|].
           apply (Hacc x Hx). apply elem_of_app. now left.
      * intros (-> & Hnd & Hacc). apply NoDup_cons in Hnd as [Hhd Hnd].
        split; [reflexivity|]. split; [exact Hnd|].
        intros x Hx Hxacc. apply elem_of_app in Hxacc as [Hxacc | Hxacc].
        -- apply (Hacc x); [now apply list_elem_of_further | exact Hxacc].
        -- apply list_elem_of_singleton in Hxacc. now subst x.
Qed.

Lemma check_null_target_Ok (tcs : list TransitionCriterion) :
  (forall tc, tc ∈ tcs -> max_parallelism_type tc = true) ->
  check_null_target tcs = Ok tt.
Proof.
  induction tcs as [|tc tcs IH]; intros Hall; cbn; [reflexivity|].
  assert (Hm := Hall tc ltac:(apply list_elem_of_here)).
  unfold max_parallelism_type in Hm. rewrite Hm. cbn.
  apply IH. intros tc' Hin. apply Hall. now apply list_elem_of_further.
Qed.

Lemma validate_edges_Ok (node_names : list string)
    (edges : list (option string * list TransitionCriterion)) :
  (forall edge, edge ∈ edges -> validate_edge node_names edge = Ok tt) ->
  validate_edges node_names edges = Ok tt.
Proof.
  induction edges as [|edge edges IH]; intros Hall; cbn; [reflexivity|].
  unfold mbind, result_bind. rewrite (Hall edge) by apply list_elem_of_here.
  apply IH. intros edge' Hin. apply Hall. now apply list_elem_of_further.
Qed.

Lemma validate_nodes_Ok (node_names : list string) (ns : list GenerationNode) :
  (forall nd edge, nd ∈ ns -> edge ∈ transition_edges nd ->
                   validate_edge node_names edge = Ok tt) ->
  validate_nodes node_names ns = Ok tt.
Proof.
  induction ns as [|nd ns IH]; intros Hall; cbn; [reflexivity|].
  unfold mbind, result_bind. rewrite validate_edges_Ok.
  - apply IH. intros nd' edge Hin. apply Hall. now apply list_elem_of_further.
  - intros edge Hin. apply (Hall nd); [apply list_elem_of_here | exact Hin].
Qed.

(** Every edge of a node is a non-empty group of criteria of the node, all
    with the edge's key as target. *)
Lemma edges_add_groups (L : list TransitionCriterion) (k1 : option string)
    (tc1 : TransitionCriterion)
    (edges : list (option string * list TransitionCriterion)) :
  tc1 ∈ L -> transition_to tc1 = k1 ->
  (forall k tcs, (k, tcs) ∈ edges ->
     tcs <> [] /\ forall tc, tc ∈ tcs -> tc ∈ L /\ transition_to tc = k) ->
  forall k tcs, (k, tcs) ∈ edges_add k1 tc1 edges ->
    tcs <> [] /\ forall tc, tc ∈ tcs -> tc ∈ L /\ transition_to tc = k.
Proof.
  intros H1 Hk1. induction edges as [|[k' tcs'] rest IH]; intros Hall k tcs Hin; cbn in Hin.
  - apply list_elem_of_singleton in Hin. injection Hin as -> ->.
    split; [discriminate|]. intros tc Htc. apply list_elem_of_singleton in Htc.
    now subst tc.
  - destruct (decide (k1 = k')) as [->|Hne].
    + apply elem_of_cons in Hin as [Hin | Hin].
      * injection Hin as -> ->.
        destruct (Hall k' tcs' ltac:(apply list_elem_of_here)) as [_ Hold].
        split; [now destruct tcs'|]. intros tc Htc.
        apply elem_of_app in Htc as [Htc | Htc]; [now apply Hold|].
        apply list_elem_of_singleton in Htc. now subst tc.
      * apply Hall. now apply list_elem_of_further.
    + apply elem_of_cons in Hin as [Hin | Hin].
      * injection Hin as -> ->. apply Hall. apply list_elem_of_here.
      * apply IH; [|exact Hin]. intros k0 tcs0 Hin0. apply Hall.
        now apply list_elem_of_further.
Qed.

Lemma transition_edges_groups (nd : GenerationNode) (k : option string)
    (tcs : list TransitionCriterion) :
  (k, tcs) ∈ transition_edges nd ->
  tcs <> [] /\
  forall tc, tc ∈ tcs -> tc ∈ transition_criteria nd /\ transition_to tc = k.
Proof.
  unfold transition_edges.
  assert (Hgen : forall l acc,
    (forall tc, tc ∈ l -> tc ∈ transition_criteria nd) ->
    (forall k tcs, (k, tcs) ∈ acc ->
       tcs <> [] /\ forall tc, tc ∈ tcs -> tc ∈ transition_criteria nd /\ transition_to tc = k) ->
    forall k tcs,
      (k, tcs) ∈ fold_left (fun edges tc => edges_add (transition_to tc) tc edges) l acc ->
      tcs <> [] /\ forall tc, tc ∈ tcs -> tc ∈ transition_criteria nd /\ transition_to tc = k).
  { induction l as [|a l IH]; intros acc Hl Hacc k0 tcs0 Hin; cbn in Hin.
    - now apply Hacc.
    - eapply IH; [| |exact Hin].
      + intros tc Htc. apply Hl. now apply list_elem_of_further.
      + apply edges_add_groups; [apply Hl, list_elem_of_here | reflexivity | exact Hacc]. }
  apply Hgen; [auto|]. intros k0 tcs0 Hin. now apply elem_of_nil in Hin.
Qed.

(** A set of flags with more than one element holds both flags. *)
Lemma flags_both (X : gset bool) : (1 < size X)%nat -> true ∈ X /\ false ∈ X.
Proof.
  intros Hsize.
  destruct (decide (true ∈ X)) as [Ht|Ht], (decide (false ∈ X)) as [Hf|Hf]; [done| | |].
  - assert (X ⊆ {[true]}) as Hsub by (intros [] Hb; set_solver).
    apply subseteq_size in Hsub. rewrite size_singleton in Hsub. lia.
  - assert (X ⊆ {[false]}) as Hsub by (intros [] Hb; set_solver).
    apply subseteq_size in Hsub. rewrite size_singleton in Hsub. lia.
  - assert (X ⊆ ∅) as Hsub by (intros [] Hb; set_solver).
    apply subseteq_size in Hsub. rewrite size_empty in Hsub. lia.
Qed.

(** In a graph that is not malformed the validation accepts every edge. *)
Lemma sound_graph_edge (nodes : list GenerationNode) (nd : GenerationNode)
    (edge : option string * list TransitionCriterion) :
  ~ malformed_graph nodes -> nd ∈ nodes -> edge ∈ transition_edges nd ->
  validate_edge (node_name <$> nodes) edge = Ok tt.
Proof.
  intros Hgood Hnd Hedge. destruct edge as [k tcs].
  apply transition_edges_groups in Hedge as [Hne Htcs].
  destruct k as [t|]; cbn.
  - destruct (bool_decide (t ∈ node_name <$> nodes)) eqn:Hin; cbn.
    + destruct (bool_decide (1 < size _)%nat) eqn:Hsize; [|reflexivity].
      apply bool_decide_eq_true, flags_both in Hsize as [Ht Hf].
      apply elem_of_list_to_set, list_elem_of_fmap in Ht as (tc1 & Hb1 & Hin1).
      apply elem_of_list_to_set, list_elem_of_fmap in Hf as (tc2 & Hb2 & Hin2).
      destruct (Htcs tc1 Hin1) as [Hc1 Ht1], (Htcs tc2 Hin2) as [Hc2 Ht2].
      contradiction Hgood.
      apply (edge_disagrees nodes nd tc1 tc2 t); try assumption. congruence.
    + apply bool_decide_eq_false in Hin. destruct tcs as [|tc tcs]; [contradiction|].
      destruct (Htcs tc ltac:(apply list_elem_of_here)) as [Hc Ht].
      contradiction Hgood. now apply (unknown_target nodes nd tc t).
  - apply check_null_target_Ok. intros tc Hin.
    destruct (max_parallelism_type tc) eqn:Hmp; [reflexivity|].
    destruct (Htcs tc Hin) as [Hc Ht].
    contradiction Hgood. now apply (missing_target nodes nd tc).
Qed.

Lemma is_node_based_true (ns : list GenerationNode) :
  is_node_based ns = true <-> forall nd, nd ∈ ns -> is_GenerationStep nd = false.
Proof.
  unfold is_node_based.
  assert (Hall : forallb (fun _ : GenerationNode => true) ns = true)
    by (induction ns; cbn; auto).
  rewrite Hall, andb_true_r, negb_true_iff. split.
  - intros Hex nd Hin. destruct (is_GenerationStep nd) eqn:Hs; [|reflexivity].
    assert (existsb is_GenerationStep ns = true); [|congruence].
    apply existsb_exists. exists nd. split; [now apply list_elem_of_In | exact Hs].
  - intros Hno. destruct (existsb is_GenerationStep ns) eqn:Hex; [|reflexivity].
    apply existsb_exists in Hex as (nd & Hin & Hs).
    apply list_elem_of_In in Hin. rewrite (Hno nd Hin) in Hs. discriminate.
Qed.

Lemma init_with_nodes_Ok (name : option string) (nodes : list GenerationNode)
    (s : GenerationStrategy) :
  init_with_nodes name nodes = Ok s <->
  well_formed_graph nodes /\ s = fresh_strategy name nodes.
Proof.
  unfold init_with_nodes, well_formed_graph. split.
  - destruct (is_node_based nodes) eqn:Hnb0; [|discriminate].
    assert (Hnb := proj1 (is_node_based_true nodes) Hnb0).
    unfold _validate_and_set_node_graph, mbind at 2 3, result_bind at 2 3.
    destruct (collect_node_names nodes []) as [names|ex] eqn:Hc; [|discriminate].
    apply collect_node_names_Ok in Hc as (-> & Hnd & _). cbn [app].
    destruct (validate_nodes_result (node_name <$> nodes) nodes) as [-> | [-> Hall]];
      [discriminate|].
    destruct nodes as [|nd0 nodes']; [discriminate|].
    unfold mbind, result_bind.
    assert (Hname : match name with
                    | Some nm => if String.eqb nm "" then _make_default_name (nd0 :: nodes')
                                 else Ok nm
                    | None => _make_default_name (nd0 :: nodes')
                    end = Ok (_name (fresh_strategy name (nd0 :: nodes')))).
    { destruct name as [nm|]; cbn; [destruct (String.eqb nm "")|]; reflexivity. }
    rewrite Hname. intros [= <-].
    split; [|reflexivity]. split; [discriminate|]. split; [exact Hnb|].
    split; [exact Hnd|]. intros Hbad.
    apply malformed_graph_edge in Hbad as (nd & edge & Hin & Hedge & Hv).
    apply Hv. now apply (Hall nd).
  - intros [(Hne & Hnb & Hnd & Hgood) ->].
    rewrite (proj2 (is_node_based_true nodes) Hnb).
    unfold _validate_and_set_node_graph, mbind, result_bind.
    assert (Hc : collect_node_names nodes [] = Ok (node_name <$> nodes)).
    { apply collect_node_names_Ok. split; [reflexivity|]. split; [exact Hnd|].
      intros x _ Hx. now apply elem_of_nil in Hx. }
    rewrite Hc, validate_nodes_Ok.
    + destruct nodes as [|nd0 nodes']; [contradiction|].
      unfold fresh_strategy, _make_default_name.
      destruct name as [nm|]; [destruct (String.eqb nm "")|]; reflexivity.
    + intros nd edge. now apply sound_graph_edge.
Qed.

(** X1: the constructor of a node-based strategy succeeds exactly on a
    non-empty list of nodes, none of them a [GenerationStep], with distinct
    names and a graph that is not malformed; the strategy it builds holds
    those nodes, points at the first, has no runs, no experiment and no
    model, and is called by the name given or, without one, by the node
    names joined with [+]. *)
Theorem constructor_accepts_well_formed (name : option string)
    (nodes : list GenerationNode) (s : GenerationStrategy) :
  init_with_nodes name nodes = Ok s <->
  well_formed_graph nodes /\ s = fresh_strategy name nodes.
Proof. apply init_with_nodes_Ok. Qed.

Lemma constructor_accepts_well_formed_witness :
  well_formed_graph [Scenario.node_A; Scenario.node_B] /\
  Scenario.strategy = fresh_strategy None [Scenario.node_A; Scenario.node_B].
Proof.
  apply (proj1 (constructor_accepts_well_formed None
                  [Scenario.node_A; Scenario.node_B] Scenario.strategy)).
  vm_compute. reflexivity.
Defined.

(** The failures of the constructor's validation. *)
Lemma init_with_nodes_Err (name : option string) (nodes : list GenerationNode)
    (ex : exn) :
  init_with_nodes name nodes = Err ex ->
  (nodes = [] /\ ex = IndexError) \/
  (nodes <> [] /\ ex = GenerationStrategyMisconfiguredException).
Proof.
  unfold init_with_nodes.
  destruct (is_node_based nodes) eqn:Hnb.
  - unfold _validate_and_set_node_graph, mbind at 2 3, result_bind at 2 3.
    destruct (collect_node_names_result nodes []) as [Hc | Hc]; rewrite Hc.
    + intros [= <-]. right. split; [|reflexivity]. intros ->. discriminate.
    + cbn [app].
      destruct (validate_nodes_result (node_name <$> nodes) nodes) as [Hv | [Hv _]];
        rewrite Hv.
      * intros [= <-]. right. split; [|reflexivity]. intros ->. discriminate.
      * destruct nodes as [|nd0 nodes'].
        -- intros [= <-]. now left.
        -- unfold mbind, result_bind.
           destruct name as [nm|]; cbn; [destruct (String.eqb nm "")|]; discriminate.
  - intros [= <-]. right. split; [|reflexivity]. intros ->. discriminate.
Qed.

(** X2: the constructor fails with [IndexError] on an empty list of nodes
    and with [GenerationStrategyMisconfiguredException] in every other case
    of failure. *)
Theorem constructor_failures (name : option string) (nodes : list GenerationNode) :
  init_with_nodes name [] = Err IndexError /\
  (nodes <> [] -> forall ex,
     init_with_nodes name nodes = Err ex ->
     ex = GenerationStrategyMisconfiguredException).
Proof.
  split; [reflexivity|]. intros Hne ex Herr.
  apply init_with_nodes_Err in Herr as [[-> _] | [_ ->]]; [contradiction | reflexivity].
Qed.

(** X3: two nodes of the same name make the constructor fail with
    [GenerationStrategyMisconfiguredException]. *)
Theorem duplicate_names_rejected (name : option string) (nodes : list GenerationNode)
    (i j : nat) (nd1 nd2 : GenerationNode) :
  nodes !! i = Some nd1 -> nodes !! j = Some nd2 -> i <> j ->
  node_name nd1 = node_name nd2 ->
  init_with_nodes name nodes = Err GenerationStrategyMisconfiguredException.
Proof.
  intros H1 H2 Hij Hname.
  destruct (init_with_nodes name nodes) as [s|ex] eqn:Hinit.
  - apply init_with_nodes_Ok in Hinit as [(_ & _ & Hnd & _) _].
    contradiction Hij.
    apply (NoDup_lookup _ i j (node_name nd1) Hnd); rewrite list_lookup_fmap.
    + now rewrite H1.
    + rewrite H2. cbn. now rewrite Hname.
  - apply init_with_nodes_Err in Hinit as [[-> _] | [_ ->]]; [|reflexivity].
    discriminate.
Qed.

Lemma duplicate_names_rejected_witness :
  init_with_nodes None [Scenario.node_B; Scenario.node_B]
  = Err GenerationStrategyMisconfiguredException.
Proof.
  apply (duplicate_names_rejected None [Scenario.node_B; Scenario.node_B] 0 1
           Scenario.node_B Scenario.node_B); [reflexivity | reflexivity | lia | reflexivity].
Defined.

(** X4: [clone_reset] of a node-based strategy, when it succeeds, gives a
    strategy with the same nodes that points at the first node and has no
    runs, no experiment and no model; cloning the clone gives the clone
    again. *)
Theorem clone_reset_fresh (s s' : GenerationStrategy) :
  clone_reset_node_based s = Ok s' ->
  _nodes s' = _nodes s /\ _curr s' = 0%nat /\ _generator_runs s' = [] /\
  _experiment s' = None /\ _model s' = None /\
  last_generator_run s' = None /\
  clone_reset_node_based s' = Ok s'.
Proof.
  unfold clone_reset_node_based. intros Hc.
  apply init_with_nodes_Ok in Hc as [Hwf ->]. cbn.
  repeat split. apply init_with_nodes_Ok. split; [exact Hwf|].
  unfold fresh_strategy. f_equal.
  destruct (String.eqb (_name s) "") eqn:He; [|now rewrite He].
  now destruct (String.eqb (String.concat "+" (node_name <$> _nodes s)) "").
Qed.

Lemma clone_reset_fresh_witness :
  clone_reset_node_based Scenario.strategy = Ok Scenario.strategy.
Proof.
  apply (clone_reset_fresh Scenario.strategy Scenario.strategy).
  vm_compute. reflexivity.
Defined.

Lemma constructor_failures_witness :
  [Scenario.node_B; Scenario.node_B] <> [] /\
  exists ex,
    init_with_nodes None [Scenario.node_B; Scenario.node_B] = Err ex /\
    ex = GenerationStrategyMisconfiguredException.
Proof.
  split; [discriminate|].
  destruct (init_with_nodes None [Scenario.node_B; Scenario.node_B]) as [s|ex] eqn:Hi;
    [vm_compute in Hi; discriminate|].
  exists ex. split; [reflexivity|].
  apply (proj2 (constructor_failures None [Scenario.node_B; Scenario.node_B]));
    [discriminate | exact Hi].
Defined.

(** ** Looking nodes up by name *)

Lemma nodes_dict_from_lookup (nm : string) (ns : list GenerationNode) :
  forall (i : nat) (d : gmap string nat),
    nodes_dict_from i ns d !! nm = last_named nm i ns (d !! nm).
Proof.
  induction ns as [|nd ns IH]; intros i d; cbn; [reflexivity|].
  rewrite IH, lookup_insert.
  destruct (String.eqb_spec (node_name nd) nm) as [Heq|Hne].
  - now rewrite decide_True.
  - now rewrite decide_False.
Qed.

Lemma last_named_Some (nm : string) (ns : list GenerationNode) :
  forall (i : nat) (o : option nat) (j : nat),
    last_named nm i ns o = Some j <->
    (exists k nd, j = (i + k)%nat /\ ns !! k = Some nd /\ node_name nd = nm /\
       forall k' nd', (k < k')%nat -> ns !! k' = Some nd' -> node_name nd' <> nm) \/
    ((forall nd, nd ∈ ns -> node_name nd <> nm) /\ o = Some j).
Proof.
  induction ns as [|nd ns IH]; intros i o j; cbn.
  - split.
    + intros ->. right. split; [|reflexivity]. intros nd Hin. now apply elem_of_nil in Hin.
    + intros [(k & nd & _ & Hk & _) | [_ ->]]; [discriminate | reflexivity].
  - rewrite IH. split.
    + intros [(k & nd' & -> & Hk & Hnm & Hlast) | [Hnone Ho]].
      * left. exists (S k), nd'. split; [lia|]. split; [exact Hk|]. split; [exact Hnm|].
        intros [|k'] nd'' Hlt Hk'; [lia|]. apply (Hlast k'); [lia | exact Hk'].
      * destruct (String.eqb_spec (node_name nd) nm) as [Heq|Hne].
        -- injection Ho as <-. left. exists 0%nat, nd. split; [lia|].
           split; [reflexivity|]. split; [exact Heq|].
           intros [|k'] nd'' Hlt Hk'; [lia|]. apply Hnone.
           cbn in Hk'. eapply list_elem_of_lookup_2. exact Hk'.
        -- right. split; [|exact Ho]. intros nd' Hin.
           apply elem_of_cons in Hin as [-> | Hin]; [exact Hne | now apply Hnone].
    + intros [(k & nd' & -> & Hk & Hnm & Hlast) | [Hnone ->]].
      * destruct k as [|k].
        -- injection Hk as <-. right. split.
           ++ intros nd' Hin. apply list_elem_of_lookup_1 in Hin as [k' Hk'].
              apply (Hlast (S k') nd'); [lia | exact Hk'].
           ++ destruct (String.eqb_spec (node_name nd) nm); [f_equal; lia | contradiction].
        -- left. exists k, nd'. split; [lia|]. split; [exact Hk|]. split; [exact Hnm|].
           intros k' nd'' Hlt Hk'. apply (Hlast (S k') nd''); [lia | exact Hk'].
      * right. split.
        -- intros nd' Hin. apply Hnone. now apply list_elem_of_further.
        -- destruct (String.eqb_spec (node_name nd) nm) as [Heq|Hne]; [|reflexivity].
           contradiction (Hnone nd (list_elem_of_here _ _)).
Qed.

Lemma nodes_dict_from_dom (ns : list GenerationNode) :
  forall (i : nat) (d : gmap string nat),
    dom (nodes_dict_from i ns d) = dom d ∪ list_to_set (node_name <$> ns).
Proof.
  induction ns as [|nd ns IH]; intros i d; cbn.
  - set_solver.
  - rewrite IH, dom_insert_L. set_solver.
Qed.

Lemma nodes_dict_lookup_Some (s : GenerationStrategy) (nm : string) (j : nat) :
  nodes_dict s !! nm = Some j <->
  exists nd, _nodes s !! j = Some nd /\ node_name nd = nm /\
    forall k nd', (j < k)%nat -> _nodes s !! k = Some nd' -> node_name nd' <> nm.
Proof.
  unfold nodes_dict. rewrite nodes_dict_from_lookup, last_named_Some, lookup_empty.
  split.
  - intros [(k & nd & -> & Hrest) | [_ Hn]]; [|discriminate]. now exists nd.
  - intros (nd & Hrest). left. now exists j, nd.
Qed.

Lemma nodes_dict_lookup_None (s : GenerationStrategy) (nm : string) :
  nodes_dict s !! nm = None <-> forall nd, nd ∈ _nodes s -> node_name nd <> nm.
Proof.
  rewrite <- not_elem_of_dom. unfold nodes_dict.
  rewrite nodes_dict_from_dom, dom_empty_L, union_empty_l_L, elem_of_list_to_set.
  rewrite list_elem_of_fmap. split.
  - intros Hno nd Hin Heq. apply Hno. now exists nd.
  - intros Hno (nd & -> & Hin). now apply (Hno nd).
Qed.

(** With distinct names, a node's name leads to its position. *)
Lemma nodes_dict_lookup_NoDup (s : GenerationStrategy) (j : nat) (nd : GenerationNode) :
  NoDup (node_name <$> _nodes s) -> _nodes s !! j = Some nd ->
  nodes_dict s !! node_name nd = Some j.
Proof.
  intros Hnd Hj. apply nodes_dict_lookup_Some. exists nd.
  split; [exact Hj|]. split; [reflexivity|].
  intros k nd' Hlt Hk Heq.
  assert (k = j); [|lia].
  apply (NoDup_lookup _ k j (node_name nd) Hnd); rewrite list_lookup_fmap.
  - rewrite Hk. cbn. now rewrite Heq.
  - now rewrite Hj.
Qed.

(** X5: [nodes_dict] maps a name to the last node of that name in
    [_nodes], and holds no entry exactly for the names no node has. *)
Theorem nodes_dict_last_of_name (s : GenerationStrategy) (nm : string) :
  (forall j,
     nodes_dict s !! nm = Some j <->
     exists nd, _nodes s !! j = Some nd /\ node_name nd = nm /\
       forall k nd', (j < k)%nat -> _nodes s !! k = Some nd' -> node_name nd' <> nm) /\
  (nodes_dict s !! nm = None <-> forall nd, nd ∈ _nodes s -> node_name nd <> nm).
Proof.
  split; [intros j; apply nodes_dict_lookup_Some | apply nodes_dict_lookup_None].
Qed.

(** X6: [_validate_arms_per_node] accepts a missing map and a map with an
    entry for every node name; a map lacking the name of some node is
    refused with [UserInputError].  The strategy is left as it was. *)
Theorem validate_arms_per_node_covers (w : World) (apn : gmap string Z) :
  _validate_arms_per_node None w = (Return tt, w) /\
  ((forall nd, nd ∈ _nodes (gs w) -> is_Some (apn !! node_name nd)) ->
   _validate_arms_per_node (Some apn) w = (Return tt, w)) /\
  (forall nd, nd ∈ _nodes (gs w) -> apn !! node_name nd = None ->
   _validate_arms_per_node (Some apn) w = (Raise UserInputError, w)).
Proof.
  split; [reflexivity|].
  assert (Hdom : dom (nodes_dict (gs w)) = list_to_set (node_name <$> _nodes (gs w))).
  { unfold nodes_dict. rewrite nodes_dict_from_dom. set_solver. }
  unfold _validate_arms_per_node, mbind, M_bind, get_gs. split.
  - intros Hall. rewrite bool_decide_eq_true_2; [reflexivity|].
    rewrite Hdom. intros nm Hnm.
    apply elem_of_list_to_set, list_elem_of_fmap in Hnm as (nd & -> & Hin).
    apply elem_of_dom. now apply Hall.
  - intros nd Hin Hnone. rewrite bool_decide_eq_false_2; [reflexivity|].
    rewrite Hdom. intros Hsub.
    assert (Hd : node_name nd ∈ dom apn).
    { apply Hsub, elem_of_list_to_set, list_elem_of_fmap. now exists nd. }
    apply elem_of_dom in Hd as [z Hz]. congruence.
Qed.

Lemma validate_arms_per_node_covers_witness :
  _validate_arms_per_node (Some {[ "A" := 1 ]}) (Scenario.world ∅)
  = (Raise UserInputError, Scenario.world ∅).
Proof.
  apply (proj2 (proj2 (validate_arms_per_node_covers (Scenario.world ∅) {[ "A" := 1 ]}))
           Scenario.node_B).
  - apply list_elem_of_further, list_elem_of_here.
  - reflexivity.
Defined.

(** ** Moving the pointer *)

Lemma move_to_named_moved (nm : string) (ns : list GenerationNode) :
  forall (i : nat) (o : option nat) (s : GenerationStrategy),
    move_to_named nm i ns (moved_to o s) = moved_to (last_named nm i ns o) s.
Proof.
  induction ns as [|nd ns IH]; intros i o s; cbn; [reflexivity|].
  destruct (String.eqb (node_name nd) nm).
  - rewrite <- (IH (S i) (Some i) s). f_equal. now destruct o.
  - apply IH.
Qed.

(** The loop of [_maybe_transition_to_next_node] moves the pointer to the
    node [nodes_dict] holds under the name, if any. *)
Lemma move_to_named_nodes_dict (nm : string) (s : GenerationStrategy) :
  move_to_named nm 0 (_nodes s) s = moved_to (nodes_dict s !! nm) s.
Proof.
  unfold nodes_dict. rewrite nodes_dict_from_lookup, lookup_empty.
  apply (move_to_named_moved nm (_nodes s) 0 None s).
Qed.

Section Transition.
Context `{Collaborators}.

(** How a call of [_maybe_transition_to_next_node] can end: with the world
    as it was and anything but [True], or with [True] and the pointer moved
    to a node of the strategy (or left where it was). *)
Lemma maybe_transition_cases (flag : bool) (w w' : World) (r : outcome bool) :
  _maybe_transition_to_next_node flag w = (r, w') ->
  (w' = w /\ r <> Return true) \/
  exists o, r = Return true /\ w' = on_gs (moved_to o) w /\
            forall j, o = Some j -> (j < length (_nodes (gs w)))%nat.
Proof.
  unfold _maybe_transition_to_next_node, curr_node, mbind, M_bind, get_gs.
  destruct (_nodes (gs w) !! _curr (gs w)) as [cur|]; cbn;
    [|intros [= <- <-]; left; split; [reflexivity | discriminate]].
  destruct (should_transition_to_next_node (gs w) cur flag) as [[[] next]|ex]; cbn.
  - destruct (optimization_complete (gs w)); cbn;
      [intros [= <- <-]; left; split; [reflexivity | discriminate]|].
    assert (Hmove : forall nm,
      exists o, on_gs (fun s => move_to_named nm 0 (_nodes s) s) w = on_gs (moved_to o) w /\
                forall j, o = Some j -> (j < length (_nodes (gs w)))%nat).
    { intros nm. exists (nodes_dict (gs w) !! nm). split.
      - unfold on_gs. now rewrite move_to_named_nodes_dict.
      - intros j Hj. apply nodes_dict_lookup_Some in Hj as (nd & Hnd & _).
        now apply lookup_lt_Some in Hnd. }
    destruct next as [nm|]; cbn.
    + intros [= <- <-]. right. destruct (Hmove nm) as (o & Ho & Hr).
      exists o. now rewrite <- Ho.
    + destruct (index_of_curr (gs w) cur) as [i|]; cbn;
        [|intros [= <- <-]; left; split; [reflexivity | discriminate]].
      destruct (_nodes (gs w) !! (i + 1)%nat) as [nxt|]; cbn;
        [|intros [= <- <-]; left; split; [reflexivity | discriminate]].
      intros [= <- <-]. right. destruct (Hmove (node_name nxt)) as (o & Ho & Hr).
      exists o. now rewrite <- Ho.
  - intros [= <- <-]. left. split; [reflexivity | discriminate].
  - intros [= <- <-]. left. split; [reflexivity | discriminate].
Qed.

(** X7: [_maybe_transition_to_next_node] touches nothing but the pointer
    [_curr] and the field [_model]: nodes, runs, experiment, name and the
    store are as before; the pointer stays within the nodes; and unless the
    call returns [True] the whole world is as before. *)
Theorem maybe_transition_footprint (flag : bool) (w w' : World) (r : outcome bool) :
  _maybe_transition_to_next_node flag w = (r, w') ->
  store w' = store w /\
  _nodes (gs w') = _nodes (gs w) /\
  _generator_runs (gs w') = _generator_runs (gs w) /\
  _experiment (gs w') = _experiment (gs w) /\
  _name (gs w') = _name (gs w) /\
  (curr_in_range (gs w) -> curr_in_range (gs w')) /\
  (r <> Return true -> w' = w).
Proof.
  intros Ht. apply maybe_transition_cases in Ht as [[-> Hr] | (o & -> & -> & Ho)].
  - repeat split; auto.
  - destruct o as [j|]; cbn; repeat split; auto; try contradiction.
    intros _. unfold curr_in_range. cbn. now apply Ho.
Qed.

(** When the check names a node and the strategy is not exhausted, the call
    returns [True] and the pointer is where [nodes_dict] says. *)
Lemma maybe_transition_by_name (flag : bool) (w : World) (cur : GenerationNode)
    (nm : string) :
  _nodes (gs w) !! _curr (gs w) = Some cur ->
  should_transition_to_next_node (gs w) cur flag = Ok (true, Some nm) ->
  optimization_complete (gs w) = false ->
  _maybe_transition_to_next_node flag w
  = (Return true, on_gs (moved_to (nodes_dict (gs w) !! nm)) w).
Proof.
  intros Hcur Hst Hnc.
  unfold _maybe_transition_to_next_node, curr_node, mbind, M_bind, get_gs.
  rewrite Hcur. cbn. rewrite Hst. cbn. rewrite Hnc. cbn.
  unfold on_gs. now rewrite move_to_named_nodes_dict.
Qed.

(** X8: when the current node's check names the node to go to and the
    strategy is not exhausted, the call returns [True] with the pointer on
    the node [nodes_dict] holds under that name and [_model] cleared; when
    no node has the name, it still returns [True], and nothing has moved. *)
Theorem transition_to_named (flag : bool) (w : World) (cur : GenerationNode)
    (nm : string) :
  _nodes (gs w) !! _curr (gs w) = Some cur ->
  should_transition_to_next_node (gs w) cur flag = Ok (true, Some nm) ->
  optimization_complete (gs w) = false ->
  (forall j, nodes_dict (gs w) !! nm = Some j ->
     _maybe_transition_to_next_node flag w
     = (Return true, on_gs (fun s => with_model None (with_curr j s)) w)) /\
  (nodes_dict (gs w) !! nm = None ->
     _maybe_transition_to_next_node flag w = (Return true, w)).
Proof.
  intros Hcur Hst Hnc.
  rewrite (maybe_transition_by_name flag w cur nm Hcur Hst Hnc). split.
  - intros j ->. reflexivity.
  - intros ->. now destruct w.
Qed.

(** With distinct names the current node is found at the pointer. *)
Lemma index_of_curr_NoDup (s : GenerationStrategy) (cur : GenerationNode) :
  NoDup (node_name <$> _nodes s) -> _nodes s !! _curr s = Some cur ->
  index_of_curr s cur = Some (_curr s).
Proof.
  intros Hnd Hcur. unfold index_of_curr.
  assert (Hfind : list_find (fun nd => nd = cur) (_nodes s) = Some (_curr s, cur)).
  { apply list_find_Some. split; [exact Hcur|]. split; [reflexivity|].
    intros j y Hj Hlt ->.
    assert (j = _curr s); [|lia].
    apply NoDup_fmap_1 in Hnd. now apply (NoDup_lookup _ j (_curr s) cur Hnd). }
  now rewrite Hfind.
Qed.

(** X9: when the check says to move without naming a node and the strategy
    is not exhausted, a strategy with distinct node names moves to the node
    after the current one, clearing [_model]; from the last node the call
    raises [IndexError] and changes nothing. *)
Theorem transition_to_successor (flag : bool) (w : World) (cur : GenerationNode) :
  NoDup (node_name <$> _nodes (gs w)) ->
  _nodes (gs w) !! _curr (gs w) = Some cur ->
  should_transition_to_next_node (gs w) cur flag = Ok (true, None) ->
  optimization_complete (gs w) = false ->
  (forall nxt, _nodes (gs w) !! (_curr (gs w) + 1)%nat = Some nxt ->
     _maybe_transition_to_next_node flag w
     = (Return true,
        on_gs (fun s => with_model None (with_curr (_curr (gs w) + 1)%nat s)) w)) /\
  (_nodes (gs w) !! (_curr (gs w) + 1)%nat = None ->
     _maybe_transition_to_next_node flag w = (Raise IndexError, w)).
Proof.
  intros Hnd Hcur Hst Hnc.
  assert (Hidx := index_of_curr_NoDup (gs w) cur Hnd Hcur).
  unfold _maybe_transition_to_next_node, curr_node, mbind, M_bind, get_gs.
  rewrite Hcur. cbn. rewrite Hst. cbn. rewrite Hnc. cbn. rewrite Hidx.
  split.
  - intros nxt Hnxt. rewrite Hnxt. cbn. unfold on_gs at 1.
    rewrite move_to_named_nodes_dict.
    now rewrite (nodes_dict_lookup_NoDup (gs w) _ nxt Hnd Hnxt).
  - intros Hnone. now rewrite Hnone.
Qed.

(** Subscripting the edges of a node with a target gives the criteria of
    the node with that target, none if no criterion names it. *)
Lemma edges_get_add (k k1 : option string) (tc : TransitionCriterion)
    (edges : list (option string * list TransitionCriterion)) :
  edges_get k (edges_add k1 tc edges) =
    if decide (k1 = k) then edges_get k edges ++ [tc] else edges_get k edges.
Proof.
  unfold edges_get. rewrite edges_lookup_add. now destruct (decide (k1 = k)).
Qed.

Lemma transition_edges_get (nd : GenerationNode) (k : option string)
    (tc : TransitionCriterion) :
  tc ∈ edges_get k (transition_edges nd) <->
  tc ∈ transition_criteria nd /\ transition_to tc = k.
Proof.
  unfold transition_edges.
  assert (Hgen : forall l acc,
    tc ∈ edges_get k (fold_left (fun edges tc => edges_add (transition_to tc) tc edges) l acc)
    <-> tc ∈ edges_get k acc \/ (tc ∈ l /\ transition_to tc = k)).
  { induction l as [|a l IH]; intros acc; cbn [fold_left].
    - split; [now left|]. intros [Hacc | [Hin _]]; [exact Hacc|].
      now apply elem_of_nil in Hin.
    - rewrite IH, edges_get_add, elem_of_cons.
      destruct (decide (transition_to a = k)) as [Ha|Ha].
      + rewrite elem_of_app, list_elem_of_singleton. split.
        * intros [[Hacc | ->] | [Hin Hk]]; [now left | right | right]; split; auto.
        * intros [Hacc | [[-> | Hin] Hk]]; [left; now left | left; now right | right; now split].
      + split.
        * intros [Hacc | [Hin Hk]]; [now left | right]. split; auto.
        * intros [Hacc | [[-> | Hin] Hk]]; [now left | contradiction | right; now split]. }
  rewrite Hgen. unfold edges_get. cbn. rewrite elem_of_nil. tauto.
Qed.

(** X10: [_should_continue_gen_for_trial] changes nothing, and it answers
    [True] exactly when the current node's check says to move to a named
    node and every criterion of the node with that target has
    [continue_trial_generation] set; in particular when no criterion of the
    node names the target. *)
Theorem should_continue_unanimous (w w' : World) (r : outcome bool) :
  _should_continue_gen_for_trial w = (r, w') ->
  w' = w /\
  (r = Return true <->
   exists cur nm,
     _nodes (gs w) !! _curr (gs w) = Some cur /\
     should_transition_to_next_node (gs w) cur false = Ok (true, Some nm) /\
     forall tc, tc ∈ transition_criteria cur -> transition_to tc = Some nm ->
                continue_trial_generation tc = true) /\
  (forall cur nm,
     _nodes (gs w) !! _curr (gs w) = Some cur ->
     should_transition_to_next_node (gs w) cur false = Ok (true, Some nm) ->
     (forall tc, tc ∈ transition_criteria cur -> transition_to tc <> Some nm) ->
     r = Return true).
Proof.
  assert (Hall : forall cur nm,
    forallb continue_trial_generation (edges_get (Some nm) (transition_edges cur)) = true
    <-> forall tc, tc ∈ transition_criteria cur -> transition_to tc = Some nm ->
                   continue_trial_generation tc = true).
  { intros cur nm. rewrite forallb_forall. split.
    - intros Hf tc Hin Ht. apply Hf, list_elem_of_In, transition_edges_get. now split.
    - intros Hf tc Hin. apply list_elem_of_In, transition_edges_get in Hin as [Hin Ht].
      now apply Hf. }
  assert (Hno : forall w0 r0,
    (forall cur nm, _nodes (gs w) !! _curr (gs w) = Some cur ->
       should_transition_to_next_node (gs w) cur false <> Ok (true, Some nm)) ->
    r0 <> Return true ->
    (r0, w) = (r, w0) ->
    w0 = w /\
    (r = Return true <->
     exists cur nm,
       _nodes (gs w) !! _curr (gs w) = Some cur /\
       should_transition_to_next_node (gs w) cur false = Ok (true, Some nm) /\
       forall tc, tc ∈ transition_criteria cur -> transition_to tc = Some nm ->
                  continue_trial_generation tc = true) /\
    (forall cur nm,
       _nodes (gs w) !! _curr (gs w) = Some cur ->
       should_transition_to_next_node (gs w) cur false = Ok (true, Some nm) ->
       (forall tc, tc ∈ transition_criteria cur -> transition_to tc <> Some nm) ->
       r = Return true)).
  { intros w0 r0 Hnever Hr0 [= <- <-]. split; [reflexivity|]. split.
    - split; [intros Hr; contradiction|].
      intros (c & nm & Hc1 & Hc2 & _). now contradiction (Hnever c nm Hc1).
    - intros c nm Hc1 Hc2 _. now contradiction (Hnever c nm Hc1). }
  unfold _should_continue_gen_for_trial, curr_node, mbind, M_bind, get_gs.
  destruct (_nodes (gs w) !! _curr (gs w)) as [cur|] eqn:Hcur; cbn;
    [|apply Hno; [intros c nm Hc |]; discriminate].
  destruct (should_transition_to_next_node (gs w) cur false) as [[st next]|ex] eqn:Hst; cbn;
    [|apply Hno; [|discriminate]; intros c nm [= <-]; rewrite Hst; discriminate].
  destruct st; cbn;
    [|apply Hno; [|discriminate]; intros c nm [= <-]; rewrite Hst; discriminate].
  destruct next as [nm|]; cbn;
    [|apply Hno; [|discriminate]; intros c nm [= <-]; rewrite Hst; discriminate].
  intros [= <- <-]. split; [reflexivity|]. split.
  - split.
    + intros [= Hf]. exists cur, nm. split; [reflexivity|]. split; [exact Hst|].
      now apply Hall.
    + intros (c & nm' & [= <-] & Hc2 & Hf).
      rewrite Hst in Hc2. injection Hc2 as <-. f_equal. now apply Hall.
  - intros c nm' [= <-] Hc2 Hnone.
    rewrite Hst in Hc2. injection Hc2 as <-. f_equal. apply Hall.
    intros tc Hin Ht. now contradiction (Hnone tc Hin).
Qed.

End Transition.

Section TransitionRuns.
Import Scenario.

Lemma maybe_transition_footprint_witness :
  let w := world ∅ in
  let r := _maybe_transition_to_next_node (H := env all_data) true w in
  store (snd r) = store w /\
  _nodes (gs (snd r)) = _nodes (gs w) /\
  _generator_runs (gs (snd r)) = _generator_runs (gs w) /\
  _experiment (gs (snd r)) = _experiment (gs w) /\
  _name (gs (snd r)) = _name (gs w) /\
  (curr_in_range (gs w) -> curr_in_range (gs (snd r))) /\
  (fst r <> Return true -> snd r = w).
Proof.
  intros w r.
  apply (maybe_transition_footprint (H := env all_data) true w (snd r) (fst r)).
  vm_compute. reflexivity.
Defined.

(** After [A] has generated, its check names [B]: the pointer moves there. *)
Lemma transition_to_named_witness :
  _maybe_transition_to_next_node (H := env B_needs_data) true B_pass1
  = (Return true, on_gs (fun s => with_model None (with_curr 1%nat s)) B_pass1).
Proof.
  apply (proj1 (transition_to_named (H := env B_needs_data) true B_pass1
                  (set_fitted_model (Some "A") node_A) "B"
                  ltac:(vm_compute; reflexivity) ltac:(vm_compute; reflexivity)
                  ltac:(vm_compute; reflexivity))).
  vm_compute. reflexivity.
Defined.

(** From [A] the successor is [B]; from [B] there is none. *)
Lemma transition_to_successor_witness :
  _maybe_transition_to_next_node (H := Scenario2.positional) true (Scenario2.at_B ∅)
  = (Raise IndexError, Scenario2.at_B ∅).
Proof.
  apply (proj2 (transition_to_successor (H := Scenario2.positional) true
                  (Scenario2.at_B ∅) node_B
                  ltac:(vm_compute; repeat constructor; set_solver)
                  ltac:(reflexivity) ltac:(reflexivity) ltac:(reflexivity))).
  reflexivity.
Defined.

(** Node [B] has no criterion at all: asked whether to go on towards a node
    from there, the strategy says yes. *)
Lemma should_continue_unanimous_witness :
  _should_continue_gen_for_trial (H := Scenario2.towards "A") (Scenario2.at_B ∅)
  = (Return true, Scenario2.at_B ∅).
Proof.
  destruct (_should_continue_gen_for_trial (H := Scenario2.towards "A") (Scenario2.at_B ∅))
    as [r w'] eqn:Hrun.
  destruct (should_continue_unanimous (H := Scenario2.towards "A")
              (Scenario2.at_B ∅) w' r Hrun) as (-> & _ & Hvac).
  f_equal. apply (Hvac node_B "A"); [reflexivity | reflexivity|].
  intros tc Hin. now apply elem_of_nil in Hin.
Defined.

End TransitionRuns.

(** ** What a generation call is made of

    Whatever a generation call does, and however it ends, the world it
    leaves is reached from the world it started in by elementary steps:
    binding the experiment, updating a node in place, moving the pointer to
    a named node, setting [_model], appending a run, writing to the store. *)

Section Footprint.
Context `{Collaborators}.
Context (e : Experiment.t).

Lemma footprint_gs (f : GenerationStrategy -> GenerationStrategy) (w : World) :
  gs_update e f -> rtc (gen_step e) w (on_gs f w).
Proof. intros Hf. apply rtc_once. now constructor. Qed.

Lemma footprint_store (f : Store -> Store) (w : World) :
  rtc (gen_step e) w (on_store f w).
Proof. apply rtc_once. constructor. Qed.

Lemma footprint_modify_gs (f : GenerationStrategy -> GenerationStrategy) :
  gs_update e f -> preserves (rtc (gen_step e)) (modify_gs f).
Proof. intros Hf. apply preserves_modify_gs. intros w. now apply footprint_gs. Qed.

Lemma footprint_maybe_transition (flag : bool) :
  preserves (rtc (gen_step e)) (_maybe_transition_to_next_node flag).
Proof.
  unfold _maybe_transition_to_next_node.
  apply preserves_bind; [apply _ | apply preserves_curr_node; apply _ | intros cur].
  apply preserves_bind; [apply _ | apply preserves_get_gs; apply _ | intros s].
  apply preserves_bind; [apply _ | apply preserves_lift_result; apply _ | intros [move next]].
  apply preserves_bind; [apply _ | | intros _; apply preserves_ret; apply _].
  destruct move; [|apply preserves_ret; apply _].
  destruct (optimization_complete s); [apply preserves_raise; apply _|].
  apply preserves_bind; [apply _ | |].
  - destruct next; [apply preserves_ret; apply _|].
    destruct (index_of_curr s cur); [|apply preserves_raise; apply _].
    destruct (_nodes s !! _); [apply preserves_ret | apply preserves_raise]; apply _.
  - intros nm. apply footprint_modify_gs. constructor.
Qed.

Lemma footprint_gen_loop_transition :
  preserves (rtc (gen_step e)) gen_loop_transition.
Proof.
  unfold gen_loop_transition.
  apply preserves_bind; [apply _ | apply preserves_curr_node; apply _ | intros cur].
  apply preserves_bind; [apply _ | apply preserves_get_gs; apply _ | intros s].
  apply preserves_bind; [apply _ | apply preserves_lift_result; apply _ | intros [st nm]].
  apply preserves_bind; [apply _ | |].
  { destruct (nm ≫= _); [apply preserves_ret | apply preserves_raise]; apply _. }
  intros i. apply preserves_bind; [apply _ | | intros _; apply footprint_maybe_transition].
  destruct st; [|apply preserves_ret; apply _].
  apply footprint_modify_gs. constructor.
Qed.

Lemma footprint_call_node_gen (args : GenArgs) (l : loc) (skip_fit : bool)
    (grs : list GeneratorRun) :
  preserves (rtc (gen_step e)) (call_node_gen e args l skip_fit grs).
Proof.
  unfold call_node_gen.
  apply preserves_bind; [apply _ | apply preserves_curr_node; apply _ | intros cur].
  apply preserves_bind; [apply _ | apply preserves_get_gs; apply _ | intros s].
  apply preserves_bind; [apply _ | apply preserves_get_store; apply _ | intros st].
  destruct (GenerationNode_gen _ _ _ _ _ _ _) as [cur' r].
  apply preserves_bind; [apply _ | | intros _; apply preserves_ret; apply _].
  apply footprint_modify_gs. constructor.
Qed.

Lemma footprint_gen_loop_body (args : GenArgs) (l : loc) (first : bool)
    (grs : list GeneratorRun) :
  preserves (rtc (gen_step e)) (gen_loop_body e args l first grs).
Proof.
  unfold gen_loop_body.
  apply preserves_bind; [apply _ | apply footprint_gen_loop_transition | intros t].
  apply preserves_bind; [apply _ | apply footprint_call_node_gen | intros r].
  destruct r as [[gr|]|ex].
  - apply preserves_bind; [apply _ | apply preserves_curr_node; apply _ | intros cur].
    apply preserves_bind; [apply _ | apply footprint_modify_gs; constructor | intros _].
    unfold gen_loop_record.
    apply preserves_bind; [apply _ | apply footprint_modify_gs; constructor | intros _].
    apply preserves_bind; [apply _ | | intros _].
    { apply preserves_modify_store. intros w. apply footprint_store. }
    apply preserves_bind; [apply _ | apply preserves_should_continue; apply _ | intros b].
    apply preserves_ret; apply _.
  - apply preserves_bind; [apply _ | apply preserves_curr_node; apply _ | intros cur].
    apply preserves_bind; [apply _ | apply footprint_modify_gs; constructor | intros _].
    apply preserves_ret; apply _.
  - destruct ex; try (apply preserves_raise; apply _).
    destruct (bool_decide _); [apply preserves_raise | apply preserves_ret]; apply _.
Qed.

Lemma footprint_gen_loop (args : GenArgs) (l : loc) (first : bool) (fuel : nat) :
  forall grs, preserves (rtc (gen_step e)) (gen_loop fuel e args l first grs).
Proof.
  induction fuel as [|fuel IH]; intros grs; cbn.
  - apply preserves_out_of_fuel; apply _.
  - apply preserves_bind; [apply _ | apply footprint_gen_loop_body | intros c].
    destruct c; [apply IH | apply preserves_ret; apply _].
Qed.

Lemma footprint_experiment_setter :
  preserves (rtc (gen_step e)) (experiment_setter e).
Proof.
  apply preserves_experiment_setter; [apply _|].
  intros w. apply footprint_gs. constructor.
Qed.

Lemma footprint_alloc (d : PendingObservations) :
  preserves (rtc (gen_step e)) (alloc d).
Proof. intros w r w' [= <- <-]. apply footprint_store. Qed.

Lemma footprint_gen_setup (args : GenArgs) (p : option loc) :
  preserves (rtc (gen_step e)) (gen_setup e args p).
Proof.
  unfold gen_setup.
  apply preserves_bind; [apply _ | apply footprint_modify_gs; constructor | intros _].
  apply preserves_bind; [apply _ | apply preserves_get_gs; apply _ | intros s].
  destruct (optimization_complete s); [apply preserves_raise; apply _|].
  apply preserves_bind; [apply _ | | intros l].
  { destruct p; [apply preserves_ret; apply _ | apply footprint_alloc]. }
  apply preserves_bind; [apply _ | apply footprint_experiment_setter | intros _].
  apply preserves_bind; [apply _ | | intros _; apply preserves_ret; apply _].
  apply preserves_validate_arms_per_node; apply _.
Qed.

Lemma footprint_gen_with_multiple_nodes (fuel : nat) (args : GenArgs) (p : option loc)
    (first : bool) :
  preserves (rtc (gen_step e)) (_gen_with_multiple_nodes fuel e args p first).
Proof.
  unfold _gen_with_multiple_nodes.
  apply preserves_bind; [apply _ | apply footprint_gen_setup | intros l].
  apply footprint_gen_loop.
Qed.

Lemma footprint_gen (fuel : nat) (data_ : option Data) (p : option loc) (n_ : Z)
    (ff : option ObservationFeatures) :
  preserves (rtc (gen_step e)) (gen fuel e data_ p n_ ff).
Proof.
  unfold gen.
  apply preserves_bind; [apply _ | apply footprint_experiment_setter | intros _].
  apply preserves_bind; [apply _ | apply footprint_gen_with_multiple_nodes | intros grs].
  unfold gen_single. destruct (bool_decide _); [apply preserves_raise; apply _|].
  destruct grs; [apply preserves_raise | apply preserves_ret]; apply _.
Qed.

Lemma footprint_gen_trials (fuel : nat) (args : GenArgs) (l : loc) (passes_ : nat) :
  forall acc, preserves (rtc (gen_step e)) (gen_trials passes_ fuel e args l acc).
Proof.
  induction passes_ as [|k IH]; intros acc; cbn.
  - apply preserves_ret; apply _.
  - apply preserves_bind; [apply _ | apply footprint_gen_with_multiple_nodes | intros grs].
    apply IH.
Qed.

Lemma footprint_gen_for_multiple_trials (fuel : nat) (args : GenArgs) (p : option loc)
    (num_trials : Z) :
  preserves (rtc (gen_step e))
    (gen_for_multiple_trials_with_multiple_models fuel e args p num_trials).
Proof.
  unfold gen_for_multiple_trials_with_multiple_models.
  apply preserves_bind; [apply _ | apply footprint_experiment_setter | intros _].
  apply preserves_bind; [apply _ | | intros l].
  { destruct p; [|apply footprint_alloc].
    apply preserves_bind; [apply _ | apply preserves_get_store; apply _ | intros st].
    apply footprint_alloc. }
  apply preserves_bind; [apply _ | apply preserves_curr_node; apply _ | intros cur].
  apply preserves_bind; [apply _ | apply preserves_get_gs; apply _ | intros s].
  apply preserves_bind; [apply _ | apply preserves_lift_result; apply _ | intros lim].
  apply footprint_gen_trials.
Qed.

(** A relation every elementary step respects holds across the call. *)
Lemma gen_steps_respect (I : World -> World -> Prop) `{!PreOrder I} (w w' : World) :
  (forall w1 w2, gen_step e w1 w2 -> I w1 w2) ->
  rtc (gen_step e) w w' -> I w w'.
Proof.
  intros Hstep Hrtc. induction Hrtc as [w|w w1 w2 Hs _ IH]; [reflexivity|].
  transitivity w1; [now apply Hstep | exact IH].
Qed.

End Footprint.

(** ** Invariants of a generation call *)

#[global] Instance runs_extended_preorder : PreOrder runs_extended.
Proof.
  split.
  - intros w. exists []. now rewrite app_nil_r.
  - intros a b c [n1 H1] [n2 H2]. exists (n1 ++ n2). now rewrite H2, H1, app_assoc.
Qed.

#[global] Instance nodes_kept_preorder : PreOrder nodes_kept.
Proof.
  split.
  - intros w. now split.
  - intros a b c [L1 C1] [L2 C2]. split; [congruence | auto].
Qed.

#[global] Instance binding_kept_preorder (e : Experiment.t) : PreOrder (binding_kept e).
Proof.
  split.
  - intros w. now split.
  - intros a b c [N1 E1] [N2 E2]. split; [congruence | auto].
Qed.

Lemma gen_step_runs_extended (e : Experiment.t) (w1 w2 : World) :
  gen_step e w1 w2 -> runs_extended w1 w2.
Proof.
  intros [f w Hf | f w]; [|exists []; cbn; now rewrite app_nil_r].
  destruct Hf as [|i f|nm|m|gr]; cbn.
  - exists []. cbn. now rewrite app_nil_r.
  - exists []. cbn. now rewrite app_nil_r.
  - exists []. cbn. now rewrite move_to_named_generator_runs, app_nil_r.
  - exists []. cbn. now rewrite app_nil_r.
  - now exists [gr].
Qed.

Lemma gen_step_nodes_kept (e : Experiment.t) (w1 w2 : World) :
  gen_step e w1 w2 -> nodes_kept w1 w2.
Proof.
  intros [f w Hf | f w]; [|now split].
  destruct Hf as [|i f|nm|m|gr]; unfold nodes_kept, curr_in_range; cbn.
  - now split.
  - rewrite length_alter. now split.
  - rewrite move_to_named_nodes_dict.
    destruct (nodes_dict (gs w) !! nm) as [j|] eqn:Hj; cbn; [|now split].
    split; [reflexivity|]. intros _.
    apply nodes_dict_lookup_Some in Hj as (nd & Hnd & _).
    now apply lookup_lt_Some in Hnd.
  - now split.
  - now split.
Qed.

Lemma gen_step_binding_kept (e : Experiment.t) (w1 w2 : World) :
  gen_step e w1 w2 -> binding_kept e w1 w2.
Proof.
  intros [f w Hf | f w]; [|now split].
  destruct Hf as [|i f|nm|m|gr]; unfold binding_kept; cbn; try now split.
  rewrite move_to_named_nodes_dict.
  now destruct (nodes_dict (gs w) !! nm).
Qed.

Section Invariants.
Context `{Collaborators}.
Context (fuel : nat) (e : Experiment.t) (w w' : World).

(** X11: the history of generator runs is append-only.  Whatever [gen],
    the multi-trial entry point or [_gen_with_multiple_nodes] does, and
    however it ends (by returning, by raising, or never), [_generator_runs]
    after the call is [_generator_runs] before it with runs added at the
    end. *)
Theorem generator_runs_append_only :
  (forall data_ p n_ ff r,
     gen fuel e data_ p n_ ff w = (r, w') -> runs_extended w w') /\
  (forall args p num_trials r,
     gen_for_multiple_trials_with_multiple_models fuel e args p num_trials w = (r, w') ->
     runs_extended w w') /\
  (forall args p first r,
     _gen_with_multiple_nodes fuel e args p first w = (r, w') -> runs_extended w w').
Proof.
  split; [|split]; intros; apply (gen_steps_respect e _ w w' (gen_step_runs_extended e)).
  - eapply footprint_gen; eauto.
  - eapply footprint_gen_for_multiple_trials; eauto.
  - eapply footprint_gen_with_multiple_nodes; eauto.
Qed.

(** X12: no generation call adds or removes a node, and a pointer [_curr]
    that refers to a node of the strategy still does after the call,
    however the call ends. *)
Theorem pointer_stays_in_range :
  (forall data_ p n_ ff r,
     gen fuel e data_ p n_ ff w = (r, w') -> nodes_kept w w') /\
  (forall args p num_trials r,
     gen_for_multiple_trials_with_multiple_models fuel e args p num_trials w = (r, w') ->
     nodes_kept w w') /\
  (forall args p first r,
     _gen_with_multiple_nodes fuel e args p first w = (r, w') -> nodes_kept w w').
Proof.
  split; [|split]; intros; apply (gen_steps_respect e _ w w' (gen_step_nodes_kept e)).
  - eapply footprint_gen; eauto.
  - eapply footprint_gen_for_multiple_trials; eauto.
  - eapply footprint_gen_with_multiple_nodes; eauto.
Qed.

Lemma setter_keeps_bound_name (cur : Experiment.t) (r : outcome unit) (w1 : World) :
  _experiment (gs w) = Some cur ->
  experiment_setter e w = (r, w1) ->
  (w1 = w /\ r <> Return tt) \/
  (r = Return tt /\ Experiment._name e = Experiment._name cur /\
   w1 = on_gs (with_experiment (Some e)) w).
Proof.
  intros Hc. rewrite (experiment_setter_bound e cur) by assumption.
  destruct (String.eqb_spec (Experiment._name e) (Experiment._name cur)) as [Heq|Hne].
  - intros [= <- <-]. now right.
  - intros [= <- <-]. left. split; [reflexivity | discriminate].
Qed.

(** X13: the strategy stays with its experiment.  However [gen] or the
    multi-trial entry point ends, the strategy's name is unchanged and, if
    an experiment was bound before the call, an experiment of the same name
    is bound after it.  [_gen_with_multiple_nodes], which assigns
    [_experiment] before anything else, leaves the experiment it was given
    bound, whatever was bound before. *)
Theorem experiment_stays_bound :
  (forall data_ p n_ ff r cur,
     gen fuel e data_ p n_ ff w = (r, w') ->
     _name (gs w') = _name (gs w) /\
     (_experiment (gs w) = Some cur ->
      exists e', _experiment (gs w') = Some e' /\
                 Experiment._name e' = Experiment._name cur)) /\
  (forall args p num_trials r cur,
     gen_for_multiple_trials_with_multiple_models fuel e args p num_trials w = (r, w') ->
     _name (gs w') = _name (gs w) /\
     (_experiment (gs w) = Some cur ->
      exists e', _experiment (gs w') = Some e' /\
                 Experiment._name e' = Experiment._name cur)) /\
  (forall args p first r,
     _gen_with_multiple_nodes fuel e args p first w = (r, w') ->
     _name (gs w') = _name (gs w) /\ _experiment (gs w') = Some e).
Proof.
  assert (Hafter : forall {A} (m : unit -> M A) (r : outcome A) cur,
    (forall u, preserves (rtc (gen_step e)) (m u)) ->
    (experiment_setter e ≫= m) w = (r, w') ->
    _name (gs w') = _name (gs w) /\
    (_experiment (gs w) = Some cur ->
     exists e', _experiment (gs w') = Some e' /\
                Experiment._name e' = Experiment._name cur)).
  { intros A m r cur Hm Hrun.
    assert (Hfp : rtc (gen_step e) w w').
    { exact (preserves_bind (rtc (gen_step e)) (experiment_setter e) m
               (footprint_experiment_setter e) Hm w r w' Hrun). }
    destruct (gen_steps_respect e _ w w' (gen_step_binding_kept e) Hfp) as [Hn _].
    split; [exact Hn|]. intros Hc.
    unfold mbind, M_bind in Hrun.
    destruct (experiment_setter e w) as [r1 w1] eqn:Hs.
    destruct (setter_keeps_bound_name cur r1 w1 Hc Hs) as [[-> Hr] | (-> & Hname & ->)].
    - destruct r1 as [[]| |]; [contradiction | |]; injection Hrun as <- <-; eauto.
    - apply Hm in Hrun.
      destruct (gen_steps_respect e _ _ w' (gen_step_binding_kept e) Hrun) as [_ He].
      exists e. split; [now apply He | exact Hname]. }
  split; [|split].
  - intros data_ p n_ ff r cur Hg. unfold gen in Hg.
    eapply (Hafter _ _ r cur); [|exact Hg].
    intros []. apply (preserves_bind (rtc (gen_step e)));
      [apply footprint_gen_with_multiple_nodes|].
    intros grs. unfold gen_single. destruct (bool_decide _); [apply preserves_raise; apply _|].
    destruct grs; [apply preserves_raise | apply preserves_ret]; apply _.
  - intros args p num_trials r cur Hg.
    unfold gen_for_multiple_trials_with_multiple_models in Hg.
    eapply (Hafter _ _ r cur); [|exact Hg].
    intros [].
    apply (preserves_bind (rtc (gen_step e))); [|intros l].
    { destruct p; [|apply footprint_alloc].
      apply preserves_bind; [apply _ | apply preserves_get_store; apply _ | intros st].
      apply footprint_alloc. }
    apply preserves_bind; [apply _ | apply preserves_curr_node; apply _ | intros c].
    apply preserves_bind; [apply _ | apply preserves_get_gs; apply _ | intros s].
    apply preserves_bind; [apply _ | apply preserves_lift_result; apply _ | intros lim].
    apply footprint_gen_trials.
  - intros args p first r Hg.
    assert (Hsame : _gen_with_multiple_nodes fuel e args p first
                      (on_gs (with_experiment (Some e)) w) = (r, w')).
    { rewrite <- Hg. reflexivity. }
    apply footprint_gen_with_multiple_nodes in Hsame.
    destruct (gen_steps_respect e _ _ w' (gen_step_binding_kept e) Hsame) as [Hn He].
    split; [exact Hn | now apply He].
Qed.

End Invariants.

Section InvariantRuns.
Import Scenario.

Lemma generator_runs_append_only_witness :
  let w := world ∅ in
  let r := gen (H := env all_data) 3 exp1 None None 1 None w in
  runs_extended w (snd r).
Proof.
  intros w r.
  apply (proj1 (generator_runs_append_only (H := env all_data) 3 exp1 w (snd r))
           None None 1 None (fst r)).
  vm_compute. reflexivity.
Defined.

Lemma pointer_stays_in_range_witness :
  let w := world ∅ in
  let r := gen (H := env all_data) 3 exp1 None None 1 None w in
  nodes_kept w (snd r).
Proof.
  intros w r.
  apply (proj1 (pointer_stays_in_range (H := env all_data) 3 exp1 w (snd r))
           None None 1 None (fst r)).
  vm_compute. reflexivity.
Defined.

(** A strategy bound to [exp1] refuses [exp2] and stays with [exp1]. *)
Lemma experiment_stays_bound_witness :
  let w := on_gs (with_experiment (Some exp1)) (world ∅) in
  let r := gen (H := env all_data) 3 exp2 None None 1 None w in
  _name (gs (snd r)) = _name (gs w) /\
  (_experiment (gs w) = Some exp1 ->
   exists e', _experiment (gs (snd r)) = Some e' /\
              Experiment._name e' = Experiment._name exp1).
Proof.
  intros w r.
  apply (proj1 (experiment_stays_bound (H := env all_data) 3 exp2 w (snd r))
           None None 1 None (fst r) exp1).
  vm_compute. reflexivity.
Defined.

End InvariantRuns.

(** ** What the entry points record *)

Section Records.
Context `{Collaborators}.

(** X14: a run returned by [gen] is the one run the call has added to the
    history, at its end: it is the strategy's [last_generator_run]. *)
Theorem gen_records_its_run (fuel : nat) (e : Experiment.t) (data_ : option Data)
    (p : option loc) (n_ : Z) (ff : option ObservationFeatures) (w w' : World)
    (g : GeneratorRun) :
  gen fuel e data_ p n_ ff w = (Return g, w') ->
  _generator_runs (gs w') = _generator_runs (gs w) ++ [g] /\
  last_generator_run (gs w') = Some g.
Proof.
  intros Hg. unfold gen in Hg.
  bind_split Hg as u w1 Hs. bind_split Hg as grs w2 Hloop. destruct u.
  apply experiment_setter_Return in Hs. subst w1.
  apply gen_with_multiple_nodes_Return in Hloop as [_ Hh]. cbn in Hh.
  unfold gen_single in Hg.
  destruct (bool_decide (1 < length grs)%nat) eqn:Hlen; [discriminate|].
  apply bool_decide_eq_false in Hlen.
  destruct grs as [|g' [|g'' rest]]; [discriminate | | cbn in Hlen; lia].
  injection Hg as <- <-. split; [exact Hh|].
  unfold last_generator_run. rewrite Hh.
  destruct (_generator_runs (gs w) ++ [g']) eqn:Hl.
  - now destruct (_generator_runs (gs w)).
  - rewrite <- Hl. apply last_snoc.
Qed.

Lemma gen_trials_history (fuel : nat) (e : Experiment.t) (args : GenArgs) (l : loc)
    (passes_ : nat) :
  forall (acc grss : list (list GeneratorRun)) (w w' : World),
    gen_trials passes_ fuel e args l acc w = (Return grss, w') ->
    exists new,
      grss = acc ++ new /\ length new = passes_ /\
      _generator_runs (gs w') = _generator_runs (gs w) ++ concat new /\
      Forall (fun grs => grs <> []) new.
Proof.
  induction passes_ as [|k IH]; intros acc grss w w' Hg; cbn in Hg.
  - injection Hg as <- <-. exists []. cbn. now rewrite !app_nil_r.
  - bind_split Hg as grs w1 Hone.
    apply gen_with_multiple_nodes_Return in Hone as [Hne Hh].
    apply IH in Hg as (new & -> & Hlen & Hh' & Hall).
    exists (grs :: new). repeat split.
    + now rewrite <- app_assoc.
    + cbn. now rewrite Hlen.
    + cbn. now rewrite Hh', Hh, app_assoc.
    + now constructor.
Qed.

(** X15: when the multi-trial entry point returns, it returns at least one
    trial, every trial holds at least one run, and the runs of all trials,
    in order, are what the call has added to the history. *)
Theorem multiple_trials_record_runs (fuel : nat) (e : Experiment.t) (args : GenArgs)
    (p : option loc) (num_trials : Z) (w w' : World)
    (grss : list (list GeneratorRun)) :
  gen_for_multiple_trials_with_multiple_models fuel e args p num_trials w
    = (Return grss, w') ->
  grss <> [] /\
  Forall (fun grs => grs <> []) grss /\
  _generator_runs (gs w') = _generator_runs (gs w) ++ concat grss.
Proof.
  intros Hm.
  apply gen_for_multiple_trials_unfold in Hm
    as [[Hno _] | (cur & lim & _ & _ & Hg)]; [now contradiction (Hno grss)|].
  apply gen_trials_history in Hg as (new & -> & Hlen & Hh & Hall). cbn in *.
  split; [|split; assumption].
  assert (Hpos := clamp_num_trials_pos num_trials lim).
  intros ->. cbn in Hlen. lia.
Qed.

(** X16: the loop swallows nothing but a [DataRequiredError] of the node's
    [gen].  Whatever the transition step raises, a [DataRequiredError]
    included, and whatever else the node's [gen] raises, propagates out of
    [_gen_with_multiple_nodes], however many runs the call has produced. *)
Theorem other_exceptions_propagate (k fuel : nat) (e : Experiment.t) (args : GenArgs)
    (p : option loc) (first : bool) (l : loc) (w w0 w1 : World)
    (grs : list GeneratorRun) :
  gen_setup e args p w = (Return l, w0) ->
  passes e args l first k [] w0 grs w1 ->
  (forall ex w2,
     gen_loop_transition w1 = (Raise ex, w2) ->
     _gen_with_multiple_nodes (k + S fuel) e args p first w = (Raise ex, w2)) /\
  (forall t w2 ex w3,
     gen_loop_transition w1 = (Return t, w2) ->
     call_node_gen e args l (negb (first || t)) grs w2 = (Return (Err ex), w3) ->
     ex <> DataRequiredError ->
     _gen_with_multiple_nodes (k + S fuel) e args p first w = (Raise ex, w3)).
Proof.
  intros Hs Hp.
  assert (Hrun : _gen_with_multiple_nodes (k + S fuel) e args p first w
                 = (c ← gen_loop_body e args l first grs;
                    match c with
                    | LoopAgain grs' => gen_loop fuel e args l first grs'
                    | LoopExit grs' => mret grs'
                    end) w1).
  { unfold _gen_with_multiple_nodes. rewrite (bind_Return _ _ _ _ _ Hs).
    now rewrite (gen_loop_passes e args l first k _ _ _ _ Hp). }
  rewrite Hrun. split.
  - intros ex w2 Ht. apply bind_Raise. unfold gen_loop_body.
    now apply bind_Raise.
  - intros t w2 ex w3 Ht Hg Hex. apply bind_Raise. unfold gen_loop_body.
    rewrite (bind_Return _ _ _ _ _ Ht), (bind_Return _ _ _ _ _ Hg).
    now destruct ex.
Qed.

(** A pass in which the check declines, the node skips and nothing
    changes. *)
Lemma skipping_pass (e : Experiment.t) (args : GenArgs) (l : loc) (first : bool)
    (grs : list GeneratorRun) (w : World) (cur : GenerationNode) (nm : string)
    (i : nat) (nxt : option string) :
  _nodes (gs w) !! _curr (gs w) = Some cur ->
  should_transition_to_next_node (gs w) cur false = Ok (false, Some nm) ->
  nodes_dict (gs w) !! nm = Some i ->
  should_transition_to_next_node (gs w) cur true = Ok (false, nxt) ->
  GenerationNode_gen (gs w) cur e args (deref (store w) l) (negb first) grs
    = (cur, Ok None) ->
  _model (gs w) = _fitted_model cur ->
  gen_loop_body e args l first grs w = (Return (LoopAgain grs), w).
Proof.
  intros Hcur Hf Hi Ht Hgen Hmodel.
  assert (Htrans : gen_loop_transition w = (Return false, w)).
  { unfold gen_loop_transition, _maybe_transition_to_next_node, curr_node,
      mbind, M_bind, get_gs.
    rewrite Hcur. cbn. rewrite Hf. cbn. rewrite Hi. cbn.
    rewrite Hcur. cbn. now rewrite Ht. }
  assert (Hsame : alter (fun _ => cur) (_curr (gs w)) (_nodes (gs w)) = _nodes (gs w)).
  { apply list_eq. intros j. destruct (decide (_curr (gs w) = j)) as [<-|Hne].
    - now rewrite list_lookup_alter_eq, Hcur.
    - now rewrite list_lookup_alter_ne. }
  assert (Hcall : call_node_gen e args l (negb (first || false)) grs w
                  = (Return (Ok None), w)).
  { unfold call_node_gen, curr_node, mbind, M_bind, get_gs, get_store.
    rewrite Hcur. cbn. rewrite orb_false_r, Hgen. cbn.
    unfold on_gs, update_node. rewrite Hsame. now destruct w as [[] ?]. }
  unfold gen_loop_body.
  rewrite (bind_Return _ _ _ _ _ Htrans), (bind_Return _ _ _ _ _ Hcall).
  unfold curr_node, mbind, M_bind, get_gs. rewrite Hcur. cbn.
  unfold on_gs. rewrite <- Hmodel. now destruct w as [[] ?].
Qed.

(** X17: the loop does not end while the current node skips.  If, in some
    world, the current node's check declines, its [gen] returns [None] and
    leaves the node as it is, and [_model] is already the node's fitted
    model, then the loop never leaves that world: no amount of fuel makes
    it return or raise. *)
Theorem skipping_node_never_returns (e : Experiment.t) (args : GenArgs) (l : loc)
    (first : bool) (grs : list GeneratorRun) (w : World) (cur : GenerationNode)
    (nm : string) (i : nat) (nxt : option string) :
  _nodes (gs w) !! _curr (gs w) = Some cur ->
  should_transition_to_next_node (gs w) cur false = Ok (false, Some nm) ->
  nodes_dict (gs w) !! nm = Some i ->
  should_transition_to_next_node (gs w) cur true = Ok (false, nxt) ->
  GenerationNode_gen (gs w) cur e args (deref (store w) l) (negb first) grs
    = (cur, Ok None) ->
  _model (gs w) = _fitted_model cur ->
  forall fuel, gen_loop fuel e args l first grs w = (OutOfFuel, w).
Proof.
  intros Hcur Hf Hi Ht Hgen Hmodel fuel.
  assert (Hb := skipping_pass e args l first grs w cur nm i nxt Hcur Hf Hi Ht Hgen Hmodel).
  induction fuel as [|fuel IH]; cbn; [reflexivity|].
  now rewrite (bind_Return _ _ _ _ _ Hb).
Qed.

End Records.

Section RecordRuns.
Import Scenario.

Lemma gen_records_its_run_witness :
  let w := world ∅ in
  let r := gen (H := env B_needs_data) 3 exp1 None None 1 None w in
  _generator_runs (gs (snd r)) = _generator_runs (gs w) ++ [run_of node_A] /\
  last_generator_run (gs (snd r)) = Some (run_of node_A).
Proof.
  intros w r.
  apply (gen_records_its_run (H := env B_needs_data) 3 exp1 None None 1 None w (snd r)).
  vm_compute. reflexivity.
Defined.

Lemma multiple_trials_record_runs_witness :
  let w := world ∅ in
  let r := gen_for_multiple_trials_with_multiple_models (H := env all_data)
             3 exp1 no_args None 2 w in
  let grss := [[run_of node_A; run_of node_B]; [run_of node_B]] in
  grss <> [] /\
  Forall (fun grs => grs <> []) grss /\
  _generator_runs (gs (snd r)) = _generator_runs (gs w) ++ concat grss.
Proof.
  intros w r grss.
  apply (multiple_trials_record_runs (H := env all_data) 3 exp1 no_args None 2 w (snd r)).
  vm_compute. reflexivity.
Defined.

(** With one run produced, a [DataRequiredError] of the transition step is
    not swallowed. *)
Lemma other_exceptions_propagate_witness :
  let w2 := snd (gen_loop_transition (H := Scenario2.check_needs_data) Scenario2.C_pass1) in
  _gen_with_multiple_nodes (H := Scenario2.check_needs_data) 3 exp1 no_args None true
    (world ∅)
  = (Raise DataRequiredError, w2).
Proof.
  intros w2.
  refine (proj1 (other_exceptions_propagate (H := Scenario2.check_needs_data) 1 1 exp1
                   no_args None true 0%nat (world ∅) Scenario2.C_setup Scenario2.C_pass1
                   [run_of node_A] _ _) DataRequiredError w2 _).
  - vm_compute. reflexivity.
  - eapply passes_S; [vm_compute; reflexivity | apply passes_O].
  - vm_compute. reflexivity.
Defined.

Lemma skipping_node_never_returns_witness :
  gen_loop (H := Scenario2.skipping) 7 exp1 no_args 0%nat true [] Scenario2.S_setup
  = (OutOfFuel, Scenario2.S_setup).
Proof.
  apply (skipping_node_never_returns (H := Scenario2.skipping) exp1 no_args 0%nat true []
           Scenario2.S_setup node_A "A" 0%nat (Some "A"));
    vm_compute; reflexivity.
Defined.

End RecordRuns.

(** ** Which dictionaries a call writes to *)

Section StoreFootprint.
Context `{Collaborators}.

(** Without a dictionary of the caller's, the setup makes a new one, at a
    location the store did not hold, and writes nowhere else. *)
Lemma gen_setup_None (e : Experiment.t) (args : GenArgs) (w w' : World)
    (r : outcome loc) :
  gen_setup e args None w = (r, w') ->
  same_store_but (fresh (dom (store w))) w w' /\
  (forall l, r = Return l -> l = fresh (dom (store w))).
Proof.
  unfold gen_setup. intros Hs.
  rewrite (bind_Return _ _ w (on_gs (with_experiment (Some e)) w) tt) in Hs by reflexivity.
  rewrite (bind_Return get_gs _ _ _ _ eq_refl) in Hs.
  destruct (optimization_complete _).
  { injection Hs as <- <-. split; [now intros l' _ | discriminate]. }
  set (l0 := fresh (dom (store w))) in *.
  set (w2 := on_store <[l0 := ∅]> (on_gs (with_experiment (Some e)) w)).
  rewrite (bind_Return (alloc ∅) _ _ w2 l0) in Hs by reflexivity.
  assert (Hrest : preserves same_store
            (experiment_setter e ;; _validate_arms_per_node (arms_per_node args) ;;
             mret l0)).
  { apply preserves_bind; [apply _ | | intros _].
    { apply preserves_experiment_setter; [apply _|]. intros w0. apply same_store_on_gs. }
    apply preserves_bind; [apply _ | | intros _; apply preserves_ret; apply _].
    apply preserves_validate_arms_per_node; apply _. }
  split.
  - apply Hrest in Hs. unfold same_store in Hs. intros l' Hl'.
    rewrite Hs. subst w2. cbn. now rewrite lookup_insert_ne.
  - intros l ->. bind_split Hs as u1 w3 H1. bind_split Hs as u2 w4 H2.
    now injection Hs as <- _.
Qed.

Lemma gen_with_multiple_nodes_None (fuel : nat) (e : Experiment.t) (args : GenArgs)
    (first : bool) (w w' : World) (r : outcome (list GeneratorRun)) :
  _gen_with_multiple_nodes fuel e args None first w = (r, w') ->
  same_store_but (fresh (dom (store w))) w w'.
Proof.
  unfold _gen_with_multiple_nodes, mbind at 1, M_bind at 1.
  destruct (gen_setup e args None w) as [[l|ex|] w1] eqn:Hs; intros Hr;
    apply gen_setup_None in Hs as [Hfr Hl].
  - rewrite (Hl l eq_refl) in Hr. transitivity w1; [exact Hfr|].
    eapply gen_loop_store; eauto.
  - now injection Hr as <- <-.
  - now injection Hr as <- <-.
Qed.

(** X18: [gen] writes to no dictionary but the one it is given: called
    with the dictionary at [l] it leaves every other location of the store
    as it was, and called without one it leaves every dictionary the store
    held as it was.  This holds however the call ends. *)
Theorem gen_store_footprint (fuel : nat) (e : Experiment.t) (data_ : option Data)
    (n_ : Z) (ff : option ObservationFeatures) (w w' : World)
    (r : outcome GeneratorRun) :
  (forall l, gen fuel e data_ (Some l) n_ ff w = (r, w') ->
     forall l', l' <> l -> store w' !! l' = store w !! l') /\
  (gen fuel e data_ None n_ ff w = (r, w') ->
     forall l', l' ∈ dom (store w) -> store w' !! l' = store w !! l').
Proof.
  assert (Hsingle : forall grs, preserves same_store (gen_single grs)).
  { intros grs. unfold gen_single.
    destruct (bool_decide _); [apply preserves_raise; apply _|].
    destruct grs; [apply preserves_raise | apply preserves_ret]; apply _. }
  split.
  - intros l Hg. unfold gen in Hg.
    assert (Hfr : preserves (same_store_but l)
              (experiment_setter e ;;
               gr ← _gen_with_multiple_nodes fuel e
                      {| data := data_; n := Some n_; fixed_features := ff;
                         arms_per_node := None |} (Some l) true;
               gen_single gr)).
    { apply preserves_bind; [apply _ | | intros _].
      { apply preserves_experiment_setter; [apply _|].
        intros w0. apply same_store_but_on_gs. }
      apply preserves_bind; [apply _ | apply gen_with_multiple_nodes_pending | intros grs].
      intros w1 r1 w2 H1. apply same_store_same_store_but. eapply Hsingle; eauto. }
    exact (Hfr w r w' Hg).
  - intros Hg l' Hl'. unfold gen, mbind at 1, M_bind at 1 in Hg.
    destruct (experiment_setter e w) as [[[]|ex|] w1] eqn:Hs;
      apply (preserves_experiment_setter same_store e (fun w0 => same_store_on_gs _ w0))
        in Hs; unfold same_store in Hs.
    2,3: injection Hg as <- <-; now rewrite Hs.
    unfold mbind at 1, M_bind at 1 in Hg.
    destruct (_gen_with_multiple_nodes fuel e _ None true w1) as [r2 w2] eqn:Hloop.
    apply gen_with_multiple_nodes_None in Hloop.
    assert (Hne : l' <> fresh (dom (store w1))).
    { rewrite Hs. intros ->. now apply (is_fresh (dom (store w))). }
    assert (Hw2 : store w2 !! l' = store w !! l') by (rewrite (Hloop l' Hne); now rewrite Hs).
    destruct r2 as [grs|ex|].
    + apply Hsingle in Hg. unfold same_store in Hg. now rewrite Hg.
    + now injection Hg as <- <-.
    + now injection Hg as <- <-.
Qed.

End StoreFootprint.

Lemma gen_store_footprint_witness :
  let w := Scenario.world {[ 0%nat := ∅; 5%nat := {[ "m" := ["x"] ]} ]} in
  let r := gen (H := Scenario.env Scenario.all_data) 3 Scenario.exp1 None (Some 0%nat)
             1 None w in
  store (snd r) !! 5%nat = store w !! 5%nat.
Proof.
  intros w r.
  apply (proj1 (gen_store_footprint (H := Scenario.env Scenario.all_data) 3 Scenario.exp1
                  None 1 None w (snd r) (fst r)) 0%nat).
  - vm_compute. reflexivity.
  - lia.
Defined.

(** ** [current_generator_run_limit] *)

Section RunLimit.
Context `{Collaborators}.

(** X19: [current_generator_run_limit] turns exhaustion into a result.  In
    an exhausted strategy whose current node's check says to move it
    returns [(0, True)] and changes nothing; when the check declines it
    returns the current node's trial limit and [False], changing nothing;
    and when the check names a node and the strategy is not exhausted, the
    pointer moves and the limit returned is that of the node moved to. *)
Theorem current_generator_run_limit_cases (d : bool) (w : World) (cur : GenerationNode) :
  _nodes (gs w) !! _curr (gs w) = Some cur ->
  (forall nxt,
     should_transition_to_next_node (gs w) cur false = Ok (true, nxt) ->
     optimization_complete (gs w) = true ->
     current_generator_run_limit d w = (Return (0, true), w)) /\
  (forall nxt lim,
     should_transition_to_next_node (gs w) cur false = Ok (false, nxt) ->
     new_trial_limit (gs w) cur d = Ok lim ->
     current_generator_run_limit d w = (Return (lim, false), w)) /\
  (forall nm j nd lim,
     should_transition_to_next_node (gs w) cur false = Ok (true, Some nm) ->
     optimization_complete (gs w) = false ->
     nodes_dict (gs w) !! nm = Some j ->
     _nodes (gs w) !! j = Some nd ->
     new_trial_limit (with_model None (with_curr j (gs w))) nd d = Ok lim ->
     current_generator_run_limit d w
     = (Return (lim, false), on_gs (fun s => with_model None (with_curr j s)) w)).
Proof.
  intros Hcur. split; [|split].
  - intros nxt Hst Hc. unfold current_generator_run_limit.
    assert (Ht : _maybe_transition_to_next_node false w
                 = (Raise GenerationStrategyCompleted, w)).
    { unfold _maybe_transition_to_next_node, curr_node, mbind, M_bind, get_gs.
      rewrite Hcur. cbn. rewrite Hst. cbn. now rewrite Hc. }
    now rewrite Ht.
  - intros nxt lim Hst Hlim. unfold current_generator_run_limit.
    assert (Ht : _maybe_transition_to_next_node false w = (Return false, w)).
    { unfold _maybe_transition_to_next_node, curr_node, mbind, M_bind, get_gs.
      rewrite Hcur. cbn. now rewrite Hst. }
    rewrite Ht. unfold curr_node, mbind, M_bind, get_gs. rewrite Hcur. cbn.
    now rewrite Hlim.
  - intros nm j nd lim Hst Hnc Hj Hnd Hlim. unfold current_generator_run_limit.
    rewrite (maybe_transition_by_name false w cur nm Hcur Hst Hnc), Hj.
    unfold curr_node, mbind, M_bind, get_gs. cbn. rewrite Hnd. cbn.
    now rewrite Hlim.
Qed.

End RunLimit.

Lemma current_generator_run_limit_cases_witness :
  current_generator_run_limit (H := Scenario.env Scenario.exhausted) false
    (Scenario.world ∅)
  = (Return (0, true), Scenario.world ∅).
Proof.
  refine (proj1 (current_generator_run_limit_cases (H := Scenario.env Scenario.exhausted)
                   false (Scenario.world ∅) Scenario.node_A _) None _ _);
    reflexivity.
Defined.

(** ** Step-only accessors *)

(** X20: the step-only accessors refuse a node graph.  On a strategy none
    of whose nodes is a [GenerationStep], [model_transitions], [_steps] and
    [current_step_index] raise [UnsupportedError] and change nothing; and
    [model_transitions] returns on no strategy at all. *)
Theorem step_only_accessors_refuse (w : World) :
  ((forall nd, nd ∈ _nodes (gs w) -> is_GenerationStep nd = false) ->
   model_transitions w = (Raise UnsupportedError, w) /\
   _steps w = (Raise UnsupportedError, w) /\
   current_step_index w = (Raise UnsupportedError, w)) /\
  (exists ex, model_transitions w = (Raise ex, w)).
Proof.
  split.
  - intros Hnb. apply is_node_based_true in Hnb.
    unfold model_transitions, _steps, current_step_index, step_based_gs_only,
      mbind, M_bind, get_gs.
    now rewrite Hnb.
  - unfold model_transitions, step_based_gs_only, mbind, M_bind, get_gs.
    destruct (is_node_based _); eexists; reflexivity.
Qed.

Lemma step_only_accessors_refuse_witness :
  model_transitions (Scenario.world ∅) = (Raise UnsupportedError, Scenario.world ∅) /\
  _steps (Scenario.world ∅) = (Raise UnsupportedError, Scenario.world ∅) /\
  current_step_index (Scenario.world ∅) = (Raise UnsupportedError, Scenario.world ∅).
Proof.
  apply (proj1 (step_only_accessors_refuse (Scenario.world ∅))).
  intros nd Hin. cbn in Hin.
  repeat (apply elem_of_cons in Hin as [-> | Hin]; [reflexivity|]).
  now apply elem_of_nil in Hin.
Defined.

(** X21: on a strategy made of steps with distinct names,
    [current_step_index] returns the position of the current step. *)
Theorem current_step_index_is_pointer (w : World) (cur : GenerationNode) :
  (exists nd, nd ∈ _nodes (gs w) /\ is_GenerationStep nd = true) ->
  NoDup (node_name <$> _nodes (gs w)) ->
  _nodes (gs w) !! _curr (gs w) = Some cur ->
  current_step_index w = (Return (_curr (gs w)), w).
Proof.
  intros (nd & Hin & Hstep) Hnd Hcur.
  assert (Hnb : is_node_based (_nodes (gs w)) = false).
  { destruct (is_node_based (_nodes (gs w))) eqn:Hnb; [|reflexivity].
    rewrite (proj1 (is_node_based_true _) Hnb nd Hin) in Hstep. discriminate. }
  assert (Hname : (node_name <$> _nodes (gs w)) !! _curr (gs w) = Some (node_name cur))
    by now rewrite list_lookup_fmap, Hcur.
  assert (Hfind : list_find (fun nm => nm = node_name cur) (node_name <$> _nodes (gs w))
                  = Some (_curr (gs w), node_name cur)).
  { apply list_find_Some. split; [exact Hname|]. split; [reflexivity|].
    intros j y Hj Hlt ->.
    assert (j = _curr (gs w)); [|lia].
    now apply (NoDup_lookup _ j (_curr (gs w)) (node_name cur) Hnd). }
  unfold current_step_index, step_based_gs_only, curr_node, mbind, M_bind, get_gs.
  rewrite Hnb. cbn. rewrite Hcur. cbn.
  rewrite bool_decide_eq_true_2 by (now apply list_elem_of_lookup_2 in Hname).
  now rewrite Hfind.
Qed.

Lemma current_step_index_is_pointer_witness :
  current_step_index StepScenario.at_second_step
  = (Return 1%nat, StepScenario.at_second_step).
Proof.
  apply (current_step_index_is_pointer StepScenario.at_second_step
           (StepScenario.step_node "GenerationStep_1")).
  - exists (StepScenario.step_node "GenerationStep_0").
    split; [apply list_elem_of_here | reflexivity].
  - vm_compute. repeat constructor; set_solver.
  - reflexivity.
Defined.

(** ** Validation of a step sequence *)

Lemma check_step_spec (n_steps idx : nat) (step : Step.t) :
  (idx < n_steps)%nat ->
  (step_ok n_steps idx step /\ check_step n_steps idx step = Ok tt) \/
  (~ step_ok n_steps idx step /\ check_step n_steps idx step = Err UserInputError).
Proof.
  intros Hidx. unfold check_step, step_ok, mbind, result_bind.
  destruct (bool_decide (Step.num_trials step = -1)) eqn:Hnt.
  - apply bool_decide_eq_true in Hnt.
    destruct (bool_decide (length (Step.completion_criteria step) < 1)%nat) eqn:Hcc; cbn.
    + apply bool_decide_eq_true in Hcc.
      assert (Hnil : Step.completion_criteria step = [])
        by (destruct (Step.completion_criteria step); [reflexivity | cbn in Hcc; lia]).
      destruct (bool_decide (Z.of_nat idx < Z.of_nat n_steps - 1)) eqn:Hlast.
      * apply bool_decide_eq_true in Hlast. right. split; [|reflexivity].
        intros (Hl & _). specialize (Hl Hnt Hnil). lia.
      * apply bool_decide_eq_false in Hlast.
        destruct (Step.max_parallelism step) as [mp|] eqn:Hmp.
        -- destruct (bool_decide (mp < 1)) eqn:Hlt.
           ++ apply bool_decide_eq_true in Hlt. right. split; [|reflexivity].
              intros (_ & _ & Hm). specialize (Hm mp eq_refl). lia.
           ++ apply bool_decide_eq_false in Hlt. left. split; [|reflexivity].
              split; [intros _ _; lia|]. split; [now right|].
              intros mp' [= <-]. lia.
        -- left. split; [|reflexivity].
           split; [intros _ _; lia|]. split; [now right | discriminate].
    + apply bool_decide_eq_false in Hcc.
      rewrite bool_decide_eq_true_2 by lia. cbn.
      destruct (Step.max_parallelism step) as [mp|] eqn:Hmp.
      * destruct (bool_decide (mp < 1)) eqn:Hlt.
        -- apply bool_decide_eq_true in Hlt. right. split; [|reflexivity].
           intros (_ & _ & Hm). specialize (Hm mp eq_refl). lia.
        -- apply bool_decide_eq_false in Hlt. left. split; [|reflexivity].
           split; [|split; [now right | intros mp' [= <-]; lia]].
           intros _ Hnil. rewrite Hnil in Hcc. cbn in Hcc. lia.
      * left. split; [|reflexivity].
        split; [|split; [now right | discriminate]].
        intros _ Hnil. rewrite Hnil in Hcc. cbn in Hcc. lia.
  - apply bool_decide_eq_false in Hnt. cbn.
    destruct (bool_decide (Step.num_trials step < 1)) eqn:Hlow; cbn.
    + apply bool_decide_eq_true in Hlow. right. split; [|reflexivity].
      intros (_ & [Hge | Heq] & _); [lia | contradiction].
    + apply bool_decide_eq_false in Hlow.
      destruct (Step.max_parallelism step) as [mp|] eqn:Hmp.
      * destruct (bool_decide (mp < 1)) eqn:Hlt.
        -- apply bool_decide_eq_true in Hlt. right. split; [|reflexivity].
           intros (_ & _ & Hm). specialize (Hm mp eq_refl). lia.
        -- apply bool_decide_eq_false in Hlt. left. split; [|reflexivity].
           split; [intros Hc; contradiction|].
           split; [left; lia | intros mp' [= <-]; lia].
      * left. split; [|reflexivity].
        split; [intros Hc; contradiction|]. split; [left; lia | discriminate].
Qed.

#[global] Instance same_shape_preorder : PreOrder same_shape.
Proof.
  split.
  - intros h. split; intros; repeat split.
  - intros h1 h2 h3 [S1 C1] [S2 C2]. split.
    + intros r. destruct (S1 r) as (? & ? & ? & ? & ?), (S2 r) as (? & ? & ? & ? & ?).
      repeat split; congruence.
    + intros c. destruct (C1 c), (C2 c). split; congruence.
Qed.

(** The checks read only fields the loop does not write. *)
Lemma step_ok_same_shape (h h' : StepHeap) (n_steps idx : nat) (r : step_ref) :
  same_shape h h' ->
  step_ok n_steps idx (step_at h' r) <-> step_ok n_steps idx (step_at h r).
Proof.
  intros [S _]. destruct (S r) as (_ & Hn & Hm & Hc & _).
  unfold step_ok. now rewrite Hn, Hm, Hc.
Qed.

Lemma wire_criterion_twice (i j : nat) (tc : TransitionCriterion) :
  wire_criterion j (wire_criterion i tc) = wire_criterion j tc.
Proof.
  unfold wire_criterion.
  destruct (negb (String.eqb (criterion_class tc) "MaxGenerationParallelism")) eqn:Hc;
    cbn; now rewrite Hc.
Qed.

Lemma wire_criterion_fields (i : nat) (tc : TransitionCriterion) :
  criterion_class (wire_criterion i tc) = criterion_class tc /\
  continue_trial_generation (wire_criterion i tc) = continue_trial_generation tc /\
  transition_to (wire_criterion i tc) =
    if String.eqb (criterion_class tc) "MaxGenerationParallelism"
    then transition_to tc
    else Some ("GenerationStep_" +:+ pretty (i + 1)%nat).
Proof.
  unfold wire_criterion.
  now destruct (String.eqb (criterion_class tc) "MaxGenerationParallelism").
Qed.

(** The inner loop rewrites the criteria the step refers to, and nothing
    else. *)
Lemma wire_criteria_spec (idx : nat) (cs : list criterion_ref) :
  forall h,
    step_at (wire_criteria idx cs h) = step_at h /\
    forall c, criterion_at (wire_criteria idx cs h) c =
              if decide (c ∈ cs) then wire_criterion idx (criterion_at h c)
              else criterion_at h c.
Proof.
  unfold wire_criteria.
  induction cs as [|c0 cs IH]; intros h; cbn [fold_left].
  - split; [reflexivity|]. intros c. rewrite decide_False; [reflexivity|].
    apply not_elem_of_nil.
  - destruct (IH (on_criteria (alter (wire_criterion idx) c0) h)) as [Hs Hc].
    split; [exact Hs|]. intros c. rewrite Hc. cbn.
    destruct (decide (c = c0)) as [->|Hne].
    + rewrite fn_lookup_alter, wire_criterion_twice.
      rewrite (decide_True (P := c0 ∈ c0 :: cs)) by apply list_elem_of_here.
      now destruct (decide (c0 ∈ cs)).
    + rewrite fn_lookup_alter_ne by congruence.
      destruct (decide (c ∈ cs)) as [Hin|Hin].
      * rewrite decide_True; [reflexivity | now apply list_elem_of_further].
      * rewrite decide_False; [reflexivity|].
        intros Hc0. apply elem_of_cons in Hc0 as [-> | Hc0]; contradiction.
Qed.

(** One pass of the loop: refused with the heap as it was, or accepted with
    the step named after its position and its criteria wired. *)
Lemma validate_and_set_step_spec (n_steps idx : nat) (r : step_ref) (h : StepHeap) :
  (idx < n_steps)%nat ->
  (~ step_ok n_steps idx (step_at h r) /\
   validate_and_set_step n_steps idx r h = (Err UserInputError, h)) \/
  (step_ok n_steps idx (step_at h r) /\
   exists h1, validate_and_set_step n_steps idx r h = (Ok tt, h1) /\
     (forall r', step_at h1 r' =
        if decide (r' = r) then name_step idx (step_at h r) else step_at h r') /\
     (forall c, criterion_at h1 c =
        if decide (c ∈ Step.transition_criteria (step_at h r))
        then wire_criterion idx (criterion_at h c) else criterion_at h c)).
Proof.
  intros Hidx. unfold validate_and_set_step.
  destruct (check_step_spec n_steps idx (step_at h r) Hidx) as [[Hok ->] | [Hbad ->]];
    [right | left; now split].
  split; [exact Hok|]. eexists. split; [reflexivity|].
  rewrite bool_decide_eq_true_2 by exact Hidx.
  set (h0 := on_steps (alter (name_step idx) r) h).
  assert (Hr : step_at h0 r = name_step idx (step_at h r))
    by (cbn; apply fn_lookup_alter).
  destruct (wire_criteria_spec idx (Step.transition_criteria (step_at h0 r)) h0) as [Hs Hc].
  split.
  - intros r'. rewrite Hs. cbn.
    destruct (decide (r' = r)) as [->|Hne];
      [apply fn_lookup_alter | now apply fn_lookup_alter_ne].
  - intros c. rewrite Hc, Hr. reflexivity.
Qed.

Lemma validate_and_set_step_shape (h h1 : StepHeap) (idx : nat) (r : step_ref) :
  (forall r', step_at h1 r' =
     if decide (r' = r) then name_step idx (step_at h r) else step_at h r') ->
  (forall c, criterion_at h1 c =
     if decide (c ∈ Step.transition_criteria (step_at h r))
     then wire_criterion idx (criterion_at h c) else criterion_at h c) ->
  same_shape h h1.
Proof.
  intros Hs Hc. split.
  - intros r'. rewrite Hs. destruct (decide (r' = r)) as [->|]; now repeat split.
  - intros c. rewrite Hc. destruct (decide _); [|now split].
    destruct (wire_criterion_fields idx (criterion_at h c)) as (? & ? & _). now split.
Qed.

(** The loop over a list of steps that starts at position [idx]: which
    lists it accepts. *)
Lemma validate_and_set_steps_result (n_steps : nat) (steps : list step_ref) :
  forall idx h, (idx + length steps <= n_steps)%nat ->
    ((forall j r, steps !! j = Some r -> step_ok n_steps (idx + j) (step_at h r)) /\
     exists h', validate_and_set_steps n_steps idx steps h = (Ok tt, h')) \/
    ((exists j r, steps !! j = Some r /\ ~ step_ok n_steps (idx + j) (step_at h r)) /\
     exists h', validate_and_set_steps n_steps idx steps h = (Err UserInputError, h')).
Proof.
  induction steps as [|r0 rest IH]; intros idx h Hlen; cbn [validate_and_set_steps].
  - left. split; [|now eexists]. intros j r Hj. discriminate.
  - cbn in Hlen.
    destruct (validate_and_set_step_spec n_steps idx r0 h ltac:(lia))
      as [[Hbad ->] | (Hok & h1 & -> & Hs & Hc)].
    + right. split; [|now eexists]. exists 0%nat, r0. split; [reflexivity|].
      now rewrite Nat.add_0_r.
    + assert (Hshape := validate_and_set_step_shape h h1 idx r0 Hs Hc).
      destruct (IH (S idx) h1 ltac:(lia)) as [[Hall Hrun] | [(j & r & Hj & Hbad) Hrun]].
      * left. split; [|exact Hrun]. intros [|j] r Hj; cbn in Hj.
        -- injection Hj as <-. now rewrite Nat.add_0_r.
        -- replace (idx + S j)%nat with (S idx + j)%nat by lia.
           apply (step_ok_same_shape h h1), Hall; assumption.
      * right. split; [|exact Hrun]. exists (S j), r. split; [exact Hj|].
        replace (idx + S j)%nat with (S idx + j)%nat by lia.
        now rewrite <- (step_ok_same_shape h h1).
Qed.

(** The loop over a list of steps that starts at position [idx]: what it
    leaves in the heap when it accepts the list.  Every step object is
    named after the last position that holds it, every criterion is wired
    after the last position whose step holds it, and nothing else is
    written. *)
Lemma validate_and_set_steps_Ok (n_steps : nat) (steps : list step_ref) :
  forall idx h h',
    (idx + length steps <= n_steps)%nat ->
    validate_and_set_steps n_steps idx steps h = (Ok tt, h') ->
    same_shape h h' /\
    (forall r, r ∉ steps -> step_at h' r = step_at h r) /\
    (forall k r, last_position steps k r ->
       step_at h' r = name_step (idx + k) (step_at h r)) /\
    (forall c, (forall r, r ∈ steps -> c ∉ Step.transition_criteria (step_at h r)) ->
       criterion_at h' c = criterion_at h c) /\
    (forall k c, last_holder h steps k c ->
       criterion_at h' c = wire_criterion (idx + k) (criterion_at h c)).
Proof.
  induction steps as [|r0 rest IH]; intros idx h h' Hlen Hrun;
    cbn [validate_and_set_steps] in Hrun.
  - injection Hrun as <-. split; [reflexivity|]. split; [reflexivity|].
    split; [intros k r [Hk _]; discriminate|]. split; [reflexivity|].
    intros k c [(r & Hk & _) _]. discriminate.
  - cbn in Hlen.
    destruct (validate_and_set_step_spec n_steps idx r0 h ltac:(lia))
      as [[_ Hbad] | (_ & h1 & Hstep & Hs & Hc)]; rewrite ?Hbad, ?Hstep in Hrun;
      [discriminate|].
    assert (Hshape := validate_and_set_step_shape h h1 idx r0 Hs Hc).
    assert (Htc : forall r, Step.transition_criteria (step_at h1 r)
                            = Step.transition_criteria (step_at h r))
      by (intros r; apply Hshape).
    destruct (IH (S idx) h1 h' ltac:(lia) Hrun) as (Hsh & Hout & Hlast & Hfree & Hwired).
    split; [now transitivity h1|]. split; [|split; [|split]].
    + intros r Hr. apply not_elem_of_cons in Hr as [Hne Hr].
      rewrite (Hout r Hr), Hs. now rewrite decide_False.
    + intros [|k] r [Hk Hlater]; cbn in Hk.
      * injection Hk as <-. rewrite Nat.add_0_r, Hout, Hs, decide_True; [reflexivity..|].
        intros Hin. apply list_elem_of_lookup_1 in Hin as [j Hj].
        apply (Hlater (S j)); [lia | exact Hj].
      * rewrite (Hlast k r).
        -- replace (S idx + k)%nat with (idx + S k)%nat by lia.
           rewrite Hs. now destruct (decide (r = r0)) as [->|].
        -- split; [exact Hk|]. intros j Hj. apply (Hlater (S j)). lia.
    + intros c Hno. rewrite Hfree, Hc.
      * rewrite decide_False; [reflexivity|]. apply Hno, list_elem_of_here.
      * intros r Hr. rewrite Htc. now apply Hno, list_elem_of_further.
    + intros [|k] c [(r & Hk & Hin) Hlater]; cbn in Hk.
      * injection Hk as <-. rewrite Nat.add_0_r, Hfree, Hc, decide_True;
          [reflexivity | exact Hin|].
        intros r Hr. rewrite Htc. apply list_elem_of_lookup_1 in Hr as [j Hj].
        apply (Hlater (S j)); [lia | exact Hj].
      * rewrite (Hwired k c).
        -- replace (S idx + k)%nat with (idx + S k)%nat by lia.
           rewrite Hc. destruct (decide _); [apply wire_criterion_twice | reflexivity].
        -- split.
           ++ exists r. split; [exact Hk|]. now rewrite Htc.
           ++ intros j r' Hj Hr'. rewrite Htc. apply (Hlater (S j)); [lia | exact Hr'].
Qed.

(** The loop stops at the first step it refuses, and leaves the heap as its
    passes over the steps before that one left it. *)
Lemma validate_and_set_steps_Err (n_steps : nat) (steps : list step_ref) :
  forall idx h j r,
    (idx + length steps <= n_steps)%nat ->
    steps !! j = Some r ->
    ~ step_ok n_steps (idx + j) (step_at h r) ->
    (forall i r', (i < j)%nat -> steps !! i = Some r' ->
       step_ok n_steps (idx + i) (step_at h r')) ->
    exists h',
      validate_and_set_steps n_steps idx steps h = (Err UserInputError, h') /\
      validate_and_set_steps n_steps idx (take j steps) h = (Ok tt, h').
Proof.
  induction steps as [|r0 rest IH]; intros idx h j r Hlen Hj Hbad Hbefore;
    [discriminate|].
  cbn in Hlen. cbn [validate_and_set_steps].
  destruct (validate_and_set_step_spec n_steps idx r0 h ltac:(lia))
    as [[Hbad0 Hstep] | (Hok0 & h1 & Hstep & Hs & Hc)].
  - destruct j as [|j].
    + exists h. now rewrite Hstep.
    + contradiction Hbad0. rewrite <- (Nat.add_0_r idx).
      apply (Hbefore 0%nat r0); [lia | reflexivity].
  - destruct j as [|j]; cbn in Hj.
    + injection Hj as <-. rewrite Nat.add_0_r in Hbad. contradiction.
    + assert (Hshape := validate_and_set_step_shape h h1 idx r0 Hs Hc).
      destruct (IH (S idx) h1 j r ltac:(lia) Hj) as (h' & Hrun & Hpre).
      * rewrite (step_ok_same_shape h h1) by exact Hshape.
        now replace (S idx + j)%nat with (idx + S j)%nat by lia.
      * intros i r' Hi Hr'. rewrite (step_ok_same_shape h h1) by exact Hshape.
        replace (S idx + i)%nat with (idx + S i)%nat by lia.
        apply Hbefore; [lia | exact Hr'].
      * exists h'. cbn [take validate_and_set_steps]. now rewrite Hstep.
Qed.

(** A step of the list has a last position, and a criterion is held by the
    step at some last position or by none. *)
Lemma last_position_exists (steps : list step_ref) (r : step_ref) :
  r ∈ steps -> exists i, last_position steps i r.
Proof.
  induction steps as [|r0 rest IH] using rev_ind; intros Hr.
  - now apply elem_of_nil in Hr.
  - destruct (decide (r0 = r)) as [->|Hne].
    + exists (length rest). split.
      * now rewrite lookup_app_r, Nat.sub_diag by lia.
      * intros j Hlt Hj. apply lookup_lt_Some in Hj.
        rewrite length_app in Hj. cbn in Hj. lia.
    + destruct IH as [i [Hi Hlater]].
      * apply elem_of_app in Hr as [Hr | Hr]; [exact Hr|].
        apply list_elem_of_singleton in Hr. congruence.
      * exists i. split; [now apply lookup_app_l_Some|].
        intros j Hlt Hj.
        destruct (decide (j < length rest)%nat) as [Hjl|Hjl].
        -- rewrite lookup_app_l in Hj by exact Hjl. now apply (Hlater j).
        -- rewrite lookup_app_r in Hj by lia.
           destruct (j - length rest)%nat; cbn in Hj; [|discriminate].
           congruence.
Qed.

Lemma last_holder_cases (h : StepHeap) (steps : list step_ref) (c : criterion_ref) :
  (exists i, last_holder h steps i c) \/
  (forall r, r ∈ steps -> c ∉ Step.transition_criteria (step_at h r)).
Proof.
  induction steps as [|r0 rest IH] using rev_ind.
  - right. intros r Hr. now apply elem_of_nil in Hr.
  - destruct (decide (c ∈ Step.transition_criteria (step_at h r0))) as [Hin|Hout].
    + left. exists (length rest). split.
      * exists r0. split; [|exact Hin].
        now rewrite lookup_app_r, Nat.sub_diag by lia.
      * intros j r Hlt Hj. apply lookup_lt_Some in Hj.
        rewrite length_app in Hj. cbn in Hj. lia.
    + destruct IH as [[i [(r & Hi & Hin) Hlater]] | Hnone].
      * left. exists i. split.
        -- exists r. split; [|exact Hin]. now apply lookup_app_l_Some.
        -- intros j r' Hlt Hj.
           destruct (decide (j < length rest)%nat) as [Hjl|Hjl].
           ++ rewrite lookup_app_l in Hj by exact Hjl. now apply (Hlater j).
           ++ rewrite lookup_app_r in Hj by lia.
              destruct (j - length rest)%nat; cbn in Hj; [|discriminate].
              now injection Hj as <-.
      * right. intros r Hr. apply elem_of_app in Hr as [Hr | Hr]; [now apply Hnone|].
        apply list_elem_of_singleton in Hr. now subst r.
Qed.

Lemma step_sequence_Ok (steps : list step_ref) (h h' : StepHeap) (c : step_ref) :
  _validate_and_set_step_sequence steps h = (Ok c, h') ->
  steps !! 0%nat = Some c /\
  validate_and_set_steps (length steps) 0 steps h = (Ok tt, h').
Proof.
  unfold _validate_and_set_step_sequence.
  destruct steps as [|r0 rest] eqn:Hsteps; [discriminate|]. rewrite <- Hsteps.
  destruct (validate_and_set_steps (length steps) 0 steps h) as [[[]|ex] h1];
    intros [= <- <-]. now rewrite Hsteps.
Qed.

(** X22: [_validate_and_set_step_sequence] accepts a step sequence exactly
    when it is not empty and every step has [num_trials] positive or [-1]
    and [max_parallelism] absent or positive, and only the last step has
    [num_trials] equal to [-1] with no completion criteria.  An empty
    sequence is refused with [UnsupportedError] and nothing is written, any
    other one with [UserInputError]. *)
Theorem step_sequence_accepted (steps : list step_ref) (h : StepHeap) :
  ((exists c h', _validate_and_set_step_sequence steps h = (Ok c, h')) <->
   steps <> [] /\
   forall i r, steps !! i = Some r -> step_ok (length steps) i (step_at h r)) /\
  (forall ex h', _validate_and_set_step_sequence steps h = (Err ex, h') ->
     (steps = [] /\ ex = UnsupportedError /\ h' = h) \/
     (steps <> [] /\ ex = UserInputError)).
Proof.
  unfold _validate_and_set_step_sequence.
  destruct steps as [|r0 rest] eqn:Hsteps.
  - split.
    + split; [intros (c & h' & Hr); discriminate | intros [Hne _]; contradiction].
    + intros ex h' [= <- <-]. now left.
  - rewrite <- Hsteps.
    destruct (validate_and_set_steps_result (length steps) steps 0 h ltac:(lia))
      as [[Hall [h1 ->]] | [(j & r & Hj & Hbad) [h1 ->]]].
    + split.
      * split; [|intros _; now eexists _, _].
        intros _. split; [rewrite Hsteps; discriminate|]. exact Hall.
      * discriminate.
    + split.
      * split; [intros (c & h' & Hr); discriminate|].
        intros [_ Hall]. contradiction Hbad. now apply Hall.
      * intros ex h' [= <- <-]. right. split; [rewrite Hsteps; discriminate | reflexivity].
Qed.

Lemma step_sequence_accepted_witness :
  exists c h',
    _validate_and_set_step_sequence [0; 1]%nat StepScenario.heap = (Ok c, h').
Proof.
  apply (proj1 (step_sequence_accepted [0; 1]%nat StepScenario.heap)).
  split; [discriminate|].
  intros [|[|i]] r Hi; cbn in Hi; [| |discriminate]; injection Hi as <-;
    unfold step_ok; cbn; (split; [|split]).
  - intros Hc. discriminate.
  - left. lia.
  - intros mp [= <-]. lia.
  - intros _ Hc. discriminate.
  - now right.
  - discriminate.
Defined.

Lemma step_name_inj (i j : nat) :
  "GenerationStep_" +:+ pretty i = "GenerationStep_" +:+ pretty j -> i = j.
Proof.
  intros Heq. apply (inj (String.app "GenerationStep_")) in Heq.
  now apply (inj pretty) in Heq.
Qed.

(** X23: after a successful validation [_curr] is the first step of the
    list.  A step object of the list is called [GenerationStep_i] and has
    [index] [i] for the last position [i] that holds it: an object held at
    two positions carries the later one at both.  Its [num_trials],
    [max_parallelism], [model_name] and its lists of criteria are as
    before, and step objects outside the list are not written.  In a list
    that holds no object twice, the step at each position [i] is called
    [GenerationStep_i], and the names are pairwise distinct. *)
Theorem step_sequence_named (steps : list step_ref) (h h' : StepHeap) (c : step_ref) :
  _validate_and_set_step_sequence steps h = (Ok c, h') ->
  steps !! 0%nat = Some c /\
  (forall r,
     Step.transition_criteria (step_at h' r) = Step.transition_criteria (step_at h r) /\
     Step.num_trials (step_at h' r) = Step.num_trials (step_at h r) /\
     Step.max_parallelism (step_at h' r) = Step.max_parallelism (step_at h r) /\
     Step.completion_criteria (step_at h' r) = Step.completion_criteria (step_at h r) /\
     Step.model_name (step_at h' r) = Step.model_name (step_at h r)) /\
  (forall r, r ∉ steps -> step_at h' r = step_at h r) /\
  (forall i r, last_position steps i r ->
     Step._node_name (step_at h' r) = "GenerationStep_" +:+ pretty i /\
     Step.index (step_at h' r) = Z.of_nat i) /\
  (NoDup steps ->
     (forall i r, steps !! i = Some r ->
        Step._node_name (step_at h' r) = "GenerationStep_" +:+ pretty i /\
        Step.index (step_at h' r) = Z.of_nat i) /\
     NoDup ((fun r => Step._node_name (step_at h' r)) <$> steps)).
Proof.
  intros Hv. apply step_sequence_Ok in Hv as [Hc Hrun].
  apply validate_and_set_steps_Ok in Hrun as ([Hshape _] & Hout & Hlast & _); [|lia].
  split; [exact Hc|]. split; [exact Hshape|]. split; [exact Hout|].
  assert (Hnamed : forall i r, last_position steps i r ->
            Step._node_name (step_at h' r) = "GenerationStep_" +:+ pretty i /\
            Step.index (step_at h' r) = Z.of_nat i).
  { intros i r Hi. rewrite (Hlast i r Hi). now split. }
  split; [exact Hnamed|]. intros Hnd.
  assert (Hpos : forall i r, steps !! i = Some r -> last_position steps i r).
  { intros i r Hi. split; [exact Hi|]. intros j Hlt Hj.
    assert (i = j) by exact (NoDup_lookup _ i j r Hnd Hi Hj). lia. }
  split; [intros i r Hi; now apply Hnamed, Hpos|].
  apply NoDup_alt. intros i j nm Hi Hj. rewrite list_lookup_fmap in Hi, Hj.
  destruct (steps !! i) as [ri|] eqn:Hri; [|discriminate].
  destruct (steps !! j) as [rj|] eqn:Hrj; [|discriminate].
  cbn in Hi, Hj. injection Hi as Hi. injection Hj as Hj.
  rewrite (proj1 (Hnamed i ri (Hpos i ri Hri))) in Hi.
  rewrite (proj1 (Hnamed j rj (Hpos j rj Hrj))) in Hj.
  apply step_name_inj. congruence.
Qed.

(** X24: after a successful validation a criterion object whose class is
    not [MaxGenerationParallelism] has [GenerationStep_(i+1)] as its target
    for the last position [i] whose step holds it among its
    [transition_criteria]: a criterion shared by the steps at two positions
    is wired after the later one.  A criterion of class
    [MaxGenerationParallelism] keeps its target, and a criterion no step of
    the list holds is not written; the class and the
    [continue_trial_generation] flag of every criterion are as before.  The
    last step is wired too, and there the target is the name of no step of
    the list. *)
Theorem step_sequence_wired (steps : list step_ref) (h h' : StepHeap) (c0 : step_ref) :
  _validate_and_set_step_sequence steps h = (Ok c0, h') ->
  (forall c,
     criterion_class (criterion_at h' c) = criterion_class (criterion_at h c) /\
     continue_trial_generation (criterion_at h' c)
     = continue_trial_generation (criterion_at h c)) /\
  (forall c, criterion_class (criterion_at h c) = "MaxGenerationParallelism" ->
     criterion_at h' c = criterion_at h c) /\
  (forall c, (forall r, r ∈ steps -> c ∉ Step.transition_criteria (step_at h r)) ->
     criterion_at h' c = criterion_at h c) /\
  (forall i c, last_holder h steps i c ->
     criterion_class (criterion_at h c) <> "MaxGenerationParallelism" ->
     transition_to (criterion_at h' c) = Some ("GenerationStep_" +:+ pretty (i + 1)%nat)) /\
  (forall r c, last steps = Some r -> c ∈ Step.transition_criteria (step_at h r) ->
     criterion_class (criterion_at h c) <> "MaxGenerationParallelism" ->
     transition_to (criterion_at h' c)
     = Some ("GenerationStep_" +:+ pretty (length steps)) /\
     forall r', r' ∈ steps ->
       Some (Step._node_name (step_at h' r')) <> transition_to (criterion_at h' c)).
Proof.
  intros Hv. apply step_sequence_Ok in Hv as [_ Hrun].
  apply validate_and_set_steps_Ok in Hrun as ([_ Hshape] & _ & Hlast & Hfree & Hwired);
    [|lia].
  assert (Hmove : forall i c, last_holder h steps i c ->
            criterion_class (criterion_at h c) <> "MaxGenerationParallelism" ->
            transition_to (criterion_at h' c)
            = Some ("GenerationStep_" +:+ pretty (i + 1)%nat)).
  { intros i c Hi Hcl. rewrite (Hwired i c Hi). cbn.
    destruct (wire_criterion_fields i (criterion_at h c)) as (_ & _ & ->).
    apply String.eqb_neq in Hcl. now rewrite Hcl. }
  split; [exact Hshape|]. split; [|split; [exact Hfree|split; [exact Hmove|]]].
  - intros c Hcl.
    destruct (last_holder_cases h steps c) as [[i Hi] | Hnone]; [|now apply Hfree].
    rewrite (Hwired i c Hi). cbn. unfold wire_criterion. now rewrite Hcl.
  - intros r c Hr Hin Hcl.
    assert (Hlen : steps !! (length steps - 1)%nat = Some r).
    { rewrite last_lookup in Hr. now rewrite <- Nat.sub_1_r in Hr. }
    assert (Hpos : (length steps - 1 < length steps)%nat)
      by (apply lookup_lt_Some in Hlen; exact Hlen).
    assert (Htarget : transition_to (criterion_at h' c)
                      = Some ("GenerationStep_" +:+ pretty (length steps))).
    { rewrite (Hmove (length steps - 1)%nat c);
        [now replace (length steps - 1 + 1)%nat with (length steps) by lia | | exact Hcl].
      split; [now exists r|]. intros j r' Hlt Hj. apply lookup_lt_Some in Hj. lia. }
    split; [exact Htarget|]. intros r' Hr'. rewrite Htarget. intros [= Heq].
    assert (Hex := last_position_exists steps r' Hr').
    destruct Hex as [i Hi]. rewrite (Hlast i r' Hi) in Heq. cbn in Heq.
    apply step_name_inj in Heq. destruct Hi as [Hi _].
    apply lookup_lt_Some in Hi. lia.
Qed.

(** X26: a refused sequence is left partly written.  When the step at
    position [j] is the first one the checks refuse, the validation raises
    [UserInputError] after the steps before it have been named and wired:
    each step object held before position [j] is called [GenerationStep_i]
    for the last position [i] before [j] that holds it, the criteria of
    those steps are wired in the same way, and the step objects and
    criteria not held before position [j] are not written. *)
Theorem refused_sequence_partly_written (steps : list step_ref) (h : StepHeap)
    (j : nat) (r : step_ref) :
  steps !! j = Some r ->
  ~ step_ok (length steps) j (step_at h r) ->
  (forall i r', (i < j)%nat -> steps !! i = Some r' ->
     step_ok (length steps) i (step_at h r')) ->
  exists h',
    _validate_and_set_step_sequence steps h = (Err UserInputError, h') /\
    (forall i r', last_position (take j steps) i r' ->
       Step._node_name (step_at h' r') = "GenerationStep_" +:+ pretty i /\
       Step.index (step_at h' r') = Z.of_nat i) /\
    (forall r', r' ∉ take j steps -> step_at h' r' = step_at h r') /\
    (forall i c, last_holder h (take j steps) i c ->
       criterion_class (criterion_at h c) <> "MaxGenerationParallelism" ->
       transition_to (criterion_at h' c)
       = Some ("GenerationStep_" +:+ pretty (i + 1)%nat)) /\
    (forall c,
       (forall r', r' ∈ take j steps -> c ∉ Step.transition_criteria (step_at h r')) ->
       criterion_at h' c = criterion_at h c).
Proof.
  intros Hj Hbad Hbefore.
  destruct (validate_and_set_steps_Err (length steps) steps 0 h j r
              ltac:(lia) Hj Hbad Hbefore) as (h' & Hrun & Hpre).
  exists h'. split.
  - unfold _validate_and_set_step_sequence.
    destruct steps as [|r0 rest]; [discriminate|].
    cbv beta iota. now rewrite Hrun.
  - apply validate_and_set_steps_Ok in Hpre
      as (_ & Hout & Hlast & Hfree & Hwired); [|rewrite length_take; lia].
    split; [|split; [exact Hout|split; [|exact Hfree]]].
    + intros i r' Hi. rewrite (Hlast i r' Hi). now split.
    + intros i c Hi Hcl. rewrite (Hwired i c Hi). cbn.
      destruct (wire_criterion_fields i (criterion_at h c)) as (_ & _ & ->).
      apply String.eqb_neq in Hcl. now rewrite Hcl.
Qed.

(** A step without limit in the middle of the list is refused after
    [Sobol], before it, has been named and wired; [BoTorch], after it, has
    not been written. *)
Lemma refused_sequence_partly_written_witness :
  exists h',
    _validate_and_set_step_sequence [0; 2; 1]%nat StepScenario.heap
      = (Err UserInputError, h') /\
    (forall i r', last_position (take 1 [0; 2; 1]%nat) i r' ->
       Step._node_name (step_at h' r') = "GenerationStep_" +:+ pretty i /\
       Step.index (step_at h' r') = Z.of_nat i) /\
    (forall r', r' ∉ take 1 [0; 2; 1]%nat ->
       step_at h' r' = step_at StepScenario.heap r') /\
    (forall i c, last_holder StepScenario.heap (take 1 [0; 2; 1]%nat) i c ->
       criterion_class (criterion_at StepScenario.heap c) <> "MaxGenerationParallelism" ->
       transition_to (criterion_at h' c)
       = Some ("GenerationStep_" +:+ pretty (i + 1)%nat)) /\
    (forall c,
       (forall r', r' ∈ take 1 [0; 2; 1]%nat ->
          c ∉ Step.transition_criteria (step_at StepScenario.heap r')) ->
       criterion_at h' c = criterion_at StepScenario.heap c).
Proof.
  apply (refused_sequence_partly_written [0; 2; 1]%nat StepScenario.heap 1%nat 2%nat).
  - reflexivity.
  - unfold step_ok. cbn. intros (Hlast & _). specialize (Hlast eq_refl eq_refl). lia.
  - intros [|i] r' Hlt Hi; [|lia]. injection Hi as <-.
    unfold step_ok. cbn. split; [discriminate|]. split; [left; lia|].
    intros mp [= <-]. lia.
Defined.

(** The [Sobol] step held at both positions of the list ends up called
    after the second. *)
Lemma step_sequence_named_witness :
  Step._node_name (step_at StepScenario.validated_twice 0%nat)
    = "GenerationStep_" +:+ pretty 1%nat /\
  Step.index (step_at StepScenario.validated_twice 0%nat) = 1.
Proof.
  assert (Hv : _validate_and_set_step_sequence [0; 0]%nat StepScenario.heap
               = (Ok 0%nat, StepScenario.validated_twice))
    by (vm_compute; reflexivity).
  destruct (step_sequence_named _ _ _ _ Hv) as (_ & _ & _ & Hnamed & _).
  apply (Hnamed 1%nat 0%nat). split; [reflexivity|].
  intros [|[|j]] Hlt; [lia | lia | discriminate].
Defined.

(** The criterion of the last step, which is also its completion criterion,
    is wired to a step that does not exist. *)
Lemma step_sequence_wired_witness :
  transition_to (criterion_at StepScenario.validated 2%nat)
    = Some ("GenerationStep_" +:+ pretty 2%nat) /\
  forall r', r' ∈ [0; 1]%nat ->
    Some (Step._node_name (step_at StepScenario.validated r'))
    <> transition_to (criterion_at StepScenario.validated 2%nat).
Proof.
  assert (Hv : _validate_and_set_step_sequence [0; 1]%nat StepScenario.heap
               = (Ok 0%nat, StepScenario.validated))
    by (vm_compute; reflexivity).
  destruct (step_sequence_wired _ _ _ _ Hv) as (_ & _ & _ & _ & Hlast).
  apply (Hlast 1%nat 2%nat); [reflexivity | apply list_elem_of_here | discriminate].
Defined.

Lemma nodes_dict_last_of_name_witness :
  exists nd, _nodes Scenario.strategy !! 1%nat = Some nd /\ node_name nd = "B" /\
    forall k nd', (1 < k)%nat -> _nodes Scenario.strategy !! k = Some nd' ->
                  node_name nd' <> "B".
Proof.
  apply (proj1 (proj1 (nodes_dict_last_of_name Scenario.strategy "B") 1%nat)).
  vm_compute. reflexivity.
Defined.
